(** * note-sync: a verification model of [sync_notes.py]

    The development embeds the text-extraction and session-conversion logic
    of [sync_notes.py] as executable Rocq functions and proves the
    properties of the specification against them.

    Conventions of the embedding:
    - a Python [str] is the list of its Unicode code points ([list N]);
      [len], slicing and comparison are the list operations;
    - every regular expression of the source is written out as the matcher
      that Python's backtracking engine computes for it, and [re.sub],
      [re.search] and [re.split] are drivers that scan the text with it;
    - timestamps (epoch seconds) are integers; the source compares them,
      and its only arithmetic on them is the difference [now - last] of
      the change tracker;
    - what the interpreter and the operating system decide (Unicode title
      casing, path base names, whether an image can be copied, whether the
      note file can be written, the clock) is a field of the [Host] record;
    - the filesystem is a snapshot: a session is the directory listing the
      source iterates over, each entry with the text [_read_file] returns;
    - the model follows the runs in which no call raises outside a [try]
      of the source: the times of the entries can be read, and probing an
      image and creating the image directory do not raise; a note file
      that cannot be written is taken to fail at [open], before anything
      is written. *)

From Stdlib Require Import ZArith NArith List Bool Lia String Ascii Sorted.
From stdpp Require Import base option list gmap.

Abbreviation pystr := (list N).

(** ASCII literals of the source, as code points. *)
Definition ch (a : ascii) : N := N_of_ascii a.
Definition py (s : string) : pystr := List.map N_of_ascii (list_ascii_of_string s).

Definition nl : N := 10%N.
Definition sp : N := 32%N.

Definition is_ch (a : ascii) (c : N) : bool := N.eqb c (ch a).
Definition is_nl (c : N) : bool := N.eqb c nl.
Definition between (lo hi c : N) : bool := N.leb lo c && N.leb c hi.

(** ** Character classes *)

(** [str.isspace()] and the [\s] class of [re] on [str] patterns: the same
    table in CPython ([Py_UNICODE_ISSPACE]). *)
Definition is_space (c : N) : bool :=
  between 9 13 c || between 28 31 c || N.eqb c 32 || N.eqb c 133 ||
  N.eqb c 160 || N.eqb c 5760 || between 8192 8202 c || N.eqb c 8232 ||
  N.eqb c 8233 || N.eqb c 8239 || N.eqb c 8287 || N.eqb c 12288.

Definition is_ascii_lower (c : N) : bool := between (ch "a") (ch "z") c.
Definition is_ascii_upper (c : N) : bool := between (ch "A") (ch "Z") c.
Definition is_ascii_letter (c : N) : bool := is_ascii_lower c || is_ascii_upper c.
Definition is_digit (c : N) : bool := between (ch "0") (ch "9") c.
Definition is_cjk (c : N) : bool := between 0x4e00 0x9fff c.

(** A lower-case ASCII letter [p] of a pattern compiled with
    [re.IGNORECASE] matches itself, its upper-case form, and the four
    non-ASCII code points that case-fold onto ASCII letters
    (U+0130, U+0131 for i, U+017F for s, U+212A for k). *)
Definition ci_letter (p c : N) : bool :=
  N.eqb c p || N.eqb c (p - 32) ||
  (is_ch "i" p && (N.eqb c 0x130 || N.eqb c 0x131)) ||
  (is_ch "s" p && N.eqb c 0x17f) ||
  (is_ch "k" p && N.eqb c 0x212a).

(** [[0-9a-fA-F]]; under [re.IGNORECASE] the class is unchanged, since no
    other code point case-folds into it. *)
Definition is_hex (c : N) : bool :=
  is_digit c || between (ch "a") (ch "f") c || between (ch "A") (ch "F") c.

(** ** [str] methods *)

Fixpoint take_while (p : N -> bool) (s : pystr) : pystr :=
  match s with
  | [] => []
  | c :: s' => if p c then c :: take_while p s' else []
  end.

Fixpoint drop_while (p : N -> bool) (s : pystr) : pystr :=
  match s with
  | [] => []
  | c :: s' => if p c then drop_while p s' else s
  end.

Definition str_eqb (a b : pystr) : bool := bool_decide (a = b).

(** [text.startswith(prefix)] *)
Fixpoint starts_with (prefix text : pystr) : bool :=
  match prefix, text with
  | [], _ => true
  | _ :: _, [] => false
  | p :: prefix', c :: text' => N.eqb p c && starts_with prefix' text'
  end.

(** [sub in text] *)
Fixpoint str_in (sub text : pystr) : bool :=
  starts_with sub text ||
  match text with
  | [] => false
  | _ :: text' => str_in sub text'
  end.

(** [text.strip()] *)
Definition lstrip (s : pystr) : pystr := drop_while is_space s.
Definition rstrip (s : pystr) : pystr := rev (drop_while is_space (rev s)).
Definition strip (s : pystr) : pystr := rstrip (lstrip s).

(** [text.count(c)] for a one-character [c]. *)
Fixpoint count_char (a : ascii) (s : pystr) : nat :=
  match s with
  | [] => 0
  | c :: s' => (if is_ch a c then 1 else 0) + count_char a s'
  end.

(** [text.replace(old, new)]: every non-overlapping occurrence, scanning
    from the left.  [skip] counts the code points of the occurrence being
    replaced that are still to be passed over. *)
Fixpoint replace_from (old new : pystr) (skip : nat) (text : pystr) : pystr :=
  match text with
  | [] => []
  | c :: rest =>
      match skip with
      | S k => replace_from old new k rest
      | O =>
          if starts_with old text
          then new ++ replace_from old new (length old - 1) rest
          else c :: replace_from old new 0 rest
      end
  end.

Definition str_replace (old new text : pystr) : pystr :=
  match old with
  | [] => new ++ flat_map (fun c => c :: new) text
  | _ :: _ => replace_from old new 0 text
  end.

(** [sep.join(parts)] *)
Fixpoint str_join (sep : pystr) (parts : list pystr) : pystr :=
  match parts with
  | [] => []
  | [p] => p
  | p :: parts' => p ++ sep ++ str_join sep parts'
  end.

(** Lexicographic order on code points: Python's [<=] on [str]. *)
Fixpoint str_leb (a b : pystr) : bool :=
  match a, b with
  | [], _ => true
  | _ :: _, [] => false
  | x :: a', y :: b' => N.ltb x y || (N.eqb x y && str_leb a' b')
  end.

(** [sorted(keys)] *)
Fixpoint sorted_insert (k : pystr) (ks : list pystr) : list pystr :=
  match ks with
  | [] => [k]
  | k' :: ks' => if str_leb k k' then k :: ks else k' :: sorted_insert k ks'
  end.

Definition sorted (ks : list pystr) : list pystr := foldr sorted_insert [] ks.

(** ** Drivers for [re.sub], [re.search] and [re.split]

    A matcher receives whether the position is at the beginning of a line
    (what [^] tests under [re.MULTILINE]) and the text from the position
    on; it answers with the data of the match and the number of code
    points the match covers.  No pattern of the source matches the empty
    string, so a match always covers at least one code point. *)

Definition matcher (A : Type) : Type := bool -> pystr -> option (A * nat).

(** [re.sub]: the matcher returns the replacement text. *)
Fixpoint re_sub_from (m : matcher pystr) (bol : bool) (skip : nat) (t : pystr) : pystr :=
  match t with
  | [] => []
  | c :: rest =>
      match skip with
      | S k => re_sub_from m (is_nl c) k rest
      | O =>
          match m bol t with
          | Some (repl, n) => repl ++ re_sub_from m (is_nl c) (n - 1) rest
          | None => c :: re_sub_from m (is_nl c) 0 rest
          end
      end
  end.

Definition re_sub (m : matcher pystr) (t : pystr) : pystr := re_sub_from m true 0 t.

(** [re.search]: the leftmost position at which the matcher succeeds; the
    result is the matcher's data and the matched text, [group(0)]. *)
Fixpoint re_search_from {A} (m : matcher A) (bol : bool) (t : pystr) : option (A * pystr) :=
  match m bol t with
  | Some (a, n) => Some (a, take n t)
  | None =>
      match t with
      | [] => None
      | c :: rest => re_search_from m (is_nl c) rest
      end
  end.

Definition re_search {A} (m : matcher A) (t : pystr) : option (A * pystr) :=
  re_search_from m true t.

(** [re.split]: [cur] is the piece being collected, in reverse. *)
Fixpoint re_split_from (m : matcher unit) (bol : bool) (skip : nat) (cur : pystr) (t : pystr)
  : list pystr :=
  match t with
  | [] => [rev cur]
  | c :: rest =>
      match skip with
      | S k => re_split_from m (is_nl c) k cur rest
      | O =>
          match m bol t with
          | Some (_, n) => rev cur :: re_split_from m (is_nl c) (n - 1) [] rest
          | None => re_split_from m (is_nl c) 0 (c :: cur) rest
          end
      end
  end.

Definition re_split (m : matcher unit) (t : pystr) : list pystr :=
  re_split_from m true 0 [] t.

(** The lazy group [(.*?)] followed by the literal [delim]: the shortest
    run of code points other than a line feed after which [delim] stands.
    Returns the run. *)
Fixpoint lazy_until (delim : pystr) (t : pystr) {struct t} : option pystr :=
  if starts_with delim t then Some []
  else match t with
       | [] => None
       | c :: t' =>
           if is_nl c then None
           else match lazy_until delim t' with
                | Some g => Some (c :: g)
                | None => None
                end
       end.

(** * Text Extractor *)

(** ** The patterns of [_clean_text] *)

(** [^>\s*] under [re.MULTILINE], replaced by the empty string. *)
Definition quote_marker : matcher pystr := fun bol t =>
  match t with
  | c :: r =>
      if bol && is_ch ">" c
      then Some ([], S (length (take_while is_space r)))
      else None
  | [] => None
  end.

(** [\*\*(.*?)\*\*], replaced by its group. *)
Definition bold_span : matcher pystr := fun _ t =>
  match t with
  | a :: b :: r =>
      if is_ch "*" a && is_ch "*" b
      then match lazy_until (py "**") r with
           | Some g => Some (g, length g + 4)
           | None => None
           end
      else None
  | _ => None
  end.

Definition not_ch (a : ascii) (c : N) : bool := negb (is_ch a c).

(** [\[([^\]]+)\]\([^\)]+\)], replaced by its first group.  Both runs are
    greedy and end at the first closing character: giving a code point
    back never lets the closing literal match. *)
Definition md_link : matcher pystr := fun _ t =>
  match t with
  | c :: r =>
      if is_ch "[" c then
        let g := take_while (not_ch "]") r in
        match g, drop_while (not_ch "]") r with
        | _ :: _, c1 :: c2 :: r2 =>
            if is_ch "]" c1 && is_ch "(" c2 then
              let u := take_while (not_ch ")") r2 in
              match u, drop_while (not_ch ")") r2 with
              | _ :: _, c3 :: _ =>
                  if is_ch ")" c3 then Some (g, length g + length u + 4) else None
              | _, _ => None
              end
            else None
        | _, _ => None
        end
      else None
  | [] => None
  end.

(** [`([^`]+)`], replaced by its group. *)
Definition code_span : matcher pystr := fun _ t =>
  match t with
  | c :: r =>
      if is_ch "`" c then
        let g := take_while (not_ch "`") r in
        match g, drop_while (not_ch "`") r with
        | _ :: _, c1 :: _ => if is_ch "`" c1 then Some (g, length g + 2) else None
        | _, _ => None
        end
      else None
  | [] => None
  end.

(** [^(Summary|Abstract|Overview)[:\s-]*] under [re.IGNORECASE], without
    [re.MULTILINE]: [^] holds at the start of the text only, so [re.sub]
    removes at most the one match there. *)
Fixpoint ci_starts_with (word t : pystr) : bool :=
  match word, t with
  | [], _ => true
  | _ :: _, [] => false
  | p :: word', c :: t' => ci_letter p c && ci_starts_with word' t'
  end.

Definition label_words : list pystr := [py "summary"; py "abstract"; py "overview"].

Definition is_label_sep (c : N) : bool := is_ch ":" c || is_space c || is_ch "-" c.

Definition label_prefix (t : pystr) : option nat :=
  match List.find (fun w => ci_starts_with w t) label_words with
  | Some w => Some (length w + length (take_while is_label_sep (drop (length w) t)))
  | None => None
  end.

Definition strip_label (t : pystr) : pystr :=
  match label_prefix t with
  | Some n => drop n t
  | None => t
  end.

(** [_clean_text] *)
Definition _clean_text (text : pystr) : pystr :=
  let text := re_sub quote_marker text in
  let text := re_sub bold_span text in
  let text := re_sub md_link text in
  let text := re_sub code_span text in
  let text := strip_label text in
  strip text.

(** ** [_is_valid_sentence] *)

(** The class [[\u4e00-\u9fff a-zA-Z]]: between the CJK range and the
    ASCII ranges the source has a space, which belongs to the class. *)
Definition in_letter_class (c : N) : bool :=
  is_cjk c || N.eqb c sp || is_ascii_lower c || is_ascii_upper c.

Definition _is_valid_sentence (text : pystr) : bool :=
  let text := strip text in
  if length text <? 15 then false
  else if starts_with (py "```") text then false
  else if starts_with (py "#") text then false
  else if starts_with (py "![") text then false
  else if (3 <? count_char ";" text) || (2 <? count_char "{" text) then false
  else if negb (existsb in_letter_class text) then false
  else true.

(** ** [_smart_extract] *)

(** [\n\s*\n]: the greedy [\s*] takes the whole run of white space and
    gives code points back until a line feed follows, so the separator
    ends at the last line feed of the run.  [last_nl_end w] is the length
    of the prefix of [w] that ends with the last line feed of [w]. *)
Fixpoint last_nl_end (w : pystr) : option nat :=
  match w with
  | [] => None
  | c :: w' =>
      match last_nl_end w' with
      | Some n => Some (S n)
      | None => if is_nl c then Some 1 else None
      end
  end.

Definition blank_line : matcher unit := fun _ t =>
  match t with
  | c :: r =>
      if is_nl c
      then match last_nl_end (take_while is_space r) with
           | Some n => Some (tt, S n)
           | None => None
           end
      else None
  | [] => None
  end.

Definition split_paragraphs (content : pystr) : list pystr := re_split blank_line content.

Definition sentinel : pystr := py "See content below.".

(** [cleaned.replace('\n', ' ').strip()] *)
Definition flatten_text (cleaned : pystr) : pystr := strip (str_replace [nl] [sp] cleaned).

(** [exclude_text and final_text == exclude_text]: [None] and the empty
    string are both false in a condition. *)
Definition is_excluded (exclude_text : option pystr) (final_text : pystr) : bool :=
  match exclude_text with
  | Some ((_ :: _) as e) => str_eqb final_text e
  | _ => false
  end.

(** The inner loop over the paragraphs of one content; [Some] is the
    [return] of the source, [None] falls through to the next content. *)
Fixpoint extract_from_paragraphs (exclude_text : option pystr) (paragraphs : list pystr)
  : option pystr :=
  match paragraphs with
  | [] => None
  | p :: paragraphs' =>
      let cleaned := _clean_text p in
      if _is_valid_sentence cleaned then
        let final_text := flatten_text cleaned in
        if is_excluded exclude_text final_text
        then extract_from_paragraphs exclude_text paragraphs'
        else Some final_text
      else extract_from_paragraphs exclude_text paragraphs'
  end.

(** The outer loop over the contents. *)
Fixpoint extract_from_contents (exclude_text : option pystr) (content_list : list pystr)
  : option pystr :=
  match content_list with
  | [] => None
  | content :: content_list' =>
      match content with
      | [] => extract_from_contents exclude_text content_list'
      | _ :: _ =>
          match extract_from_paragraphs exclude_text (split_paragraphs content) with
          | Some final_text => Some final_text
          | None => extract_from_contents exclude_text content_list'
          end
      end
  end.

Definition _smart_extract (content_list : list pystr) (exclude_text : option pystr) : pystr :=
  match extract_from_contents exclude_text content_list with
  | Some final_text => final_text
  | None => sentinel
  end.

(** * State Store *)

(** [SyncState.should_process]: [mtime > self.state.get(hash_id, 0)] *)
Definition should_process (state : gmap pystr Z) (hash_id : pystr) (mtime : Z) : bool :=
  Z.ltb (default 0%Z (state !! hash_id)) mtime.

(** [SyncState.update]; [save] only mirrors the mapping to disk. *)
Definition update (state : gmap pystr Z) (hash_id : pystr) (mtime : Z) : gmap pystr Z :=
  <[hash_id := mtime]> state.

(** * Session Converter *)

(** What the interpreter and the operating system contribute. *)
Record Host := {
  str_title : pystr -> pystr;           (* [str.title()] *)
  path_name : pystr -> pystr;           (* [Path(src).name] *)
  copy_image : pystr -> pystr -> bool;  (* session, src: the image exists there and [copy2] succeeds *)
  can_write : pystr -> bool;            (* the note file of this name can be created and written *)
  format_date : Z -> pystr;             (* [datetime.fromtimestamp(t).strftime("%Y-%m-%d")] *)
  date_at_start : pystr;                (* the first [datetime.now()], formatted *)
  date_at_end : pystr                   (* the second [datetime.now()], formatted *)
}.

(** An entry of a session directory, as [iterdir] and [stat] show it;
    [f_text] is what [_read_file] returns for it (empty on failure). *)
Record FileEntry := {
  f_name : pystr;
  f_is_file : bool;
  f_size : N;
  f_text : pystr;
  f_ctime : Z;
  f_mtime : Z
}.

(** A directory under [SOURCE_ROOT]. *)
Record Session := {
  s_name : pystr;
  s_mtime : Z;
  s_files : list FileEntry
}.

(** The brain directory (read only), the note files of the notes
    directory [DEST_DIR] by file name (the images copied under its
    [src] directory are not part of it) and the in-memory sync state. *)
Record World := {
  brain : list Session;
  notes : gmap pystr pystr;
  state : gmap pystr Z
}.

(** ** Python dictionaries that keep insertion order *)

Fixpoint dict_get {V} (k : pystr) (d : list (pystr * V)) : option V :=
  match d with
  | [] => None
  | (k', v) :: d' => if str_eqb k' k then Some v else dict_get k d'
  end.

(** [d[k].append(f)], after [d[k] = []] when [k] is new. *)
Fixpoint dict_append {V} (k : pystr) (v : V) (d : list (pystr * list V)) : list (pystr * list V) :=
  match d with
  | [] => [(k, [v])]
  | (k', vs) :: d' =>
      if str_eqb k' k then (k', vs ++ [v]) :: d' else (k', vs) :: dict_append k v d'
  end.

Definition dict_keys {V} (d : list (pystr * V)) : list pystr := List.map fst d.

(** ** 1. File discovery and grouping *)

(** [re.match(r'^(.+?)\.md', name)], its group 1: the shortest non-empty
    run without line feed after which [.md] stands. *)
Definition base_name (name : pystr) : option pystr :=
  match name with
  | [] => None
  | c :: r =>
      if is_nl c then None
      else match lazy_until (py ".md") r with
           | Some g => Some (c :: g)
           | None => None
           end
  end.

Definition file_groups (files : list FileEntry) : list (pystr * list FileEntry) :=
  fold_left
    (fun groups f =>
       if f_is_file f then
         match base_name (f_name f) with
         | Some b => dict_append b f groups
         | None => groups
         end
       else groups)
    files [].

(** [max(paths, key=lambda p: p.stat().st_size)]: the first entry of the
    largest size. *)
Fixpoint max_by_size (best : FileEntry) (paths : list FileEntry) : FileEntry :=
  match paths with
  | [] => best
  | f :: paths' => max_by_size (if (f_size best <? f_size f)%N then f else best) paths'
  end.

Definition pick_largest (group : pystr * list FileEntry) : list (pystr * FileEntry) :=
  let '(b, paths) := group in
  match paths with
  | [] => []
  | f :: paths' => [(b, max_by_size f paths')]
  end.

Definition best_files_map (files : list FileEntry) : list (pystr * FileEntry) :=
  flat_map pick_largest (file_groups files).

(** ** 2. Contents *)

Definition contents (files : list FileEntry) : list (pystr * pystr) :=
  List.map (fun '(b, f) => (b, f_text f)) (best_files_map files).

Definition content_of (files : list FileEntry) (key : pystr) : pystr :=
  default [] (dict_get key (contents files)).

Definition walkthrough_content (files : list FileEntry) : pystr := content_of files (py "walkthrough").
Definition impl_content (files : list FileEntry) : pystr := content_of files (py "implementation_plan").
Definition task_content (files : list FileEntry) : pystr := content_of files (py "task").

Definition known_keys : list pystr := [py "walkthrough"; py "implementation_plan"; py "task"].

Definition other_keys (files : list FileEntry) : list pystr :=
  sorted (List.filter (fun k => negb (existsb (str_eqb k) known_keys)) (dict_keys (contents files))).

Definition last_other_content (files : list FileEntry) : pystr :=
  match last (other_keys files) with
  | Some k => content_of files k
  | None => []
  end.

(** ** 3. Overview and abstract *)

Definition overview_text (files : list FileEntry) : pystr :=
  _smart_extract [walkthrough_content files; impl_content files; task_content files] None.

Definition abstract_text (files : list FileEntry) : pystr :=
  _smart_extract [impl_content files; task_content files; last_other_content files]
                (Some (overview_text files)).

(** ** 4. Content buffer *)

Definition section (heading body : pystr) : list pystr :=
  [[nl] ++ py "### " ++ heading ++ [nl]; body].

Definition fixed_section (heading body : pystr) : list pystr :=
  match body with
  | [] => []
  | _ :: _ => section heading body
  end.

Definition content_buffer (H : Host) (files : list FileEntry) : list pystr :=
  fixed_section (py "Implementation Plan") (impl_content files) ++
  fixed_section (py "Task List") (task_content files) ++
  flat_map
    (fun key => section (str_title H (str_replace (py "_") (py " ") key)) (content_of files key))
    (other_keys files) ++
  fixed_section (py "Walkthrough") (walkthrough_content files).

Definition full_raw_content (H : Host) (files : list FileEntry) : pystr :=
  str_join [nl] (content_buffer H files).

(** ** 5. Title extraction and filtering *)

(** Position and value of the last code point of [w] that is not a line
    feed. *)
Fixpoint last_not_nl (w : pystr) : option (nat * N) :=
  match w with
  | [] => None
  | c :: w' =>
      match last_not_nl w' with
      | Some (i, x) => Some (S i, x)
      | None => if is_nl c then None else Some (0, c)
      end
  end.

(** [^#\s+(.+)$] under [re.MULTILINE]; the data of the match is group 1.
    [\s+] takes the whole run of white space after the [#], line feeds
    included.  When text follows the run, [(.+)] is the rest of that
    line.  When the run reaches the end of the text, [\s+] gives code
    points back until [(.+)] can take one that is not a line feed, and
    [(.+)] is that single code point. *)
Definition heading_line : matcher pystr := fun bol t =>
  match t with
  | c :: r =>
      if bol && is_ch "#" c then
        match take_while is_space r with
        | [] => None
        | (_ :: w') as w =>
            match drop_while is_space r with
            | (_ :: _) as rest =>
                let g := take_while (fun x => negb (is_nl x)) rest in
                Some (g, 1 + length w + length g)
            | [] =>
                match last_not_nl w' with
                | Some (i, x) => Some ([x], i + 3)
                | None => None
                end
            end
        end
      else None
  | [] => None
  end.

(** The title and the content left after the title lines are removed. *)
Definition extract_title (full_raw_content hash_id : pystr) : pystr * pystr :=
  match re_search heading_line full_raw_content with
  | Some (group1, group0) => (strip group1, str_replace group0 [] full_raw_content)
  | None => (py "Note-" ++ take 8 hash_id, full_raw_content)
  end.

(** [re.match(r'^Note[\s-][0-9a-fA-F]+.*', title, re.IGNORECASE)] *)
Definition is_default_title (title : pystr) : bool :=
  ci_starts_with (py "note") title &&
  match drop 4 title with
  | s :: h :: _ => (is_space s || is_ch "-" s) && is_hex h
  | _ => false
  end.

(** ** 6. Images, redaction, links *)

(** The callback [replace_img] of [_process_images]. *)
Definition replace_img (H : Host) (session alt src group0 : pystr) : pystr :=
  if starts_with (py "http") src || starts_with (py "https") src then group0
  else if copy_image H session src
       then py "![" ++ alt ++ py "](./src/" ++ path_name H src ++ py ")"
       else group0.

(** [!\[(.*?)\]\((.*?)\)]: the first [](] on the line, then the first [)]
    on the line; a later [](] never helps when no [)] follows the first. *)
Definition image_ref (H : Host) (session : pystr) : matcher pystr := fun _ t =>
  match t with
  | a :: b :: r =>
      if is_ch "!" a && is_ch "[" b then
        match lazy_until (py "](") r with
        | Some alt =>
            match lazy_until (py ")") (drop (length alt + 2) r) with
            | Some src =>
                let n := length alt + length src + 5 in
                Some (replace_img H session alt src (take n t), n)
            | None => None
            end
        | None => None
        end
      else None
  | _ => None
  end.

Definition _process_images (H : Host) (session content : pystr) : pystr :=
  re_sub (image_ref H session) content.

(** [_sanitize_content] *)
Definition _sanitize_content (ignore_strings : list pystr) (text : pystr) : pystr :=
  fold_left (fun text ignore_str => str_replace ignore_str [] text) ignore_strings text.

Definition LOCAL_REPO_PATH : pystr := py "/home/ubuntu/ming/ming-nfapi-debugger".
Definition GITHUB_REPO_BASE : pystr := py "https://github.com/bmw-ece-ntust/ming-nfapi-debugger/blob".
Definition GITHUB_BRANCH : pystr := py "oai-debugging-tool-rapp".

Definition _convert_github_links (text : pystr) : pystr :=
  let target_prefix := py "file://" ++ LOCAL_REPO_PATH in
  let replacement_base := GITHUB_REPO_BASE ++ py "/" ++ GITHUB_BRANCH ++ py "/" in
  if str_in target_prefix text then str_replace target_prefix replacement_base text else text.

Definition processed_content (H : Host) (ignore_strings : list pystr) (session raw : pystr) : pystr :=
  _convert_github_links (_sanitize_content ignore_strings (_process_images H session raw)).

(** Creation date: the walkthrough file's, else the implementation
    plan's, else the clock's. *)
Definition c_date_str (H : Host) (files : list FileEntry) : pystr :=
  match dict_get (py "walkthrough") (best_files_map files) with
  | Some f => format_date H (f_ctime f)
  | None =>
      match dict_get (py "implementation_plan") (best_files_map files) with
      | Some f => format_date H (f_ctime f)
      | None => date_at_start H
      end
  end.

Definition details_fallback : pystr := py "See details in Content section.".

Definition final_overview (title overview : pystr) : pystr :=
  if str_eqb overview sentinel then title else overview.

Definition final_abstract (overview abstract : pystr) : pystr :=
  if str_eqb abstract overview then details_fallback else abstract.

(** [NOTE_TEMPLATE.format(...)] *)
Definition NOTE_TEMPLATE (title created_date updated_date overview abstract content : pystr)
  : pystr :=
  py "# " ++ title ++ [nl; nl] ++
  py "**Created:** " ++ created_date ++ [nl] ++
  py "**Last Updated:** " ++ updated_date ++ [nl] ++
  py "**Tags:** #Development #Research" ++ [nl] ++
  py "**Status:** " ++ [0x2705%N] ++ py " Complete" ++ [nl; nl] ++
  py "---" ++ [nl; nl] ++
  py "## " ++ [0x1f4cb%N] ++ py " Overview" ++ [nl; nl] ++
  py "> **Summary:** " ++ overview ++ [nl; nl] ++
  py "### Abstract" ++ [nl; nl] ++
  abstract ++ [nl; nl] ++
  py "---" ++ [nl; nl] ++
  py "## " ++ [0x1f4dd%N] ++ py " Content" ++ [nl; nl] ++
  content ++ [nl].

(** The class of the first [re.sub] of the file name: backslash, slash,
    asterisk, question mark, colon, double quote, the two angle brackets
    and the vertical bar. *)
Definition is_illegal (c : N) : bool :=
  N.eqb c 92 || is_ch "/" c || is_ch "*" c || is_ch "?" c || is_ch ":" c ||
  N.eqb c 34 || is_ch "<" c || is_ch ">" c || is_ch "|" c.

Definition illegal_char : matcher pystr := fun _ t =>
  match t with
  | c :: _ => if is_illegal c then Some ([], 1) else None
  | [] => None
  end.

(** [-+], replaced by one hyphen. *)
Definition hyphen_run : matcher pystr := fun _ t =>
  match take_while (is_ch "-") t with
  | [] => None
  | (_ :: _) as run => Some (py "-", length run)
  end.

Definition safe_title (title : pystr) : pystr :=
  let t := str_replace (py " ") (py "-")
             (str_replace (py "_") (py "-") (str_replace (py "_-_") (py "-") title)) in
  re_sub hyphen_run (re_sub illegal_char t).

Definition note_filename (title : pystr) : pystr := safe_title title ++ py ".md".

(** [if timestamp: self.state_manager.update(hash_id, timestamp)]: a
    timestamp counts as given when it is neither [None] nor zero, the two
    values that are false in a condition. *)
Definition timestamp_given (timestamp : option Z) : bool :=
  match timestamp with
  | Some t => negb (Z.eqb t 0)
  | None => false
  end.

Definition record_timestamp (st : gmap pystr Z) (hash_id : pystr) (timestamp : option Z)
  : gmap pystr Z :=
  match timestamp with
  | Some t => if timestamp_given timestamp then update st hash_id t else st
  | None => st
  end.

Definition mark_processed (w : World) (hash_id : pystr) (timestamp : option Z) : World :=
  {| brain := brain w; notes := notes w; state := record_timestamp (state w) hash_id timestamp |}.

Definition lookup_session (w : World) (hash_id : pystr) : option Session :=
  List.find (fun s => str_eqb (s_name s) hash_id) (brain w).

(** The header fields of the note of a session, and its text. *)
Definition note_title (H : Host) (files : list FileEntry) (hash_id : pystr) : pystr :=
  fst (extract_title (full_raw_content H files) hash_id).

Definition note_body (H : Host) (files : list FileEntry) (hash_id : pystr) : pystr :=
  snd (extract_title (full_raw_content H files) hash_id).

Definition note_overview (H : Host) (files : list FileEntry) (hash_id : pystr) : pystr :=
  final_overview (note_title H files hash_id) (overview_text files).

Definition note_abstract (H : Host) (files : list FileEntry) (hash_id : pystr) : pystr :=
  final_abstract (note_overview H files hash_id) (abstract_text files).

Definition final_note (H : Host) (ignore_strings : list pystr) (files : list FileEntry)
    (hash_id : pystr) : pystr :=
  NOTE_TEMPLATE (note_title H files hash_id) (c_date_str H files) (date_at_end H)
                (note_overview H files hash_id) (note_abstract H files hash_id)
                (processed_content H ignore_strings hash_id (note_body H files hash_id)).

(** [convert_hash_folder]; the result is the returned flag and the world
    the call leaves.  [_git_commit] catches its own errors and touches
    neither the text of the notes nor the sync state.  A write that fails
    is taken to leave the notes directory as it was. *)
Definition convert_hash_folder (H : Host) (ignore_strings : list pystr) (w : World)
    (hash_id : pystr) (timestamp : option Z) : bool * World :=
  match lookup_session w hash_id with
  | None => (false, w)
  | Some s =>
      let files := s_files s in
      let title := note_title H files hash_id in
      if is_default_title title then (false, mark_processed w hash_id timestamp)
      else if length (strip (note_body H files hash_id)) <? 50
      then (false, mark_processed w hash_id timestamp)
      else
        let filename := note_filename title in
        if can_write H filename then
          (true,
           {| brain := brain w;
              notes := <[filename := final_note H ignore_strings files hash_id]> (notes w);
              state := record_timestamp (state w) hash_id timestamp |})
        else (false, w)
  end.

(** * Full Scan Driver *)

Definition max_file_mtime (s : Session) : Z :=
  fold_left (fun m f => if (m <? f_mtime f)%Z then f_mtime f else m) (s_files s) (s_mtime s).

(** The body of the loop of [scan_existing] for one folder. *)
Definition scan_folder (H : Host) (ignore_strings : list pystr) (w : World) (s : Session) : World :=
  if should_process (state w) (s_name s) (max_file_mtime s)
  then snd (convert_hash_folder H ignore_strings w (s_name s) (Some (max_file_mtime s)))
  else w.

Definition scan_existing (H : Host) (ignore_strings : list pystr) (w : World) : World :=
  fold_left (scan_folder H ignore_strings) (brain w) w.

(** * Change Tracker *)

(** A file-system event as the handler reads it: [event.is_directory] and
    the parts of [Path(event.src_path).relative_to(SOURCE_ROOT)], [None]
    when the path is not under the root ([ValueError]). *)
Record Event := {
  is_directory : bool;
  relative_parts : option (list pystr)
}.

(** The fields of [BrainHandler] that follow the events.  The two threads
    touch them under [self.lock] only, so each of the two operations
    below is one step.  Clock readings are integers of the clock's unit;
    the delay is the field [processing_delay], in the same unit. *)
Record Tracker := {
  pending_hashes : gset pystr;
  last_change_time : gmap pystr Z;
  processing_delay : Z
}.

(** [_register_event], with the reading of [time.time()]. *)
Definition _register_event (tr : Tracker) (event : Event) (now : Z) : Tracker :=
  if is_directory event then tr
  else
    match relative_parts event with
    | Some (hash_id :: _ :: _) =>
        {| pending_hashes := {[hash_id]} ∪ pending_hashes tr;
           last_change_time := <[hash_id := now]> (last_change_time tr);
           processing_delay := processing_delay tr |}
    | _ => tr
    end.

Definition on_created (tr : Tracker) (event : Event) (now : Z) : Tracker :=
  _register_event tr event now.

Definition on_modified (tr : Tracker) (event : Event) (now : Z) : Tracker :=
  _register_event tr event now.

(** [now - self.last_change_time.get(hash_id, 0) > self.processing_delay] *)
Definition settled (tr : Tracker) (now : Z) (hash_id : pystr) : bool :=
  Z.ltb (processing_delay tr) (now - default 0%Z (last_change_time tr !! hash_id)).

(** The list [to_process] of one round of [process_pending]; the order is
    the one in which the set is iterated. *)
Definition to_process (tr : Tracker) (now : Z) : list pystr :=
  List.filter (settled tr now) (elements (pending_hashes tr)).

(** The second loop under the lock: [remove] and [pop] for each hash. *)
Definition forget (tr : Tracker) (hashes : list pystr) : Tracker :=
  fold_left
    (fun tr hash_id =>
       {| pending_hashes := pending_hashes tr ∖ {[hash_id]};
          last_change_time := delete hash_id (last_change_time tr);
          processing_delay := processing_delay tr |})
    hashes tr.

(** The loop after the lock: [convert_hash_folder(hash_id, timestamp=now)]. *)
Definition convert_all (H : Host) (ignore_strings : list pystr) (w : World)
    (hashes : list pystr) (now : Z) : World :=
  fold_left
    (fun w hash_id => snd (convert_hash_folder H ignore_strings w hash_id (Some now)))
    hashes w.

(** One round of the loop of [process_pending], after the sleep. *)
Definition process_pending_round (H : Host) (ignore_strings : list pystr)
    (tr : Tracker) (w : World) (now : Z) : Tracker * World :=
  let hashes := to_process tr now in
  (forget tr hashes, convert_all H ignore_strings w hashes now).

(** * Definitions of the specification side *)

(** ** Text Extractor, in the words of the specification *)

(** The text begins with the rest of a blank line: white space, then a
    line feed.  A line feed is white space, so the white space may run
    over several blank lines. *)
Definition begins_blank (t : pystr) : Prop :=
  exists ws b, t = ws ++ nl :: b /\ forallb is_space ws = true.

(** A separator of paragraphs: the line feed that ends a line, then one
    or more blank lines, each with its line feed. *)
Definition separator (sep : pystr) : Prop :=
  exists ws, sep = nl :: ws ++ [nl] /\ forallb is_space ws = true.

(** The text holds a separator. *)
Definition has_separator (t : pystr) : Prop :=
  exists a sep b, t = a ++ sep ++ b /\ separator sep.

(** [blank_line_paragraphs content paragraphs]: the content is its
    paragraphs in document order with a separator between each two.  A
    paragraph is the text up to the first separator, so no separator
    begins inside it; a separator takes all the blank lines there are, so
    what follows it does not begin with one more. *)
Inductive blank_line_paragraphs : pystr -> list pystr -> Prop :=
  | paragraphs_last p :
      ~ has_separator p ->
      blank_line_paragraphs p [p]
  | paragraphs_next p sep rest paragraphs :
      ~ has_separator (p ++ [nl]) ->
      separator sep ->
      ~ begins_blank rest ->
      blank_line_paragraphs rest paragraphs ->
      blank_line_paragraphs (p ++ sep ++ rest) (p :: paragraphs).

(** A paragraph qualifies when its cleaned form is valid and, when an
    exclude text is given, its flattened form differs from it. *)
Definition qualifies (exclude_text : option pystr) (p : pystr) : bool :=
  _is_valid_sentence (_clean_text p) &&
  match exclude_text with
  | Some e => negb (str_eqb (flatten_text (_clean_text p)) e)
  | None => true
  end.

(** The first paragraph of a list that qualifies, flattened, or the
    sentinel. *)
Definition first_qualifying_paragraph (paragraphs : list pystr) (exclude_text : option pystr)
  : pystr :=
  match List.find (qualifies exclude_text) paragraphs with
  | Some p => flatten_text (_clean_text p)
  | None => sentinel
  end.

(** ** The loops of [_smart_extract] as one search *)

(** The paragraphs that the two loops of the source go through: the
    result of [re.split] for each content, in list order. *)
Definition paragraphs_in_order (content_list : list pystr) : list pystr :=
  flat_map split_paragraphs content_list.

Definition first_qualifying (content_list : list pystr) (exclude_text : option pystr) : pystr :=
  match List.find (qualifies exclude_text) (paragraphs_in_order content_list) with
  | Some p => flatten_text (_clean_text p)
  | None => sentinel
  end.

(** ** Letters, in the words of the specification *)

(** A letter in the sense of the specification: ASCII or CJK. *)
Definition is_letter (c : N) : bool := is_ascii_letter c || is_cjk c.

(** ** Session Converter, in the words of the specification *)

Definition ascii_lower (c : N) : N := if is_ascii_upper c then (c + 32)%N else c.

(** A title that begins with "Note" in any letter case, then one space or
    hyphen, then a hexadecimal digit. *)
Definition begins_like_default (title : pystr) : Prop :=
  exists word s x rest,
    title = word ++ s :: x :: rest /\
    List.map ascii_lower word = py "note" /\
    (s = sp \/ s = ch "-") /\
    is_hex x = true.

(** The artifact group of a base name: the regular files of the session
    with that base name, in directory order. *)
Definition in_group (b : pystr) (f : FileEntry) : bool :=
  f_is_file f && bool_decide (base_name (f_name f) = Some b).

Definition group_members (b : pystr) (files : list FileEntry) : list FileEntry :=
  List.filter (in_group b) files.

(** ** Deleting the occurrences of a text, in the words of [str.replace] *)

(** [old] occurs in [t]. *)
Definition occurs (old t : pystr) : Prop := exists a b, t = a ++ old ++ b.

(** [removed_all old t r]: [r] is [t] without the occurrences of [old]
    that a scan from the left finds, each occurrence being the leftmost
    one in what the previous occurrence left of the text.  In
    [a ++ old ++ b] the shown occurrence is the leftmost one when [old]
    does not occur in [a] followed by all but the last code point of
    [old]. *)
Inductive removed_all (old : pystr) : pystr -> pystr -> Prop :=
  | removed_none t :
      ~ occurs old t -> removed_all old t t
  | removed_next a b r :
      ~ occurs old (a ++ removelast old) ->
      removed_all old b r ->
      removed_all old (a ++ old ++ b) (a ++ r).


(** The position after [pre] is the beginning of a line. *)
Definition line_start_after (bol : bool) (pre : pystr) : bool :=
  match last pre with
  | Some c => is_nl c
  | None => bol
  end.


(** [redacted ignore_strings t r]: [r] comes from [t] by one deletion pass
    for each ignore string, in list order; an empty ignore string deletes
    nothing. *)
Inductive redacted : list pystr -> pystr -> pystr -> Prop :=
  | redacted_done t :
      redacted [] t t
  | redacted_empty ignore_strings t r :
      redacted ignore_strings t r -> redacted ([] :: ignore_strings) t r
  | redacted_pass ignore_str ignore_strings t t' r :
      ignore_str <> [] ->
      removed_all ignore_str t t' ->
      redacted ignore_strings t' r ->
      redacted (ignore_str :: ignore_strings) t r.

(** ** The first heading, in the words of the pattern *)




(** ** Auxiliary notions *)

(** A list that is not empty, or nothing. *)
Definition nonempty {A} (l : list A) : option (list A) :=
  match l with
  | [] => None
  | _ :: _ => Some l
  end.

(** Every group has a member. *)
Definition groups_inhabited (d : list (pystr * list FileEntry)) : Prop :=
  Forall (fun kv => snd kv <> []) d.

(** What flattening does to a code point. *)
Definition nl_to_sp (c : N) : N := if is_nl c then sp else c.

(** * Invariants and auxiliary predicates *)

(** No two hyphens side by side. *)
Fixpoint hyphens_apart (s : pystr) : bool :=
  match s with
  | [] => true
  | a :: s' =>
      match s' with
      | b :: _ => negb (is_ch "-" a && is_ch "-" b)
      | [] => true
      end && hyphens_apart s'
  end.

(** One of two texts is the beginning of the other. *)
Definition compatible (u v : pystr) : bool := starts_with u v || starts_with v u.

(** No occurrence of [old] can begin inside [new], and none can begin
    before [new] and end inside or after it. *)
Definition no_overlap (old new : pystr) : bool :=
  forallb (fun q => negb (compatible (drop q new) old)) (seq 0 (length new)) &&
  forallb (fun l => negb (compatible (drop l old) new)) (seq 1 (length old - 1)).

(** [grows w w']: the brain is the same, every note file of [w] is still
    there in [w'], and every stored time of [w] is still stored in [w'],
    with a time that is not earlier. *)
Definition grows (w w' : World) : Prop :=
  brain w' = brain w /\
  (forall k, is_Some (notes w !! k) -> is_Some (notes w' !! k)) /\
  (forall h v, state w !! h = Some v -> exists v', state w' !! h = Some v' /\ (v <= v')%Z).

(** The pending sessions are the sessions with a time of last change. *)
Definition tracker_ok (tr : Tracker) : Prop :=
  forall h, h ∈ pending_hashes tr <-> is_Some (last_change_time tr !! h).

Definition str_le (a b : pystr) : Prop := str_leb a b = true.

(** No two members of one artifact group have the same size. *)
Definition sizes_differ (files : list FileEntry) : Prop :=
  forall b f f',
    In f (group_members b files) -> In f' (group_members b files) ->
    f_size f = f_size f' -> f = f'.

(** An entry the conversion reads: a regular file whose name has a base
    name. *)
Definition is_artifact (f : FileEntry) : bool :=
  f_is_file f && bool_decide (is_Some (base_name (f_name f))).

(** [clear_before p ctx]: the separator pattern matches at no position
    inside [p] when [ctx] follows it. *)
Definition clear_before (p ctx : pystr) : Prop :=
  forall a b, p = a ++ b -> b <> [] -> blank_line true (b ++ ctx) = None.

(** Every occurrence of [d] in [t] is followed by a text that passes
    [p]. *)
Fixpoint each_after (d : pystr) (p : pystr -> bool) (t : pystr) : bool :=
  (if starts_with d t then p (drop (length d) t) else true) &&
  match t with
  | [] => true
  | _ :: t' => each_after d p t'
  end.

(** * Example data *)

(** A text written on one line, with a vertical bar for each line feed. *)
Definition md (s : string) : pystr :=
  List.map (fun c => if is_ch "|" c then nl else c) (py s).

(** A host for the examples: title casing and base names on ASCII, no
    image to copy, a writable notes directory. *)
Fixpoint ascii_title_from (in_word : bool) (s : pystr) : pystr :=
  match s with
  | [] => []
  | c :: s' =>
      (if is_ascii_lower c && negb in_word then (c - 32)%N
       else if is_ascii_upper c && in_word then (c + 32)%N
       else c) :: ascii_title_from (is_ascii_letter c) s'
  end.

Fixpoint after_last_slash (acc s : pystr) : pystr :=
  match s with
  | [] => acc
  | c :: s' => if is_ch "/" c then after_last_slash s' s' else after_last_slash acc s'
  end.

Definition ex_host : Host :=
  {| str_title := ascii_title_from false;
     path_name := fun src => after_last_slash src src;
     copy_image := fun _ _ => false;
     can_write := fun _ => true;
     format_date := fun _ => py "2024-05-01";
     date_at_start := py "2024-05-02";
     date_at_end := py "2024-05-02" |}.

Definition ex_file (name : string) (size : N) (text : pystr) : FileEntry :=
  {| f_name := py name; f_is_file := true; f_size := size; f_text := text;
     f_ctime := 1714521600; f_mtime := 1714521600 |}.

Definition ex_hash : pystr := py "3f9c2d7e-41aa-4b0e-9c55-0d2f6a7b8c90".

Definition ex_world (files : list FileEntry) (st : gmap pystr Z) : World :=
  {| brain := [ {| s_name := ex_hash; s_mtime := 1714521000; s_files := files |} ];
     notes := ∅;
     state := st |}.

(** A text of digits and spaces only. *)
Definition ex_digits : pystr := py "12345 67890 12345".

(** A session with a walkthrough and an implementation plan. *)
Definition ex_walkthrough : pystr :=
  md "# Cache Layer Redesign||The walkthrough explains how the cache layer was rebuilt.||Step one replaced the eviction policy with a clock sweep.".

Definition ex_plan : pystr :=
  md "The plan lists the modules touched by the redesign.||Each module is migrated behind a feature flag.".

Definition ex_files : list FileEntry :=
  [ex_file "walkthrough.md" 170 ex_walkthrough; ex_file "implementation_plan.md" 98 ex_plan].

(** A session whose only heading is a genuine title that starts like the
    default one. *)
Definition ex_note_based : list FileEntry :=
  [ex_file "walkthrough.md" 120
     (md "# Note-Based Workflow||This walkthrough describes the note based workflow of the team.||Every change starts from a written note.")].

(** A session whose heading has only characters illegal in file names. *)
Definition ex_illegal_title : list FileEntry :=
  [ex_file "walkthrough.md" 120
     (md "# ?:*||This walkthrough records the questions left open after the review.||They are answered in the next session.")].

(** A session whose assembled content is too short, and a host whose
    notes directory cannot be written. *)
Definition ex_short : list FileEntry :=
  [ex_file "walkthrough.md" 30 (md "# Cache Layer Redesign||Too short.")].

Definition ex_host_readonly : Host :=
  {| str_title := str_title ex_host;
     path_name := path_name ex_host;
     copy_image := copy_image ex_host;
     can_write := fun _ => false;
     format_date := format_date ex_host;
     date_at_start := date_at_start ex_host;
     date_at_end := date_at_end ex_host |}.

(** Two revisions of one artifact. *)
Definition ex_a_md : FileEntry := ex_file "a.md" 500 (md "first revision").
Definition ex_a_md_resolved : FileEntry := ex_file "a.md.resolved" 900 (md "resolved revision").


(** A session with an implementation plan only: its one valid paragraph
    becomes the overview. *)
Definition ex_plan_only : list FileEntry :=
  [ex_file "implementation_plan.md" 70
     (md "# Cache Plan||The plan migrates every module behind a feature flag.")].

(** A session whose heading contains a word of the ignore list. *)
Definition ex_secret : list FileEntry :=
  [ex_file "walkthrough.md" 130
     (md "# Secret Rotation Plan||The stored tokens are rotated every week by the platform team.||Each rotation is announced one day ahead.")].

(** A walkthrough of two paragraphs with a blank line of one space
    between them. *)
Definition ex_two_paragraphs : pystr :=
  md "The walkthrough explains how the cache layer was rebuilt.| |Step one replaced the eviction policy with a clock sweep.".

(** A session whose walkthrough has a marker alone on its line, a blank
    line, a paragraph, and then a heading line. *)
Definition ex_lone_marker : list FileEntry :=
  [ex_file "walkthrough.md" 140
     (md "#||This walkthrough collects the release notes of the sprint.||# Real Title|The heading line above stays in the content.")].

(** A session without a heading line: an implementation plan only. *)
Definition ex_no_heading : list FileEntry :=
  [ex_file "implementation_plan.md" 98 ex_plan].

(** The files of a session in two directory orders. *)
Definition ex_listing : list FileEntry := ex_files ++ [ex_a_md; ex_a_md_resolved].
Definition ex_listing_reversed : list FileEntry := rev ex_listing.

(** A paragraph without markup. *)
Definition ex_plain : pystr := md "  The cache is rebuilt|on every deployment. ".

(** A session directory with a sub-directory, a log file and an image
    beside the two artifacts. *)
Definition ex_cluttered : list FileEntry :=
  [ {| f_name := py "assets.md"; f_is_file := false; f_size := 4096; f_text := [];
       f_ctime := 1714521700; f_mtime := 1714521700 |};
    ex_file "walkthrough.md" 170 ex_walkthrough;
    ex_file "debug.log" 5000 (md "# Debug Output||A long log that is not an artifact of the session.");
    ex_file "implementation_plan.md" 98 ex_plan;
    ex_file ".md" 60 (md "# Hidden||A file whose name is the extension alone has no base name.") ].

(** A host that finds and copies every local image. *)
Definition ex_host_images : Host :=
  {| str_title := str_title ex_host;
     path_name := path_name ex_host;
     copy_image := fun _ _ => true;
     can_write := can_write ex_host;
     format_date := format_date ex_host;
     date_at_start := date_at_start ex_host;
     date_at_end := date_at_end ex_host |}.

(** A text with one image, a local one. *)
Definition ex_one_image : pystr :=
  md "The flow of a request:|![flow](images/flow.png)|as drawn by the team.".

(** A text whose only image is a web image, beside a link. *)
Definition ex_web_image : pystr :=
  md "Logo: ![logo](https://example.org/logo.png)|See [the site](https://example.org) for more.".

(** Goes through the paragraphs of a concrete list: each one is not valid
    or flattens to the expected text. *)
Ltac each_paragraph Hp :=
  vm_compute in Hp;
  repeat (destruct Hp as [<-|Hp];
          [let Hv := fresh "Hv" in
           intros Hv; vm_compute in Hv; try discriminate Hv; vm_compute; reflexivity|]);
  destruct Hp.

(** * Properties *)

(** ** Texts and the search driver *)

Lemma take_drop_while (p : N -> bool) (s : pystr) :
  s = take_while p s ++ drop_while p s.
Proof.
  induction s as [|c s IH]; [reflexivity|]. cbn [take_while drop_while].
  destruct (p c); [cbn [app]; now f_equal|reflexivity].
Qed.

Lemma take_while_all (p : N -> bool) (s : pystr) : forallb p (take_while p s) = true.
Proof.
  induction s as [|c s IH]; [reflexivity|]. cbn [take_while].
  destruct (p c) eqn:Hc; [cbn [forallb]; now rewrite Hc|reflexivity].
Qed.

Lemma drop_while_head (p : N -> bool) (s : pystr) (c : N) (r : pystr) :
  drop_while p s = c :: r -> p c = false.
Proof.
  induction s as [|x s IH]; [discriminate|]. cbn [drop_while].
  destruct (p x) eqn:Hx; [exact IH|]. now intros [= <- _].
Qed.

Lemma line_start_after_cons (bol : bool) (c : N) (pre : pystr) :
  line_start_after bol (c :: pre) = line_start_after (is_nl c) pre.
Proof.
  unfold line_start_after. destruct pre as [|x pre]; [reflexivity|].
  rewrite last_cons_cons. destruct (last (x :: pre)) eqn:Hl; [reflexivity|].
  apply last_None in Hl. discriminate.
Qed.

(** [re.search] returns the match at the leftmost position that has one. *)
Lemma re_search_from_spec {A} (m : matcher A) (bol : bool) (t : pystr) (a : A) (g0 : pystr) :
  re_search_from m bol t = Some (a, g0) ->
  exists pre post n,
    t = pre ++ post /\
    m (line_start_after bol pre) post = Some (a, n) /\
    g0 = take n post /\
    (forall p1 p2, pre = p1 ++ p2 -> p2 <> [] ->
                   m (line_start_after bol p1) (p2 ++ post) = None).
Proof.
  revert bol. induction t as [|c t IH]; intros bol; cbn [re_search_from].
  - destruct (m bol []) as [[a' n]|] eqn:Hm; [|discriminate].
    intros [= <- <-]. exists [], [], n. repeat split; [exact Hm|].
    intros p1 p2 Hp Hp2. destruct p1; destruct p2; try discriminate. contradiction.
  - destruct (m bol (c :: t)) as [[a' n]|] eqn:Hm.
    + intros [= <- <-]. exists [], (c :: t), n. repeat split; [exact Hm|].
      intros p1 p2 Hp Hp2. destruct p1; destruct p2; try discriminate. contradiction.
    + intros Hs. destruct (IH _ Hs) as (pre & post & n & -> & Hmatch & Hg0 & Hleft).
      exists (c :: pre), post, n. rewrite line_start_after_cons.
      repeat split; [exact Hmatch|exact Hg0|].
      intros p1 p2 Hp Hp2. destruct p1 as [|x p1].
      * cbn [app] in Hp. subst p2. exact Hm.
      * injection Hp as <- ->. rewrite line_start_after_cons. now apply Hleft.
Qed.

(** ** State Store *)

Lemma should_process_lt state hash_id mtime :
  should_process state hash_id mtime = true <-> (default 0 (state !! hash_id) < mtime)%Z.
Proof. unfold should_process. apply Z.ltb_lt. Qed.

Lemma should_process_recorded state hash_id mtime :
  state !! hash_id = Some mtime -> should_process state hash_id mtime = false.
Proof.
  intros Hst. unfold should_process. rewrite Hst. simpl. apply Z.ltb_irrefl.
Qed.

(** C1. [should_process] is true exactly when the modification time is
    strictly greater than the stored value, 0 when none is stored; after
    [update] has recorded a time, [should_process] is false for that
    time, and a scan that finds the session with the recorded maximum
    modification time leaves the world as it is: the session is not
    converted again. *)
Theorem should_process_contract :
  (forall state hash_id mtime,
      should_process state hash_id mtime = true <->
      (default 0 (state !! hash_id) < mtime)%Z) /\
  (forall state hash_id mtime,
      should_process (update state hash_id mtime) hash_id mtime = false) /\
  (forall H ignore_strings w s,
      state w !! s_name s = Some (max_file_mtime s) ->
      should_process (state w) (s_name s) (max_file_mtime s) = false /\
      scan_folder H ignore_strings w s = w).
Proof.
  split; [exact should_process_lt|]. split.
  - intros state hash_id mtime. apply should_process_recorded.
    unfold update. apply lookup_insert_eq.
  - intros H ignore_strings w s Hrec.
    pose proof (should_process_recorded _ _ _ Hrec) as Hno.
    split; [exact Hno|]. unfold scan_folder. now rewrite Hno.
Qed.

(** The scan of a session whose maximum modification time is the recorded
    one changes nothing. *)
Lemma should_process_contract_witness :
  scan_folder ex_host [] (ex_world ex_files {[ ex_hash := 1714521600%Z ]})
              {| s_name := ex_hash; s_mtime := 1714521000; s_files := ex_files |}
  = ex_world ex_files {[ ex_hash := 1714521600%Z ]}.
Proof.
  apply (proj2 (proj2 should_process_contract) ex_host []
           (ex_world ex_files {[ ex_hash := 1714521600%Z ]})
           {| s_name := ex_hash; s_mtime := 1714521000; s_files := ex_files |}).
  vm_compute. reflexivity.
Defined.

(** ** Text Extractor: validity *)

Lemma existsb_false_forall (p : N -> bool) (l : pystr) :
  existsb p l = false <-> (forall c, In c l -> p c = false).
Proof.
  induction l as [|x l IH]; simpl.
  - split; [intros _ c []|reflexivity].
  - rewrite orb_false_iff, IH. split.
    + intros [Hx Hl] c [<-|Hc]; auto.
    + intros Hall. split; [apply Hall; now left|]. intros c Hc. apply Hall. now right.
Qed.

Lemma in_letter_class_false (c : N) :
  in_letter_class c = false <-> is_letter c = false /\ c <> sp.
Proof.
  unfold in_letter_class, is_letter, is_ascii_letter.
  destruct (is_cjk c), (is_ascii_lower c), (is_ascii_upper c), (N.eqb_spec c sp);
    simpl; split; try intros [? ?]; try intros ?; try split; congruence.
Qed.

(** C7, as the source has it. [_is_valid_sentence] returns false exactly
    when the stripped text is shorter than 15 characters, starts with a
    code fence, a heading marker or an image marker, has more than 3
    semicolons or more than 2 open braces, or has neither a letter (ASCII
    or CJK U+4E00 to U+9FFF) nor a space; otherwise it returns true. *)
Theorem is_valid_sentence_rejects (text : pystr) :
  _is_valid_sentence text = false <->
  (length (strip text) < 15 \/
   starts_with (py "```") (strip text) = true \/
   starts_with (py "#") (strip text) = true \/
   starts_with (py "![") (strip text) = true \/
   3 < count_char ";" (strip text) \/
   2 < count_char "{" (strip text) \/
   (forall c, In c (strip text) -> is_letter c = false /\ c <> sp)).
Proof.
  unfold _is_valid_sentence. cbv zeta.
  set (t := strip text).
  destruct (Nat.ltb_spec (length t) 15) as [Hlen|Hlen].
  { split; [intros _; now left|reflexivity]. }
  destruct (starts_with (py "```") t) eqn:Hfence.
  { split; [intros _; right; now left|reflexivity]. }
  destruct (starts_with (py "#") t) eqn:Hhead.
  { split; [intros _; right; right; now left|reflexivity]. }
  destruct (starts_with (py "![") t) eqn:Himg.
  { split; [intros _; right; right; right; now left|reflexivity]. }
  destruct (Nat.ltb_spec 3 (count_char ";" t)) as [Hsemi|Hsemi].
  { split; [intros _; do 4 right; now left|reflexivity]. }
  destruct (Nat.ltb_spec 2 (count_char "{" t)) as [Hbrace|Hbrace].
  { split; [intros _; do 5 right; now left|reflexivity]. }
  simpl. destruct (existsb in_letter_class t) eqn:Hex; simpl.
  - split; [discriminate|].
    intros [?|[?|[?|[?|[?|[?|Hnone]]]]]]; try lia; try discriminate.
    apply existsb_exists in Hex. destruct Hex as [c [Hc Hcls]].
    apply Hnone, in_letter_class_false in Hc. congruence.
  - split; [|reflexivity]. intros _. do 6 right.
    intros c Hc. apply in_letter_class_false.
    now apply (proj1 (existsb_false_forall _ _) Hex).
Qed.

(** C7, as the specification states it, fails: a text of digits and
    spaces has no letter at all, and is valid. *)
Lemma is_valid_sentence_digits_and_spaces :
  15 <= length (strip ex_digits) /\
  (forall c, In c (strip ex_digits) -> is_letter c = false) /\
  _is_valid_sentence ex_digits = true.
Proof.
  split; [vm_compute; lia|]. split; [|reflexivity].
  intros c Hc. vm_compute in Hc.
  repeat (destruct Hc as [<-|Hc]; [reflexivity|]). destruct Hc.
Qed.

(** ** Text Extractor: selection *)

Lemma replace_nl_sp (s : pystr) : str_replace [nl] [sp] s = List.map nl_to_sp s.
Proof.
  unfold str_replace. induction s as [|c s IH]; [reflexivity|].
  cbn [replace_from starts_with length Nat.sub List.map].
  rewrite andb_true_r. unfold nl_to_sp, is_nl. rewrite (N.eqb_sym c nl).
  destruct (N.eqb nl c); cbn [app]; now rewrite IH.
Qed.

Lemma is_space_nl_to_sp (c : N) : is_space (nl_to_sp c) = is_space c.
Proof.
  unfold nl_to_sp, is_nl. destruct (N.eqb_spec c nl) as [->|]; reflexivity.
Qed.

Lemma drop_while_map (f : N -> N) (p : N -> bool) (s : pystr) :
  (forall c, p (f c) = p c) ->
  drop_while p (List.map f s) = List.map f (drop_while p s).
Proof.
  intros Hf. induction s as [|c s IH]; [reflexivity|].
  simpl. rewrite Hf. destruct (p c); [exact IH|reflexivity].
Qed.

Lemma strip_map (f : N -> N) (s : pystr) :
  (forall c, is_space (f c) = is_space c) ->
  strip (List.map f s) = List.map f (strip s).
Proof.
  intros Hf. unfold strip, rstrip, lstrip.
  rewrite (drop_while_map f is_space s Hf), <- List.map_rev.
  rewrite (drop_while_map f is_space _ Hf). now rewrite List.map_rev.
Qed.

(** Flattening replaces every line feed of the stripped text by a space. *)
Lemma flatten_text_map (cleaned : pystr) :
  flatten_text cleaned = List.map nl_to_sp (strip cleaned).
Proof.
  unfold flatten_text. rewrite replace_nl_sp. apply strip_map, is_space_nl_to_sp.
Qed.

Lemma valid_length (text : pystr) :
  _is_valid_sentence text = true -> 15 <= length (strip text).
Proof.
  unfold _is_valid_sentence. cbv zeta.
  destruct (Nat.ltb_spec (length (strip text)) 15); [discriminate|]. intros _. assumption.
Qed.

Lemma flatten_valid_nonempty (cleaned : pystr) :
  _is_valid_sentence cleaned = true -> flatten_text cleaned <> [].
Proof.
  intros Hv Hnil. apply valid_length in Hv.
  rewrite flatten_text_map in Hnil.
  apply (f_equal (@length N)) in Hnil. rewrite List.length_map in Hnil.
  simpl in Hnil. lia.
Qed.

Lemma is_excluded_spec (exclude_text : option pystr) (cleaned : pystr) :
  _is_valid_sentence cleaned = true ->
  is_excluded exclude_text (flatten_text cleaned) =
  match exclude_text with
  | Some e => str_eqb (flatten_text cleaned) e
  | None => false
  end.
Proof.
  intros Hv. destruct exclude_text as [[|x e]|]; try reflexivity.
  simpl. symmetry. unfold str_eqb. apply bool_decide_eq_false.
  now apply flatten_valid_nonempty.
Qed.

Lemma find_app_first {A} (p : A -> bool) (l1 l2 : list A) :
  List.find p (l1 ++ l2) =
  match List.find p l1 with
  | Some x => Some x
  | None => List.find p l2
  end.
Proof.
  induction l1 as [|x l1 IH]; [reflexivity|]. simpl. destruct (p x); [reflexivity|exact IH].
Qed.

Lemma extract_from_paragraphs_find (exclude_text : option pystr) (paragraphs : list pystr) :
  extract_from_paragraphs exclude_text paragraphs =
  option_map (fun p => flatten_text (_clean_text p))
             (List.find (qualifies exclude_text) paragraphs).
Proof.
  induction paragraphs as [|p ps IH]; [reflexivity|].
  simpl. unfold qualifies at 1.
  destruct (_is_valid_sentence (_clean_text p)) eqn:Hv; simpl; [|exact IH].
  rewrite (is_excluded_spec _ _ Hv).
  destruct exclude_text as [e|]; [|reflexivity].
  destruct (str_eqb (flatten_text (_clean_text p)) e); simpl; [exact IH|reflexivity].
Qed.

Lemma qualifies_empty (exclude_text : option pystr) : qualifies exclude_text [] = false.
Proof. reflexivity. Qed.

Lemma extract_from_contents_find (exclude_text : option pystr) (content_list : list pystr) :
  extract_from_contents exclude_text content_list =
  option_map (fun p => flatten_text (_clean_text p))
             (List.find (qualifies exclude_text) (paragraphs_in_order content_list)).
Proof.
  unfold paragraphs_in_order.
  induction content_list as [|content cl IH]; [reflexivity|].
  cbn [flat_map extract_from_contents]. rewrite find_app_first.
  destruct content as [|c content].
  - change (split_paragraphs []) with [@nil N]. cbn [List.find].
    rewrite qualifies_empty. exact IH.
  - rewrite extract_from_paragraphs_find.
    destruct (List.find (qualifies exclude_text) (split_paragraphs (c :: content)));
      [reflexivity|exact IH].
Qed.

(** ** Text Extractor: the paragraphs of a content *)

Lemma last_nl_end_none (w : pystr) :
  last_nl_end w = None <-> (forall c, In c w -> is_nl c = false).
Proof.
  induction w as [|x w IH]; cbn [last_nl_end].
  - split; [intros _ c []|reflexivity].
  - destruct (last_nl_end w) as [n|].
    + split; [discriminate|]. intros Hall.
      destruct IH as [_ IH]. discriminate IH. intros c Hc. apply Hall. now right.
    + destruct IH as [IH _]. specialize (IH eq_refl).
      destruct (is_nl x) eqn:Hx.
      * split; [discriminate|]. intros Hall. rewrite (Hall x) in Hx by now left. discriminate.
      * split; [|reflexivity]. intros _ c [<-|Hc]; [exact Hx|now apply IH].
Qed.

Lemma last_nl_end_at (u v : pystr) :
  (forall c, In c v -> is_nl c = false) ->
  last_nl_end (u ++ nl :: v) = Some (S (length u)).
Proof.
  intros Hv. induction u as [|x u IH].
  - cbn [app last_nl_end length]. now rewrite (proj2 (last_nl_end_none v) Hv).
  - cbn [app last_nl_end length]. now rewrite IH.
Qed.

Lemma last_nl_end_some (w : pystr) (n : nat) :
  last_nl_end w = Some n ->
  exists u v, w = u ++ nl :: v /\ n = S (length u) /\ (forall c, In c v -> is_nl c = false).
Proof.
  revert n. induction w as [|x w IH]; intros n; [discriminate|].
  cbn [last_nl_end]. destruct (last_nl_end w) as [k|] eqn:Hw.
  - intros [= <-]. destruct (IH k eq_refl) as (u & v & -> & -> & Hv).
    now exists (x :: u), v.
  - destruct (is_nl x) eqn:Hx; [|discriminate]. intros [= <-].
    apply N.eqb_eq in Hx. subst x. exists [], w. repeat split.
    now apply last_nl_end_none.
Qed.

Lemma take_while_prefix (p : N -> bool) (ws r : pystr) :
  forallb p ws = true -> take_while p (ws ++ r) = ws ++ take_while p r.
Proof.
  induction ws as [|c ws IH]; [reflexivity|]. cbn [forallb app take_while].
  intros Hws. apply andb_prop in Hws as [-> Hws]. now rewrite IH.
Qed.

Lemma take_while_stops (p : N -> bool) (s : pystr) : take_while p (drop_while p s) = [].
Proof.
  induction s as [|c s IH]; [reflexivity|]. cbn [drop_while].
  destruct (p c) eqn:Hc; [exact IH|]. cbn [take_while]. now rewrite Hc.
Qed.

(** A text begins blank exactly when the white space at its beginning
    holds a line feed. *)
Lemma begins_blank_run (t : pystr) :
  begins_blank t <-> last_nl_end (take_while is_space t) <> None.
Proof.
  split.
  - intros (ws & b & -> & Hws) Hnone.
    rewrite (take_while_prefix _ _ _ Hws) in Hnone.
    assert (Hnl : is_nl nl = false).
    { apply (proj1 (last_nl_end_none _) Hnone). apply in_or_app. right.
      cbn [take_while]. change (is_space nl) with true. now left. }
    discriminate Hnl.
  - destruct (last_nl_end (take_while is_space t)) as [n|] eqn:Hl; [|contradiction].
    intros _. destruct (last_nl_end_some _ _ Hl) as (u & v & Hw & _ & _).
    pose proof (take_drop_while is_space t) as Ht.
    pose proof (take_while_all is_space t) as Hall.
    rewrite Hw in Ht, Hall. rewrite forallb_app in Hall. apply andb_prop in Hall as [Hu _].
    exists u, (v ++ drop_while is_space t). split; [|exact Hu].
    rewrite Ht at 1. now rewrite <- app_assoc.
Qed.

Lemma begins_blank_more (b more : pystr) :
  begins_blank b -> begins_blank (b ++ more).
Proof.
  intros (ws & b2 & -> & Hws). exists ws, (b2 ++ more). split; [|exact Hws].
  now rewrite <- app_assoc.
Qed.

Lemma begins_blank_cut (b more : pystr) :
  begins_blank (b ++ nl :: more) -> begins_blank (b ++ [nl]).
Proof.
  induction b as [|c b IH]; intros (ws & b2 & Heq & Hws).
  - now exists [], [].
  - destruct ws as [|x ws].
    + cbn [app] in Heq. injection Heq as -> _. now exists [], (b ++ [nl]).
    + cbn [app] in Heq. injection Heq as <- Heq.
      cbn [forallb] in Hws. apply andb_prop in Hws as [Hc Hws].
      destruct IH as (ws' & b' & Heq' & Hws'); [now exists ws, b2|].
      exists (c :: ws'), b'. cbn [app forallb]. rewrite Heq', Hc, Hws'. now split.
Qed.

Lemma blank_line_begins (bol : bool) (c : N) (r : pystr) :
  blank_line bol (c :: r) <> None <-> c = nl /\ begins_blank r.
Proof.
  cbn [blank_line]. unfold is_nl. destruct (N.eqb_spec c nl) as [->|Hc].
  - rewrite begins_blank_run. destruct (last_nl_end (take_while is_space r)) as [n|].
    + split; [intros _; split; [reflexivity|discriminate]|intros _; discriminate].
    + split; [intros Hn; now contradiction Hn|intros [_ Hn]; now contradiction Hn].
  - split; [intros Hn; now contradiction Hn|intros [Hc' _]; contradiction].
Qed.

(** The separator pattern matches a separator that takes all the blank
    lines there are, and nothing else. *)
Lemma blank_line_at (bol : bool) (sep rest : pystr) :
  separator sep -> ~ begins_blank rest ->
  blank_line bol (sep ++ rest) = Some (tt, length sep).
Proof.
  intros (ws & -> & Hws) Hrest.
  assert (Hnone : forall c, In c (take_while is_space rest) -> is_nl c = false).
  { apply last_nl_end_none.
    destruct (last_nl_end (take_while is_space rest)) eqn:Hl; [|reflexivity].
    exfalso. apply Hrest, begins_blank_run. congruence. }
  change ((nl :: ws ++ [nl]) ++ rest) with (nl :: ((ws ++ [nl]) ++ rest)).
  cbn [blank_line]. change (is_nl nl) with true. cbv iota.
  rewrite <- app_assoc. cbn [app]. rewrite (take_while_prefix _ _ _ Hws).
  cbn [take_while]. change (is_space nl) with true. cbv iota.
  rewrite (last_nl_end_at ws _ Hnone).
  cbn [length]. rewrite length_app. cbn [length].
  now replace (length ws + 1) with (S (length ws)) by lia.
Qed.

Lemma blank_line_some (bol : bool) (t : pystr) (u : unit) (n : nat) :
  blank_line bol t = Some (u, n) ->
  exists sep rest,
    t = sep ++ rest /\ separator sep /\ n = length sep /\ ~ begins_blank rest.
Proof.
  destruct t as [|c r]; [discriminate|]. cbn [blank_line].
  destruct (is_nl c) eqn:Hc; [|discriminate]. apply N.eqb_eq in Hc. subst c.
  destruct (last_nl_end (take_while is_space r)) as [k|] eqn:Hl; [|discriminate].
  intros [= _ <-].
  destruct (last_nl_end_some _ _ Hl) as (a & v & Hw & -> & Hv).
  pose proof (take_drop_while is_space r) as Hr.
  pose proof (take_while_all is_space r) as Hall.
  pose proof (take_while_stops is_space r) as Hstop.
  rewrite Hw in Hr, Hall. rewrite forallb_app in Hall. apply andb_prop in Hall as [Ha Hnv].
  cbn [forallb] in Hnv. apply andb_prop in Hnv as [_ Hvs].
  remember (drop_while is_space r) as d eqn:Hd. clear Hd Hw Hl. subst r.
  exists (nl :: a ++ [nl]), (v ++ d). split; [|split; [|split]].
  - cbn [app]. f_equal. now rewrite <- !app_assoc.
  - now exists a.
  - cbn [length]. rewrite length_app. cbn [length]. lia.
  - intros Hb. apply begins_blank_run in Hb. apply Hb.
    rewrite (take_while_prefix _ _ _ Hvs), Hstop, app_nil_r.
    now apply last_nl_end_none.
Qed.

Lemma separator_head (sep : pystr) :
  separator sep -> exists r, sep = nl :: r /\ begins_blank r.
Proof. intros (ws & -> & Hws). exists (ws ++ [nl]). split; [reflexivity|]. now exists ws, []. Qed.

(** No separator begins inside a paragraph that the next separator
    follows: the pattern matches at no position of the paragraph. *)
Lemma no_match_inside (p post : pystr) :
  ~ has_separator (p ++ [nl]) ->
  (exists r, post = nl :: r) ->
  forall a b, p = a ++ b -> b <> [] -> blank_line true (b ++ post) = None.
Proof.
  intros Hno [r ->] a b -> Hb.
  destruct b as [|c b]; [contradiction|]. cbn [app].
  destruct (blank_line true (c :: b ++ nl :: r)) as [x|] eqn:Hm; [|reflexivity].
  exfalso. apply Hno.
  assert (Hm' : blank_line true (c :: b ++ nl :: r) <> None) by congruence.
  apply blank_line_begins in Hm' as [-> Hblank].
  apply begins_blank_cut in Hblank as (ws & b2 & Heq & Hws).
  exists a, (nl :: ws ++ [nl]), b2. split; [|now exists ws].
  rewrite <- !app_assoc. cbn [app]. do 2 f_equal.
  rewrite Heq, <- app_assoc. reflexivity.
Qed.

Lemma no_match_alone (t : pystr) :
  ~ has_separator t -> forall a b, t = a ++ b -> blank_line true b = None.
Proof.
  intros Hno a b ->. destruct b as [|c b]; [reflexivity|].
  destruct (blank_line true (c :: b)) as [x|] eqn:Hm; [|reflexivity].
  exfalso. apply Hno.
  assert (Hm' : blank_line true (c :: b) <> None) by congruence.
  apply blank_line_begins in Hm' as [-> (ws & b2 & -> & Hws)].
  exists a, (nl :: ws ++ [nl]), b2. split; [|now exists ws].
  cbn [app]. now rewrite <- app_assoc.
Qed.

Lemma split_end (a x pre : pystr) (c : N) :
  a ++ c :: x = pre ++ [nl] -> x <> [] -> exists b, pre = a ++ c :: b /\ x = b ++ [nl].
Proof.
  revert pre. induction a as [|y a IH]; intros pre Heq Hx.
  - destruct pre as [|z pre]; cbn [app] in Heq.
    + injection Heq as _ ->. contradiction.
    + injection Heq as <- ->. now exists pre.
  - destruct pre as [|z pre]; cbn [app] in Heq.
    + injection Heq as _ Heq. destruct a; discriminate.
    + injection Heq as <- Heq. destruct (IH pre Heq Hx) as (b & -> & ->). now exists b.
Qed.

(** Conversely, where the pattern matches at no position before the
    separator, no separator begins inside the paragraph. *)
Lemma no_separator_inside (pre post : pystr) :
  (exists r, post = nl :: r) ->
  (forall a b, pre = a ++ b -> b <> [] -> blank_line true (b ++ post) = None) ->
  ~ has_separator (pre ++ [nl]).
Proof.
  intros [r ->] Hleft (a & sep & b2 & Heq & ws & -> & Hws).
  assert (Heq' : a ++ nl :: (ws ++ [nl]) ++ b2 = pre ++ [nl]).
  { rewrite Heq. cbn [app]. reflexivity. }
  destruct (split_end _ _ _ _ Heq') as (b & -> & Hb); [destruct ws; discriminate|].
  assert (Hm : blank_line true ((nl :: b) ++ nl :: r) <> None).
  { cbn [app]. apply blank_line_begins. split; [reflexivity|].
    exists ws, (b2 ++ r).
    split; [|exact Hws].
    change (b ++ nl :: r) with (b ++ [nl] ++ r). rewrite app_assoc, <- Hb.
    now rewrite <- !app_assoc. }
  apply Hm. apply (Hleft a (nl :: b)); [reflexivity|discriminate].
Qed.

Lemma search_blank_none (q : pystr) :
  forall bol, (forall a b, q = a ++ b -> blank_line true b = None) ->
              re_search_from blank_line bol q = None.
Proof.
  induction q as [|c q IH]; intros bol Hall; cbn [re_search_from].
  - reflexivity.
  - change (blank_line bol (c :: q)) with (blank_line true (c :: q)).
    rewrite (Hall [] (c :: q) eq_refl). apply IH.
    intros a b ->. now apply (Hall (c :: a) b).
Qed.

Lemma search_blank_all (t : pystr) :
  forall bol, re_search_from blank_line bol t = None ->
              forall a b, t = a ++ b -> blank_line true b = None.
Proof.
  induction t as [|c t IH]; intros bol Hs a b Hab.
  - destruct a; destruct b; try discriminate. reflexivity.
  - cbn [re_search_from] in Hs.
    destruct (blank_line bol (c :: t)) as [[u n]|] eqn:Hm; [discriminate|].
    destruct a as [|x a].
    + cbn [app] in Hab. subst b. exact Hm.
    + injection Hab as _ Hab. exact (IH _ Hs a b Hab).
Qed.

Lemma split_without_match (m : matcher unit) (t : pystr) :
  forall (bol : bool) (cur : pystr),
    re_search_from m bol t = None -> re_split_from m bol 0 cur t = [rev cur ++ t].
Proof.
  induction t as [|c rest IH]; intros bol cur Hs.
  - cbn [re_split_from]. now rewrite app_nil_r.
  - cbn [re_search_from] in Hs. cbn [re_split_from].
    destruct (m bol (c :: rest)) as [[u n]|]; [discriminate|].
    rewrite (IH _ _ Hs). cbn [rev]. now rewrite <- app_assoc.
Qed.

Lemma re_split_skip (m : matcher unit) (x y cur : pystr) :
  forall bol, re_split_from m bol (length x) cur (x ++ y)
              = re_split_from m (line_start_after bol x) 0 cur y.
Proof.
  induction x as [|c x IH]; intros bol; [reflexivity|].
  cbn [length app re_split_from]. rewrite IH. now rewrite line_start_after_cons.
Qed.

Lemma re_split_blank_bol (bol bol' : bool) (skip : nat) (cur t : pystr) :
  re_split_from blank_line bol skip cur t = re_split_from blank_line bol' skip cur t.
Proof. destruct t as [|c t]; [reflexivity|]. destruct skip; reflexivity. Qed.

(** [re.split] at the first separator. *)
Lemma re_split_step (p sep rest : pystr) :
  (forall a b, p = a ++ b -> b <> [] -> blank_line true (b ++ sep ++ rest) = None) ->
  sep <> [] ->
  blank_line true (sep ++ rest) = Some (tt, length sep) ->
  forall bol cur,
    re_split_from blank_line bol 0 cur (p ++ sep ++ rest)
    = (rev cur ++ p) :: re_split_from blank_line true 0 [] rest.
Proof.
  intros Hleft Hsep Hm. induction p as [|c p IH]; intros bol cur.
  - destruct sep as [|c sep]; [contradiction|].
    change ([] ++ (c :: sep) ++ rest) with (c :: (sep ++ rest)).
    change ((c :: sep) ++ rest) with (c :: (sep ++ rest)) in Hm.
    cbn [re_split_from].
    change (blank_line bol (c :: sep ++ rest)) with (blank_line true (c :: sep ++ rest)).
    rewrite Hm. cbn [length]. replace (S (length sep) - 1) with (length sep) by lia.
    rewrite re_split_skip, app_nil_r. f_equal. apply re_split_blank_bol.
  - change ((c :: p) ++ sep ++ rest) with (c :: (p ++ sep ++ rest)).
    cbn [re_split_from].
    change (blank_line bol (c :: p ++ sep ++ rest))
      with (blank_line true ((c :: p) ++ sep ++ rest)).
    rewrite (Hleft [] (c :: p) eq_refl) by discriminate.
    rewrite IH.
    + cbn [rev]. now rewrite <- app_assoc.
    + intros a b -> Hb. now apply (Hleft (c :: a) b).
Qed.

Lemma split_no_separator (p : pystr) : ~ has_separator p -> split_paragraphs p = [p].
Proof.
  intros Hno. unfold split_paragraphs, re_split.
  rewrite split_without_match; [reflexivity|].
  apply search_blank_none. now apply no_match_alone.
Qed.

Lemma split_at_separator (p sep rest : pystr) :
  ~ has_separator (p ++ [nl]) -> separator sep -> ~ begins_blank rest ->
  split_paragraphs (p ++ sep ++ rest) = p :: split_paragraphs rest.
Proof.
  intros Hleft Hsep Hrest. unfold split_paragraphs, re_split.
  destruct (separator_head _ Hsep) as (r & Hr & _).
  rewrite (re_split_step p sep rest); [reflexivity| | |now apply blank_line_at].
  - apply no_match_inside; [exact Hleft|]. exists (r ++ rest). now rewrite Hr.
  - rewrite Hr. discriminate.
Qed.

(** The paragraphs that [re.split] returns are the blank-line-delimited
    paragraphs of the content, in document order. *)
Lemma split_paragraphs_spec (content : pystr) :
  blank_line_paragraphs content (split_paragraphs content).
Proof.
  remember (length content) as k eqn:Hk. revert content Hk.
  induction k as [k IH] using lt_wf_ind. intros content Hk.
  destruct (re_search_from blank_line true content) as [[u g0]|] eqn:Hs.
  - destruct (re_search_from_spec _ _ _ _ _ Hs) as (pre & post & n & -> & Hm & _ & Hleft).
    destruct (blank_line_some _ _ _ _ Hm) as (sep & rest & -> & Hsep & -> & Hrest).
    destruct (separator_head _ Hsep) as (r & Hr & _).
    assert (Hin : ~ has_separator (pre ++ [nl])).
    { apply (no_separator_inside pre (sep ++ rest)).
      - exists (r ++ rest). now rewrite Hr.
      - intros a b Hab Hb.
        change (blank_line true (b ++ sep ++ rest))
          with (blank_line (line_start_after true a) (b ++ sep ++ rest)).
        now apply Hleft. }
    rewrite (split_at_separator _ _ _ Hin Hsep Hrest).
    apply paragraphs_next; [exact Hin|exact Hsep|exact Hrest|].
    apply (IH (length rest)); [|reflexivity].
    rewrite Hk, !length_app, Hr. cbn [length]. lia.
  - assert (Hno : ~ has_separator content).
    { intros (a & sep & b & -> & Hsep). destruct (separator_head _ Hsep) as (r & -> & Hblank).
      assert (Hm : blank_line true ((nl :: r) ++ b) <> None).
      { cbn [app]. apply blank_line_begins. split; [reflexivity|now apply begins_blank_more]. }
      apply Hm. now apply (search_blank_all _ _ Hs a). }
    rewrite (split_no_separator _ Hno). now apply paragraphs_last.
Qed.

(** A content has one list of blank-line-delimited paragraphs only. *)
Lemma paragraphs_unique (content : pystr) (paragraphs : list pystr) :
  blank_line_paragraphs content paragraphs -> paragraphs = split_paragraphs content.
Proof.
  induction 1 as [p Hno|p sep rest paragraphs Hleft Hsep Hrest _ IH].
  - symmetry. now apply split_no_separator.
  - rewrite (split_at_separator _ _ _ Hleft Hsep Hrest). now f_equal.
Qed.

Lemma paragraphs_of_contents (content_list : list pystr) (paragraphs : list (list pystr)) :
  Forall2 blank_line_paragraphs content_list paragraphs ->
  concat paragraphs = flat_map split_paragraphs content_list.
Proof.
  induction 1 as [|content ps content_list paragraphs Hps _ IH]; [reflexivity|].
  cbn [concat flat_map]. now rewrite IH, (paragraphs_unique _ _ Hps).
Qed.

(** C2. [_smart_extract] returns the first qualifying paragraph, with the
    contents taken in list order and, within each content, its
    blank-line-delimited paragraphs in document order: the flattened
    cleaned form of the first paragraph whose cleaned form is valid and
    whose flattened form differs from the exclude text when one is given,
    and the sentinel when no paragraph qualifies.  Every content has such
    paragraphs; flattening replaces each line feed inside the stripped
    text by a space; and when the first paragraph of the walkthrough is
    valid, the overview is that paragraph, whatever the implementation
    plan and the task list hold. *)
Theorem smart_extract_first_qualifying :
  (forall content, exists paragraphs, blank_line_paragraphs content paragraphs) /\
  (forall content_list paragraphs exclude_text,
      Forall2 blank_line_paragraphs content_list paragraphs ->
      _smart_extract content_list exclude_text
      = first_qualifying_paragraph (concat paragraphs) exclude_text) /\
  (forall cleaned, flatten_text cleaned = List.map nl_to_sp (strip cleaned)) /\
  (forall files p rest,
      blank_line_paragraphs (walkthrough_content files) (p :: rest) ->
      _is_valid_sentence (_clean_text p) = true ->
      overview_text files = flatten_text (_clean_text p)).
Proof.
  split; [|split; [|split]].
  - intros content. exists (split_paragraphs content). apply split_paragraphs_spec.
  - intros content_list paragraphs exclude_text Hps.
    unfold _smart_extract, first_qualifying_paragraph.
    rewrite extract_from_contents_find, (paragraphs_of_contents _ _ Hps).
    unfold paragraphs_in_order.
    now destruct (List.find (qualifies exclude_text) (flat_map split_paragraphs content_list)).
  - exact flatten_text_map.
  - intros files p rest Hps Hv. apply paragraphs_unique in Hps.
    unfold overview_text, _smart_extract.
    destruct (walkthrough_content files) as [|c walk] eqn:Hw.
    + change (split_paragraphs []) with [@nil N] in Hps.
      injection Hps as -> _. discriminate Hv.
    + simpl. rewrite <- Hps. simpl. now rewrite Hv.
Qed.

(** A walkthrough of two paragraphs that starts with a valid one gives the
    overview, although the implementation plan has valid paragraphs too. *)
Lemma smart_extract_first_qualifying_witness :
  overview_text [ex_file "walkthrough.md" 120 ex_two_paragraphs;
                 ex_file "implementation_plan.md" 98 ex_plan]
  = py "The walkthrough explains how the cache layer was rebuilt.".
Proof.
  apply (proj2 (proj2 (proj2 smart_extract_first_qualifying))
           [ex_file "walkthrough.md" 120 ex_two_paragraphs;
            ex_file "implementation_plan.md" 98 ex_plan]
           (py "The walkthrough explains how the cache layer was rebuilt.")
           [py "Step one replaced the eviction policy with a clock sweep."]).
  - assert (Hw : walkthrough_content
                   [ex_file "walkthrough.md" 120 ex_two_paragraphs;
                    ex_file "implementation_plan.md" 98 ex_plan]
                 = ex_two_paragraphs) by (vm_compute; reflexivity).
    assert (Hsplit : split_paragraphs ex_two_paragraphs
                     = [py "The walkthrough explains how the cache layer was rebuilt.";
                        py "Step one replaced the eviction policy with a clock sweep."])
      by (vm_compute; reflexivity).
    rewrite Hw, <- Hsplit. apply split_paragraphs_spec.
  - vm_compute. reflexivity.
Defined.

(** ** Session Converter: the file name *)

Lemma replace_from_absent (o : N) (old new t : pystr) :
  (forall c, In c t -> c <> o) -> replace_from (o :: old) new 0 t = t.
Proof.
  induction t as [|c t IH]; intros Hnot; [reflexivity|].
  cbn [replace_from starts_with].
  destruct (N.eqb_spec o c) as [->|_].
  - exfalso. apply (Hnot c); [now left|reflexivity].
  - cbn [andb]. f_equal. apply IH. intros x Hx. apply Hnot. now right.
Qed.

Lemma str_replace_absent (o : N) (old new t : pystr) :
  (forall c, In c t -> c <> o) -> str_replace (o :: old) new t = t.
Proof. apply replace_from_absent. Qed.

Lemma re_sub_illegal_all (bol : bool) (t : pystr) :
  forallb is_illegal t = true -> re_sub_from illegal_char bol 0 t = [].
Proof.
  revert bol. induction t as [|c t IH]; intros bol Hall; [reflexivity|].
  cbn [forallb] in Hall. apply andb_prop in Hall as [Hc Ht].
  cbn [re_sub_from illegal_char]. rewrite Hc. cbn [app Nat.sub]. now apply IH.
Qed.

Lemma illegal_in (t : pystr) (c : N) :
  forallb is_illegal t = true -> In c t -> is_illegal c = true.
Proof. intros Hall Hc. rewrite forallb_forall in Hall. now apply Hall. Qed.

Lemma safe_title_illegal (title : pystr) :
  forallb is_illegal title = true -> safe_title title = [].
Proof.
  intros Hall. unfold safe_title.
  assert (Hu : forall c, In c title -> c <> ch "_").
  { intros c Hc ->. now apply (illegal_in _ _ Hall) in Hc. }
  assert (Hs : forall c, In c title -> c <> ch " ").
  { intros c Hc ->. now apply (illegal_in _ _ Hall) in Hc. }
  change (py "_-_") with (ch "_" :: py "-_").
  change (py "_") with (ch "_" :: []).
  change (py " ") with (ch " " :: []).
  rewrite (str_replace_absent (ch "_") (py "-_") (py "-") title Hu).
  rewrite (str_replace_absent (ch "_") [] (py "-") title Hu).
  rewrite (str_replace_absent (ch " ") [] (py "-") title Hs).
  unfold re_sub. now rewrite re_sub_illegal_all.
Qed.

Lemma ci_letter_n (c : N) : ci_letter (ch "n") c = true -> is_illegal c = false.
Proof.
  unfold ci_letter. change (is_ch "i" (ch "n")) with false.
  change (is_ch "s" (ch "n")) with false. change (is_ch "k" (ch "n")) with false.
  cbn [andb orb]. rewrite !orb_false_r. intros Hc.
  apply orb_prop in Hc as [Hc|Hc]; apply N.eqb_eq in Hc; subst c; reflexivity.
Qed.

Lemma illegal_not_default (title : pystr) :
  forallb is_illegal title = true -> is_default_title title = false.
Proof.
  destruct title as [|c title]; [reflexivity|].
  cbn [forallb]. intros Hall. apply andb_prop in Hall as [Hc _].
  unfold is_default_title. change (py "note") with (ch "n" :: py "ote").
  cbn [ci_starts_with].
  destruct (ci_letter (ch "n") c) eqn:Hn; [|reflexivity].
  apply ci_letter_n in Hn. congruence.
Qed.

(** C10. The sanitized title can be empty although the title is not:
    every title made only of characters illegal in file names sanitizes to
    the empty string and gets the file name ".md"; "?:*" is such a title;
    and the conversion of a session with such a title, when it reaches the
    write step and the file can be written, stores the note under ".md". *)
Theorem safe_title_may_be_empty :
  (forall title,
      forallb is_illegal title = true ->
      safe_title title = [] /\ note_filename title = py ".md") /\
  (py "?:*" <> [] /\ forallb is_illegal (py "?:*") = true) /\
  (forall H ignore_strings w hash_id timestamp s,
      lookup_session w hash_id = Some s ->
      forallb is_illegal (note_title H (s_files s) hash_id) = true ->
      50 <= length (strip (note_body H (s_files s) hash_id)) ->
      can_write H (py ".md") = true ->
      exists w',
        convert_hash_folder H ignore_strings w hash_id timestamp = (true, w') /\
        notes w' = <[py ".md" := final_note H ignore_strings (s_files s) hash_id]> (notes w)).
Proof.
  repeat split.
  - now apply safe_title_illegal.
  - unfold note_filename. now rewrite safe_title_illegal.
  - discriminate.
  - intros H ignore_strings w hash_id timestamp s Hs Hill Hlen Hw.
    unfold convert_hash_folder. rewrite Hs. cbv zeta.
    rewrite (illegal_not_default _ Hill).
    destruct (Nat.ltb_spec (length (strip (note_body H (s_files s) hash_id))) 50); [lia|].
    unfold note_filename. rewrite (safe_title_illegal _ Hill).
    change ([] ++ py ".md") with (py ".md"). rewrite Hw.
    eexists. split; reflexivity.
Qed.

(** The session whose heading is "?:*" is written to ".md". *)
Lemma safe_title_may_be_empty_witness :
  exists w',
    convert_hash_folder ex_host [] (ex_world ex_illegal_title ∅) ex_hash None = (true, w') /\
    notes w' = <[py ".md" := final_note ex_host [] ex_illegal_title ex_hash]> ∅.
Proof.
  apply (proj2 (proj2 safe_title_may_be_empty) ex_host [] (ex_world ex_illegal_title ∅)
           ex_hash None
           {| s_name := ex_hash; s_mtime := 1714521000; s_files := ex_illegal_title |}).
  - reflexivity.
  - vm_compute. reflexivity.
  - vm_compute. lia.
  - reflexivity.
Defined.

(** ** Session Converter: rejections and write failures *)

Lemma ci_letter_ascii_lower (c p : N) : ascii_lower c = p -> ci_letter p c = true.
Proof.
  unfold ascii_lower, ci_letter. destruct (is_ascii_upper c); intros <-.
  - replace (c + 32 - 32)%N with c by lia. now rewrite N.eqb_refl, orb_true_r.
  - now rewrite N.eqb_refl.
Qed.

Lemma begins_like_default_matches (title : pystr) :
  begins_like_default title -> is_default_title title = true.
Proof.
  intros (word & s & x & rest & -> & Hword & Hs & Hx).
  change (py "note") with [110; 111; 116; 101]%N in Hword.
  destruct word as [|a [|b [|c [|d [|e word]]]]]; try discriminate Hword.
  injection Hword as Ha Hb Hc Hd.
  unfold is_default_title.
  change (py "note") with [110; 111; 116; 101]%N.
  cbn [app ci_starts_with drop].
  rewrite (ci_letter_ascii_lower a _ Ha), (ci_letter_ascii_lower b _ Hb),
    (ci_letter_ascii_lower c _ Hc), (ci_letter_ascii_lower d _ Hd), Hx.
  destruct Hs as [-> | ->]; reflexivity.
Qed.

Lemma record_timestamp_given (st : gmap pystr Z) (hash_id : pystr) (t : Z) :
  timestamp_given (Some t) = true ->
  record_timestamp st hash_id (Some t) = update st hash_id t.
Proof. intros Ht. unfold record_timestamp. now rewrite Ht. Qed.

Lemma convert_rejected (H : Host) (ignore_strings : list pystr) (w : World)
    (hash_id : pystr) (timestamp : option Z) (s : Session) :
  lookup_session w hash_id = Some s ->
  is_default_title (note_title H (s_files s) hash_id) = true \/
  length (strip (note_body H (s_files s) hash_id)) < 50 ->
  convert_hash_folder H ignore_strings w hash_id timestamp
  = (false, mark_processed w hash_id timestamp).
Proof.
  intros Hs Hrej. unfold convert_hash_folder. rewrite Hs. cbv zeta.
  destruct (is_default_title (note_title H (s_files s) hash_id)); [reflexivity|].
  destruct Hrej as [Hd|Hlen]; [discriminate|].
  destruct (Nat.ltb_spec (length (strip (note_body H (s_files s) hash_id))) 50);
    [reflexivity|lia].
Qed.

(** C9. A title that begins with "Note" (in any letter case), one space
    or hyphen and a hexadecimal digit is taken for the default title,
    whatever follows: the conversion returns false, the notes are left as
    they are, and a timestamp that was given, in the sense of the test
    [if timestamp:] of the source, is recorded, after which
    [should_process] is false for it.
    "Note-Based Workflow" and "Note 2 remember" are such titles. *)
Theorem default_like_title_rejected :
  (forall H ignore_strings w hash_id timestamp s,
      lookup_session w hash_id = Some s ->
      begins_like_default (note_title H (s_files s) hash_id) ->
      let result := convert_hash_folder H ignore_strings w hash_id timestamp in
      fst result = false /\
      notes (snd result) = notes w /\
      (forall t, timestamp = Some t -> timestamp_given timestamp = true ->
                 state (snd result) = update (state w) hash_id t /\
                 should_process (state (snd result)) hash_id t = false)) /\
  begins_like_default (py "Note-Based Workflow") /\
  begins_like_default (py "Note 2 remember").
Proof.
  split; [|split].
  - intros H ignore_strings w hash_id timestamp s Hs Htitle result.
    subst result.
    rewrite (convert_rejected H ignore_strings w hash_id timestamp s Hs)
      by (left; now apply begins_like_default_matches).
    split; [reflexivity|]. split; [reflexivity|].
    intros t -> Ht. cbn [snd mark_processed state].
    rewrite (record_timestamp_given _ _ _ Ht).
    split; [reflexivity|]. apply should_process_recorded. apply lookup_insert_eq.
  - exists (py "Note"), (ch "-"), (ch "B"), (py "ased Workflow").
    repeat split; auto.
  - exists (py "Note"), sp, (ch "2"), (py " remember").
    repeat split; auto.
Qed.

(** The session headed "Note-Based Workflow" is rejected and marked. *)
Lemma default_like_title_rejected_witness :
  let result :=
    convert_hash_folder ex_host [] (ex_world ex_note_based ∅) ex_hash (Some 1714521600%Z) in
  fst result = false /\
  notes (snd result) = ∅ /\
  state (snd result) = update ∅ ex_hash 1714521600%Z.
Proof.
  pose proof (proj1 default_like_title_rejected ex_host [] (ex_world ex_note_based ∅)
                ex_hash (Some 1714521600%Z)
                {| s_name := ex_hash; s_mtime := 1714521000; s_files := ex_note_based |}
                eq_refl) as Hthm.
  assert (Htitle : begins_like_default (note_title ex_host ex_note_based ex_hash)).
  { exists (py "Note"), (ch "-"), (ch "B"), (py "ased Workflow").
    repeat split; auto. }
  destruct (Hthm Htitle) as (Hfalse & Hnotes & Hstate).
  split; [exact Hfalse|]. split; [exact Hnotes|].
  apply (Hstate 1714521600%Z eq_refl). reflexivity.
Defined.

(** C8. When the conversion reaches the write step and the note file
    cannot be written, it returns false and leaves the sync state as it
    was.  When the title has the default pattern or the stripped content
    is shorter than 50 characters, it returns false, writes no note, and
    records the timestamp when one was given, in the sense of the test
    [if timestamp:] of the source. *)
Theorem write_failure_versus_rejection
    (H : Host) (ignore_strings : list pystr) (w : World) (hash_id : pystr)
    (timestamp : option Z) (s : Session)
    (Hs : lookup_session w hash_id = Some s) :
  let title := note_title H (s_files s) hash_id in
  let body := note_body H (s_files s) hash_id in
  let result := convert_hash_folder H ignore_strings w hash_id timestamp in
  (is_default_title title = false ->
   50 <= length (strip body) ->
   can_write H (note_filename title) = false ->
   fst result = false /\ snd result = w) /\
  (is_default_title title = true \/ length (strip body) < 50 ->
   fst result = false /\
   notes (snd result) = notes w /\
   (forall t, timestamp = Some t -> timestamp_given timestamp = true ->
              state (snd result) = update (state w) hash_id t /\
              state (snd result) !! hash_id = Some t)).
Proof.
  cbv zeta. split.
  - intros Hd Hlen Hw. unfold convert_hash_folder. rewrite Hs. cbv zeta.
    rewrite Hd.
    destruct (Nat.ltb_spec (length (strip (note_body H (s_files s) hash_id))) 50); [lia|].
    rewrite Hw. split; reflexivity.
  - intros Hrej. rewrite (convert_rejected H ignore_strings w hash_id timestamp s Hs Hrej).
    split; [reflexivity|]. split; [reflexivity|].
    intros t -> Ht. cbn [snd mark_processed state].
    rewrite (record_timestamp_given _ _ _ Ht).
    split; [reflexivity|]. apply lookup_insert_eq.
Qed.

(** A failed write leaves the state empty; a too short session is marked. *)
Lemma write_failure_versus_rejection_witness :
  (let result :=
     convert_hash_folder ex_host_readonly [] (ex_world ex_files ∅) ex_hash (Some 1714521600%Z) in
   fst result = false /\ snd result = ex_world ex_files ∅) /\
  (let result :=
     convert_hash_folder ex_host [] (ex_world ex_short ∅) ex_hash (Some 1714521600%Z) in
   fst result = false /\ state (snd result) !! ex_hash = Some 1714521600%Z).
Proof.
  split.
  - apply (write_failure_versus_rejection ex_host_readonly [] (ex_world ex_files ∅) ex_hash
             (Some 1714521600%Z)
             {| s_name := ex_hash; s_mtime := 1714521000; s_files := ex_files |} eq_refl).
    + vm_compute. reflexivity.
    + vm_compute. lia.
    + reflexivity.
  - pose proof (proj2 (write_failure_versus_rejection ex_host [] (ex_world ex_short ∅) ex_hash
             (Some 1714521600%Z)
             {| s_name := ex_hash; s_mtime := 1714521000; s_files := ex_short |} eq_refl))
      as Hthm.
    cbv zeta in Hthm. destruct Hthm as (Hfalse & _ & Hstate).
    + right. vm_compute. lia.
    + split; [exact Hfalse|]. apply (Hstate 1714521600%Z eq_refl). reflexivity.
Defined.

(** ** Session Converter: artifact groups *)

Lemma starts_with_app (d t : pystr) :
  starts_with d t = true <-> exists r, t = d ++ r.
Proof.
  revert t. induction d as [|x d IH]; intros t.
  - split; [intros _; now exists t|reflexivity].
  - destruct t as [|c t]; cbn [starts_with].
    + split; [discriminate|intros [r Hr]; discriminate].
    + rewrite andb_true_iff, N.eqb_eq, IH. split.
      * intros [-> [r ->]]. now exists r.
      * intros [r Hr]. injection Hr as -> ->. split; [reflexivity|now exists r].
Qed.

(** The lazy group is the shortest run before the delimiter, and has no
    line feed. *)
Lemma lazy_until_spec (d t g : pystr) :
  lazy_until d t = Some g ->
  (exists r, t = g ++ d ++ r) /\
  (forall c, In c g -> c <> nl) /\
  (forall g' r', t = g' ++ d ++ r' -> length g <= length g').
Proof.
  revert g. induction t as [|c t IH]; intros g.
  - cbn [lazy_until]. destruct (starts_with d []) eqn:Hd; [|discriminate].
    intros [= <-]. apply starts_with_app in Hd. repeat split.
    + exact Hd.
    + intros c [].
    + intros g' r' _. cbn. lia.
  - cbn [lazy_until]. destruct (starts_with d (c :: t)) eqn:Hd.
    + intros [= <-]. apply starts_with_app in Hd. repeat split.
      * exact Hd.
      * intros x [].
      * intros g' r' _. cbn. lia.
    + destruct (is_nl c) eqn:Hc; [discriminate|].
      destruct (lazy_until d t) as [g0|] eqn:Hg0; [|discriminate].
      intros [= <-]. destruct (IH g0 eq_refl) as ((r & Hr) & Hnl & Hmin).
      repeat split.
      * exists r. cbn. now rewrite Hr.
      * intros x [<-|Hx]; [|now apply Hnl].
        intros ->. discriminate Hc.
      * intros g' r' Hg'. destruct g' as [|x g'].
        { assert (starts_with d (c :: t) = true) as Hyes
            by (apply starts_with_app; now exists r').
          congruence. }
        injection Hg' as _ Ht. cbn. apply Hmin in Ht. lia.
Qed.

(** The base name is the text before the first ".md" that has text before
    it. *)
Lemma base_name_spec (name b : pystr) :
  base_name name = Some b ->
  b <> [] /\
  (exists rest, name = b ++ py ".md" ++ rest) /\
  (forall b' rest', b' <> [] -> name = b' ++ py ".md" ++ rest' -> length b <= length b').
Proof.
  unfold base_name. destruct name as [|c r]; [discriminate|].
  destruct (is_nl c); [discriminate|].
  destruct (lazy_until (py ".md") r) as [g|] eqn:Hg; [|discriminate].
  intros [= <-]. destruct (lazy_until_spec _ _ _ Hg) as ((rest & Hrest) & _ & Hmin).
  repeat split.
  - discriminate.
  - exists rest. cbn [app]. now rewrite Hrest.
  - intros b' rest' Hb' Hname. destruct b' as [|x b']; [contradiction|].
    injection Hname as _ Hr. cbn. apply Hmin in Hr. lia.
Qed.

Lemma dict_get_append {V} (k b : pystr) (v : V) (d : list (pystr * list V)) :
  dict_get b (dict_append k v d) =
  if str_eqb k b then Some (default [] (dict_get b d) ++ [v]) else dict_get b d.
Proof.
  unfold str_eqb. induction d as [|[k' vs] d IH]; cbn [dict_append dict_get].
  - unfold str_eqb. now destruct (bool_decide (k = b)).
  - unfold str_eqb. destruct (bool_decide_reflect (k' = k)) as [->|Hk'];
      cbn [dict_get]; unfold str_eqb.
    + now destruct (bool_decide (k = b)).
    + destruct (bool_decide_reflect (k' = b)) as [->|Hb].
      * destruct (bool_decide_reflect (k = b)) as [->|_]; [contradiction|reflexivity].
      * exact IH.
Qed.

Lemma group_members_snoc (b : pystr) (files : list FileEntry) (f : FileEntry) :
  group_members b (files ++ [f]) =
  if in_group b f then group_members b files ++ [f] else group_members b files.
Proof.
  unfold group_members. rewrite List.filter_app. cbn [List.filter].
  destruct (in_group b f); [reflexivity|apply app_nil_r].
Qed.

Lemma file_groups_from (files pre : list FileEntry) (groups : list (pystr * list FileEntry)) :
  (forall b, dict_get b groups = nonempty (group_members b pre)) ->
  forall b,
    dict_get b
      (fold_left
         (fun groups f =>
            if f_is_file f then
              match base_name (f_name f) with
              | Some b => dict_append b f groups
              | None => groups
              end
            else groups)
         files groups)
    = nonempty (group_members b (pre ++ files)).
Proof.
  revert pre groups. induction files as [|f files IH]; intros pre groups Hinv b.
  - rewrite app_nil_r. apply Hinv.
  - cbn [fold_left].
    replace (pre ++ f :: files) with ((pre ++ [f]) ++ files)
      by (now rewrite <- app_assoc).
    apply IH. clear b. intros b. rewrite group_members_snoc. unfold in_group.
    destruct (f_is_file f); cbn [andb]; [|apply Hinv].
    destruct (base_name (f_name f)) as [k|] eqn:Hk.
    + rewrite dict_get_append, Hinv. unfold str_eqb.
      destruct (bool_decide_reflect (k = b)) as [->|Hkb].
      * rewrite bool_decide_eq_true_2 by reflexivity.
        destruct (group_members b pre); reflexivity.
      * rewrite bool_decide_eq_false_2 by congruence. reflexivity.
    + rewrite bool_decide_eq_false_2 by discriminate. apply Hinv.
Qed.

Lemma file_groups_get (files : list FileEntry) (b : pystr) :
  dict_get b (file_groups files) = nonempty (group_members b files).
Proof. apply (file_groups_from files [] []). reflexivity. Qed.

Lemma file_groups_invariant (P : list (pystr * list FileEntry) -> Prop) :
  P [] ->
  (forall k f d, P d -> P (dict_append k f d)) ->
  forall files, P (file_groups files).
Proof.
  intros Hnil Hstep files. unfold file_groups.
  generalize (@nil (pystr * list FileEntry)) Hnil.
  induction files as [|f files IH]; intros groups Hg; [exact Hg|].
  cbn [fold_left]. apply IH.
  destruct (f_is_file f); [|exact Hg].
  destruct (base_name (f_name f)); [now apply Hstep|exact Hg].
Qed.

Lemma dict_append_inhabited (k : pystr) (f : FileEntry) (d : list (pystr * list FileEntry)) :
  groups_inhabited d -> groups_inhabited (dict_append k f d).
Proof.
  unfold groups_inhabited. induction d as [|[k' vs] d IH]; intros Hd; cbn [dict_append].
  - constructor; [discriminate|constructor].
  - inversion Hd as [|? ? Hvs Hd']; subst.
    destruct (str_eqb k' k).
    + constructor; [|exact Hd']. cbn. now destruct vs.
    + constructor; [exact Hvs|now apply IH].
Qed.

Lemma dict_append_keys_in {V} (x k : pystr) (v : V) (d : list (pystr * list V)) :
  In x (dict_keys (dict_append k v d)) <-> x = k \/ In x (dict_keys d).
Proof.
  unfold dict_keys. induction d as [|[k' vs] d IH]; cbn [dict_append List.map fst In].
  - intuition.
  - unfold str_eqb. destruct (bool_decide_reflect (k' = k)) as [->|Hk];
      cbn [List.map fst In]; [intuition|].
    rewrite IH. intuition.
Qed.

Lemma dict_append_keys_nodup {V} (k : pystr) (v : V) (d : list (pystr * list V)) :
  List.NoDup (dict_keys d) -> List.NoDup (dict_keys (dict_append k v d)).
Proof.
  induction d as [|[k' vs] d IH]; intros Hd.
  - cbn. constructor; [intros []|constructor].
  - cbn [dict_append]. unfold str_eqb.
    destruct (bool_decide_reflect (k' = k)) as [->|Hk]; [exact Hd|].
    change (List.NoDup (k' :: dict_keys (dict_append k v d))).
    change (List.NoDup (k' :: dict_keys d)) in Hd.
    inversion Hd as [|? ? Hnotin Hd']; subst. constructor; [|now apply IH].
    rewrite dict_append_keys_in. intros [->|Hin]; [now apply Hk|contradiction].
Qed.

Lemma best_files_map_unfold (files : list FileEntry) :
  best_files_map files = flat_map pick_largest (file_groups files).
Proof. reflexivity. Qed.

Lemma pick_largest_get (b : pystr) (d : list (pystr * list FileEntry)) :
  groups_inhabited d ->
  dict_get b (flat_map pick_largest d) =
  match dict_get b d with
  | Some (f :: paths) => Some (max_by_size f paths)
  | _ => None
  end.
Proof.
  unfold groups_inhabited. induction d as [|[k vs] d IH]; intros Hd; [reflexivity|].
  inversion Hd as [|? ? Hvs Hd']; subst. cbn [snd] in Hvs.
  destruct vs as [|f vs]; [contradiction|].
  cbn [flat_map pick_largest app dict_get].
  destruct (str_eqb k b); [reflexivity|now apply IH].
Qed.

Lemma pick_largest_keys (d : list (pystr * list FileEntry)) :
  groups_inhabited d -> dict_keys (flat_map pick_largest d) = dict_keys d.
Proof.
  unfold groups_inhabited, dict_keys.
  induction d as [|[k vs] d IH]; intros Hd; [reflexivity|].
  inversion Hd as [|? ? Hvs Hd']; subst. cbn [snd] in Hvs.
  destruct vs as [|f vs]; [contradiction|].
  cbn [flat_map pick_largest app List.map fst]. now rewrite IH.
Qed.

Lemma max_by_size_in (best : FileEntry) (paths : list FileEntry) :
  In (max_by_size best paths) (best :: paths).
Proof.
  revert best. induction paths as [|f paths IH]; intros best; [now left|].
  cbn [max_by_size].
  destruct (IH (if (f_size best <? f_size f)%N then f else best)) as [Heq|Hin].
  - rewrite <- Heq. destruct (f_size best <? f_size f)%N; [right; now left|now left].
  - right. now right.
Qed.

Lemma max_by_size_ge (best : FileEntry) (paths : list FileEntry) (x : FileEntry) :
  In x (best :: paths) -> (f_size x <= f_size (max_by_size best paths))%N.
Proof.
  revert best x. induction paths as [|f paths IH]; intros best x Hx.
  - destruct Hx as [<-|[]]. cbn. lia.
  - cbn [max_by_size].
    destruct (N.ltb_spec (f_size best) (f_size f)) as [Hlt|Hge].
    + destruct Hx as [<-|[<-|Hx]].
      * pose proof (IH f f (or_introl eq_refl)). lia.
      * apply IH. now left.
      * apply IH. now right.
    + destruct Hx as [<-|[<-|Hx]].
      * apply IH. now left.
      * pose proof (IH best best (or_introl eq_refl)). lia.
      * apply IH. now right.
Qed.

Lemma best_files_map_get (files : list FileEntry) (b : pystr) :
  dict_get b (best_files_map files) =
  match group_members b files with
  | [] => None
  | f :: paths => Some (max_by_size f paths)
  end.
Proof.
  rewrite best_files_map_unfold, pick_largest_get, file_groups_get.
  - now destruct (group_members b files).
  - apply file_groups_invariant; [constructor|]. intros k f d. apply dict_append_inhabited.
Qed.

(** C6. Every artifact group, the regular files of a session with one
    base name, has exactly one representative: the map of best files has
    an entry for the base name of every artifact, no base name twice, and
    the entry is a member of the group of the largest size.  The base
    name is the text before the first ".md" that has text before it.  Of
    a.md with 500 bytes and a.md.resolved with 900 bytes the 900 byte file
    represents "a", in whichever order the directory lists them. *)
Theorem largest_file_represents_group :
  (forall files b f,
      In f (group_members b files) ->
      exists rep,
        dict_get b (best_files_map files) = Some rep /\
        In rep (group_members b files) /\
        (forall f', In f' (group_members b files) -> (f_size f' <= f_size rep)%N)) /\
  (forall files b rep,
      dict_get b (best_files_map files) = Some rep -> In rep (group_members b files)) /\
  (forall files, List.NoDup (dict_keys (best_files_map files))) /\
  (forall name b,
      base_name name = Some b ->
      b <> [] /\
      (exists rest, name = b ++ py ".md" ++ rest) /\
      (forall b' rest', b' <> [] -> name = b' ++ py ".md" ++ rest' -> length b <= length b')) /\
  dict_get (py "a") (best_files_map [ex_a_md; ex_a_md_resolved]) = Some ex_a_md_resolved /\
  dict_get (py "a") (best_files_map [ex_a_md_resolved; ex_a_md]) = Some ex_a_md_resolved.
Proof.
  split; [|split; [|split; [|split; [|split]]]].
  - intros files b f Hf. rewrite best_files_map_get.
    destruct (group_members b files) as [|f0 paths]; [destruct Hf|].
    exists (max_by_size f0 paths). split; [reflexivity|].
    split; [apply max_by_size_in|]. intros f'. apply max_by_size_ge.
  - intros files b rep. rewrite best_files_map_get.
    destruct (group_members b files) as [|f0 paths]; [discriminate|].
    intros [= <-]. apply max_by_size_in.
  - intros files. rewrite best_files_map_unfold, pick_largest_keys.
    + apply file_groups_invariant; [constructor|].
      intros k f d. apply dict_append_keys_nodup.
    + apply file_groups_invariant; [constructor|]. intros k f d. apply dict_append_inhabited.
  - exact base_name_spec.
  - reflexivity.
  - reflexivity.
Qed.

(** The group of "a" in the example directory. *)
Lemma largest_file_represents_group_witness :
  exists rep,
    dict_get (py "a") (best_files_map [ex_a_md; ex_a_md_resolved]) = Some rep /\
    In rep (group_members (py "a") [ex_a_md; ex_a_md_resolved]) /\
    (forall f', In f' (group_members (py "a") [ex_a_md; ex_a_md_resolved]) ->
                (f_size f' <= f_size rep)%N).
Proof.
  apply (proj1 largest_file_represents_group [ex_a_md; ex_a_md_resolved] (py "a") ex_a_md).
  vm_compute. now left.
Defined.

(** ** [str.replace] deletes the occurrences found from the left *)

Lemma occurs_cons (old : pystr) (c : N) (t : pystr) :
  occurs old (c :: t) <-> starts_with old (c :: t) = true \/ occurs old t.
Proof.
  split.
  - intros ([|x a] & b & Ht).
    + left. apply starts_with_app. now exists b.
    + right. injection Ht as _ ->. now exists a, b.
  - intros [Hs|(a & b & ->)].
    + apply starts_with_app in Hs as [r Hr]. now exists [], r.
    + now exists (c :: a), b.
Qed.

Lemma occurs_nil (old : pystr) : old <> [] -> ~ occurs old [].
Proof.
  intros Hold (a & b & Ht). destruct a; [destruct old; [contradiction|discriminate]|discriminate].
Qed.

Lemma str_in_occurs (old t : pystr) : old <> [] -> str_in old t = true <-> occurs old t.
Proof.
  intros Hold. induction t as [|c t IH].
  - cbn [str_in]. rewrite orb_false_r. split.
    + intros Hs. apply starts_with_app in Hs as [r Hr]. now exists [], r.
    + intros Ho. now apply occurs_nil in Ho.
  - cbn [str_in]. rewrite orb_true_iff, IH. symmetry. apply occurs_cons.
Qed.

Lemma starts_with_prefix (old x y : pystr) :
  length old <= length x -> starts_with old (x ++ y) = true -> starts_with old x = true.
Proof.
  revert x. induction old as [|o old IH]; intros x Hlen; [reflexivity|].
  destruct x as [|c x]; [cbn in Hlen; lia|].
  cbn [app starts_with]. rewrite !andb_true_iff. intros [Hc Hs]. split; [exact Hc|].
  apply IH; [cbn in Hlen; lia|exact Hs].
Qed.

Lemma starts_with_extend (old x y : pystr) :
  starts_with old x = true -> starts_with old (x ++ y) = true.
Proof.
  intros Hs. apply starts_with_app in Hs as [r ->]. apply starts_with_app.
  exists (r ++ y). now rewrite app_assoc.
Qed.

Lemma replace_from_skip (old new x b : pystr) :
  replace_from old new (length x) (x ++ b) = replace_from old new 0 b.
Proof.
  induction x as [|c x IH]; [reflexivity|]. exact IH.
Qed.

Lemma replace_from_here (old new b : pystr) :
  old <> [] -> replace_from old new 0 (old ++ b) = new ++ replace_from old new 0 b.
Proof.
  intros Hold. destruct old as [|o old]; [contradiction|].
  cbn [app replace_from].
  assert (starts_with (o :: old) (o :: old ++ b) = true) as ->
    by (apply starts_with_app; now exists b).
  cbn [length Nat.sub]. rewrite Nat.sub_0_r. now rewrite replace_from_skip.
Qed.

Lemma split_last (old : pystr) :
  old <> [] -> exists z, old = removelast old ++ [z].
Proof.
  intros Hold. exists (List.last old 0%N). now apply app_removelast_last.
Qed.

(** Scanning passes over [a] when the leftmost occurrence comes after it. *)
Lemma replace_from_leftmost (old new a b : pystr) :
  old <> [] ->
  ~ occurs old (a ++ removelast old) ->
  replace_from old new 0 (a ++ old ++ b) = a ++ new ++ replace_from old new 0 b.
Proof.
  intros Hold. induction a as [|c a IH]; intros Hleft.
  - cbn [app]. now apply replace_from_here.
  - cbn [app replace_from].
    destruct (starts_with old (c :: a ++ old ++ b)) eqn:Hs.
    + exfalso. apply Hleft. destruct (split_last old Hold) as [z Hz].
      assert (Hpre : starts_with old ((c :: a) ++ removelast old) = true).
      { apply (starts_with_prefix old _ (z :: b)).
        - rewrite length_app. cbn [length].
          rewrite Hz at 1. rewrite length_app. cbn [length]. lia.
        - rewrite <- app_assoc. change (removelast old ++ z :: b)
            with (removelast old ++ [z] ++ b).
          rewrite (app_assoc (removelast old)), <- Hz. exact Hs. }
      apply starts_with_app in Hpre as [r Hr]. exists [], r. exact Hr.
    + f_equal. apply IH. intros Ho. apply Hleft.
      change ((c :: a) ++ removelast old) with (c :: (a ++ removelast old)).
      apply occurs_cons. now right.
Qed.

Lemma replace_from_none (old new t : pystr) :
  ~ occurs old t -> replace_from old new 0 t = t.
Proof.
  induction t as [|c t IH]; intros Hno; [reflexivity|].
  cbn [replace_from].
  destruct (starts_with old (c :: t)) eqn:Hs.
  - exfalso. apply Hno, occurs_cons. now left.
  - f_equal. apply IH. intros Ho. apply Hno, occurs_cons. now right.
Qed.

(** An occurrence gives a leftmost occurrence. *)
Lemma leftmost_occurrence (old t : pystr) :
  old <> [] ->
  occurs old t ->
  exists a b, t = a ++ old ++ b /\ ~ occurs old (a ++ removelast old).
Proof.
  intros Hold. induction t as [|c t IH]; intros Ho.
  - now apply occurs_nil in Ho.
  - destruct (starts_with old (c :: t)) eqn:Hs.
    + apply starts_with_app in Hs as [b Hb]. exists [], b. split; [exact Hb|].
      cbn [app]. intros (x & y & Hxy). destruct (split_last old Hold) as [z Hz].
      apply (f_equal (@length N)) in Hxy. rewrite !length_app in Hxy.
      apply (f_equal (@length N)) in Hz. rewrite length_app in Hz. cbn [length] in Hz. lia.
    + apply occurs_cons in Ho as [Ho|Ho]; [congruence|].
      destruct (IH Ho) as (a & b & -> & Hleft). exists (c :: a), b.
      split; [reflexivity|].
      change ((c :: a) ++ removelast old) with (c :: (a ++ removelast old)).
      rewrite occurs_cons. intros [Hpre|Hlater]; [|contradiction].
      assert (starts_with old (c :: a ++ old ++ b) = true); [|congruence].
      destruct (split_last old Hold) as [z Hz].
      replace (c :: a ++ old ++ b) with ((c :: a ++ removelast old) ++ (z :: b)).
      * now apply starts_with_extend.
      * cbn [app]. f_equal. rewrite <- app_assoc. f_equal.
        rewrite Hz at 2. now rewrite <- app_assoc.
Qed.

Lemma replace_removes_all (old t : pystr) :
  old <> [] -> removed_all old t (str_replace old [] t).
Proof.
  intros Hold.
  assert (Hrep : str_replace old [] t = replace_from old [] 0 t)
    by (destruct old; [contradiction|reflexivity]).
  rewrite Hrep. clear Hrep.
  remember (length t) as n eqn:Hn. revert t Hn.
  induction n as [n IH] using lt_wf_ind. intros t Hn.
  destruct (str_in old t) eqn:Hin.
  - apply (str_in_occurs old t Hold) in Hin.
    destruct (leftmost_occurrence old t Hold Hin) as (a & b & -> & Hleft).
    rewrite (replace_from_leftmost old [] a b Hold Hleft). cbn [app].
    apply removed_next; [exact Hleft|].
    apply (IH (length b)); [|reflexivity].
    subst n. rewrite !length_app. destruct old; [contradiction|cbn [length]; lia].
  - assert (Hno : ~ occurs old t).
    { intros Ho. apply (str_in_occurs old t Hold) in Ho. congruence. }
    rewrite (replace_from_none old [] t Hno). now apply removed_none.
Qed.

(** ** Session Converter: the title *)


















(** A marker alone on its line is not skipped: the title is the next
    paragraph, and the level-1 heading line that follows stays in the
    content. *)
Lemma lone_marker_takes_next_line :
  note_title ex_host ex_lone_marker ex_hash
  = py "This walkthrough collects the release notes of the sprint." /\
  str_in (py "# Real Title") (note_body ex_host ex_lone_marker ex_hash) = true.
Proof. split; vm_compute; reflexivity. Qed.


(** ** Session Converter: overview and abstract *)

Lemma find_none_all {A} (p : A -> bool) (l : list A) :
  (forall x, In x l -> p x = false) -> List.find p l = None.
Proof.
  induction l as [|x l IH]; intros Hall; [reflexivity|]. cbn [List.find].
  rewrite (Hall x (or_introl eq_refl)). apply IH. intros y Hy. apply Hall. now right.
Qed.

Lemma smart_extract_find (content_list : list pystr) (exclude_text : option pystr) :
  _smart_extract content_list exclude_text = first_qualifying content_list exclude_text.
Proof.
  unfold _smart_extract, first_qualifying. rewrite extract_from_contents_find.
  now destruct (List.find (qualifies exclude_text) (paragraphs_in_order content_list)).
Qed.

Lemma sentinel_not_details : sentinel <> details_fallback.
Proof. discriminate. Qed.

(** When every valid paragraph of the inputs of the abstract flattens to
    the overview, the extraction of the abstract finds nothing. *)
Lemma abstract_text_sentinel (files : list FileEntry) :
  (forall p,
      In p (paragraphs_in_order
              [impl_content files; task_content files; last_other_content files]) ->
      _is_valid_sentence (_clean_text p) = true ->
      flatten_text (_clean_text p) = overview_text files) ->
  abstract_text files = sentinel.
Proof.
  intros Honly. unfold abstract_text. rewrite smart_extract_find. unfold first_qualifying.
  rewrite find_none_all; [reflexivity|].
  intros p Hp. unfold qualifies.
  destruct (_is_valid_sentence (_clean_text p)) eqn:Hv; [|reflexivity].
  rewrite (Honly p Hp Hv). unfold str_eqb. now rewrite bool_decide_eq_true_2.
Qed.

(** C4, as the source has it. When every valid paragraph of the
    implementation plan, the task list and the last other artifact
    flattens to the overview already chosen, the abstract written into
    the note is the sentinel "See content below." of the extraction; it
    is "See details in Content section." only when the written overview is
    itself the sentinel text, that is when no overview was found and the
    title is that text.  The written abstract differs from the written
    overview. *)
Theorem abstract_when_only_paragraph_is_overview
    (H : Host) (files : list FileEntry) (hash_id : pystr)
    (Honly : forall p,
        In p (paragraphs_in_order
                [impl_content files; task_content files; last_other_content files]) ->
        _is_valid_sentence (_clean_text p) = true ->
        flatten_text (_clean_text p) = overview_text files) :
  note_abstract H files hash_id =
    (if str_eqb (overview_text files) sentinel && str_eqb (note_title H files hash_id) sentinel
     then details_fallback else sentinel) /\
  (overview_text files <> sentinel -> note_abstract H files hash_id = sentinel) /\
  note_abstract H files hash_id <> note_overview H files hash_id.
Proof.
  unfold note_abstract, note_overview, final_abstract, final_overview.
  rewrite (abstract_text_sentinel files Honly). unfold str_eqb.
  destruct (bool_decide_reflect (overview_text files = sentinel)) as [Hov|Hov].
  - destruct (bool_decide_reflect (note_title H files hash_id = sentinel)) as [Ht|Ht].
    + rewrite bool_decide_eq_true_2 by (now symmetry). cbn [andb].
      split; [reflexivity|]. split; [intros Hno; contradiction|].
      rewrite Ht. intros Heq. now apply sentinel_not_details.
    + rewrite bool_decide_eq_false_2 by (intros Heq; now apply Ht). cbn [andb].
      split; [reflexivity|]. split; [reflexivity|]. intros Heq. now apply Ht.
  - rewrite bool_decide_eq_false_2 by (intros Heq; now apply Hov). cbn [andb].
    split; [reflexivity|]. split; [reflexivity|]. intros Heq. now apply Hov.
Qed.

(** The abstract of the session with an implementation plan only. *)
Lemma abstract_when_only_paragraph_is_overview_witness :
  note_abstract ex_host ex_plan_only ex_hash = sentinel /\
  note_abstract ex_host ex_plan_only ex_hash <> note_overview ex_host ex_plan_only ex_hash.
Proof.
  assert (Honly : forall p,
             In p (paragraphs_in_order
                     [impl_content ex_plan_only; task_content ex_plan_only;
                      last_other_content ex_plan_only]) ->
             _is_valid_sentence (_clean_text p) = true ->
             flatten_text (_clean_text p) = overview_text ex_plan_only).
  { intros p Hp. each_paragraph Hp. }
  destruct (abstract_when_only_paragraph_is_overview ex_host ex_plan_only ex_hash Honly)
    as (_ & Hsent & Hdiff).
  split; [|exact Hdiff]. apply Hsent. vm_compute. discriminate.
Defined.

(** C4, as the specification states it, fails: the only valid paragraph
    of the plan is the overview, the conversion succeeds, and the abstract
    written is "See content below.", not "See details in Content
    section.". *)
Lemma abstract_is_extraction_sentinel :
  (forall p,
      In p (paragraphs_in_order
              [impl_content ex_plan_only; task_content ex_plan_only;
               last_other_content ex_plan_only]) ->
      _is_valid_sentence (_clean_text p) = true ->
      flatten_text (_clean_text p) = overview_text ex_plan_only) /\
  overview_text ex_plan_only = py "The plan migrates every module behind a feature flag." /\
  fst (convert_hash_folder ex_host [] (ex_world ex_plan_only ∅) ex_hash None) = true /\
  note_abstract ex_host ex_plan_only ex_hash = py "See content below." /\
  note_abstract ex_host ex_plan_only ex_hash <> py "See details in Content section.".
Proof.
  split; [intros p Hp; each_paragraph Hp|].
  split; [vm_compute; reflexivity|]. split; [vm_compute; reflexivity|].
  split; [vm_compute; reflexivity|]. vm_compute. discriminate.
Qed.

(** ** Session Converter: redaction *)

Lemma replace_from_sublist (old : pystr) (skip : nat) (t : pystr) :
  sublist (replace_from old [] skip t) t.
Proof.
  revert skip. induction t as [|c t IH]; intros skip; [constructor|].
  cbn [replace_from]. destruct skip as [|k].
  - destruct (starts_with old (c :: t)).
    + cbn [app]. apply sublist_cons, IH.
    + apply sublist_skip, IH.
  - apply sublist_cons, IH.
Qed.

Lemma flat_map_singleton (t : pystr) : flat_map (fun c => [c]) t = t.
Proof. induction t as [|c t IH]; [reflexivity|]. cbn. now rewrite IH. Qed.

Lemma str_replace_empty (t : pystr) : str_replace [] [] t = t.
Proof. unfold str_replace. cbn [app]. apply flat_map_singleton. Qed.

Lemma str_replace_sublist (old t : pystr) : sublist (str_replace old [] t) t.
Proof.
  destruct old as [|o old]; [now rewrite str_replace_empty|]. apply replace_from_sublist.
Qed.

Lemma sanitize_sublist (ignore_strings : list pystr) (t : pystr) :
  sublist (_sanitize_content ignore_strings t) t.
Proof.
  unfold _sanitize_content. revert t.
  induction ignore_strings as [|ignore_str ign IH]; intros t; [reflexivity|].
  cbn [fold_left]. etransitivity; [apply IH|apply str_replace_sublist].
Qed.

Lemma sublist_In (x : N) (l1 l2 : pystr) : sublist l1 l2 -> In x l1 -> In x l2.
Proof.
  induction 1 as [|y l1 l2 _ IH|y l1 l2 _ IH]; [intros []| |].
  - intros [<-|Hx]; [now left|right; now apply IH].
  - intros Hx. right. now apply IH.
Qed.

Lemma replace_char_absent (c : N) (t : pystr) : ~ In c (str_replace [c] [] t).
Proof.
  unfold str_replace. induction t as [|x t IH]; [intros []|].
  cbn [replace_from starts_with length Nat.sub]. rewrite andb_true_r.
  destruct (N.eqb_spec c x) as [->|Hne].
  - cbn [app]. exact IH.
  - intros [Heq|Hin]; [now apply Hne|now apply IH].
Qed.

Lemma sanitize_char_absent (ignore_strings : list pystr) (c : N) (t : pystr) :
  In [c] ignore_strings -> ~ In c (_sanitize_content ignore_strings t).
Proof.
  unfold _sanitize_content. revert t.
  induction ignore_strings as [|ignore_str ign IH]; intros t; [intros []|].
  cbn [fold_left]. intros [->|Hin]; [|now apply IH].
  intros Hc. apply (replace_char_absent c t).
  apply (sublist_In c _ _ (sanitize_sublist ign _) Hc).
Qed.

Lemma sanitize_redacted (ignore_strings : list pystr) (t : pystr) :
  redacted ignore_strings t (_sanitize_content ignore_strings t).
Proof.
  unfold _sanitize_content. revert t.
  induction ignore_strings as [|ignore_str ign IH]; intros t; [constructor|].
  cbn [fold_left]. destruct ignore_str as [|x ignore_str].
  - rewrite str_replace_empty. apply redacted_empty, IH.
  - apply (redacted_pass _ _ _ (str_replace (x :: ignore_str) [] t)).
    + discriminate.
    + apply replace_removes_all. discriminate.
    + apply IH.
Qed.

(** C3, as the source has it. When the conversion succeeds, the note is
    written under the file name of its title; its content section is the
    body after image relocation, then one deletion pass for each ignore
    string in list order, each pass deleting the occurrences that a scan
    from the left finds, then link rewriting.  The passes only delete, and
    an ignore string of a single character does not occur in the body
    after them. *)
Theorem redaction_of_content
    (H : Host) (ignore_strings : list pystr) (w w' : World) (hash_id : pystr)
    (timestamp : option Z)
    (Hok : convert_hash_folder H ignore_strings w hash_id timestamp = (true, w')) :
  exists s,
    lookup_session w hash_id = Some s /\
    let files := s_files s in
    let body := _process_images H hash_id (note_body H files hash_id) in
    let redacted_body := _sanitize_content ignore_strings body in
    notes w' !! note_filename (note_title H files hash_id) =
      Some (NOTE_TEMPLATE (note_title H files hash_id) (c_date_str H files) (date_at_end H)
              (note_overview H files hash_id) (note_abstract H files hash_id)
              (_convert_github_links redacted_body)) /\
    redacted ignore_strings body redacted_body /\
    sublist redacted_body body /\
    (forall c, In [c] ignore_strings -> ~ In c redacted_body).
Proof.
  unfold convert_hash_folder in Hok.
  destruct (lookup_session w hash_id) as [s|] eqn:Hs; [|discriminate].
  cbv zeta in Hok. exists s. split; [reflexivity|].
  destruct (is_default_title (note_title H (s_files s) hash_id)); [discriminate|].
  destruct (length (strip (note_body H (s_files s) hash_id)) <? 50); [discriminate|].
  destruct (can_write H (note_filename (note_title H (s_files s) hash_id)));
    [|discriminate].
  injection Hok as <-. cbv zeta. cbn [notes].
  split; [apply lookup_insert_eq|]. split; [apply sanitize_redacted|].
  split; [apply sanitize_sublist|]. intros c. apply sanitize_char_absent.
Qed.

(** The conversion of the example session with a one-character ignore
    string. *)
Lemma redaction_of_content_witness :
  exists s,
    lookup_session (ex_world ex_files ∅) ex_hash = Some s /\
    let files := s_files s in
    let body := _process_images ex_host ex_hash (note_body ex_host files ex_hash) in
    let redacted_body := _sanitize_content [py "k"] body in
    notes (snd (convert_hash_folder ex_host [py "k"] (ex_world ex_files ∅) ex_hash None))
      !! note_filename (note_title ex_host files ex_hash) =
      Some (NOTE_TEMPLATE (note_title ex_host files ex_hash) (c_date_str ex_host files)
              (date_at_end ex_host)
              (note_overview ex_host files ex_hash) (note_abstract ex_host files ex_hash)
              (_convert_github_links redacted_body)) /\
    redacted [py "k"] body redacted_body /\
    sublist redacted_body body /\
    (forall c, In [c] [py "k"] -> ~ In c redacted_body).
Proof.
  apply (redaction_of_content ex_host [py "k"] (ex_world ex_files ∅)
           (snd (convert_hash_folder ex_host [py "k"] (ex_world ex_files ∅) ex_hash None))
           ex_hash None).
  vm_compute. reflexivity.
Defined.

(** C3, as the specification states it, fails: the heading of the
    session has a word of the ignore list; the conversion succeeds and the
    word is in the note that is written, in its title line. *)
Lemma ignore_string_in_written_note :
  let result := convert_hash_folder ex_host [py "Secret"] (ex_world ex_secret ∅) ex_hash None in
  fst result = true /\
  exists note,
    notes (snd result) !! py "Secret-Rotation-Plan.md" = Some note /\
    str_in (py "Secret") note = true /\
    starts_with (py "# Secret Rotation Plan") note = true.
Proof.
  cbv zeta. split; [vm_compute; reflexivity|].
  exists (final_note ex_host [py "Secret"] ex_secret ex_hash).
  split; [vm_compute; reflexivity|]. split; vm_compute; reflexivity.
Qed.

(** A deletion pass can leave an occurrence: the two halves of one join
    when the occurrence between them is deleted. *)
Example sanitize_can_join : _sanitize_content [py "ab"] (py "aabb") = py "ab".
Proof. reflexivity. Qed.

(** * Further properties *)

(** ** Text Extractor: what a result looks like *)

Lemma drop_while_fixed (p : N -> bool) (s : pystr) :
  drop_while p (drop_while p s) = drop_while p s.
Proof.
  induction s as [|c s IH]; [reflexivity|]. cbn [drop_while].
  destruct (p c) eqn:Hc; [exact IH|]. cbn [drop_while]. now rewrite Hc.
Qed.

Lemma rstrip_split (s : pystr) :
  exists z, s = rstrip s ++ z /\ forallb is_space z = true.
Proof.
  exists (rev (take_while is_space (rev s))). split.
  - unfold rstrip. rewrite <- rev_app_distr, <- take_drop_while. now rewrite rev_involutive.
  - rewrite forallb_forall. intros c Hc. apply in_rev in Hc.
    pose proof (take_while_all is_space (rev s)) as Hall.
    rewrite forallb_forall in Hall. now apply Hall.
Qed.

Lemma rstrip_fixed (s : pystr) : rstrip (rstrip s) = rstrip s.
Proof. unfold rstrip. now rewrite rev_involutive, drop_while_fixed. Qed.

Lemma lstrip_rstrip (s : pystr) : lstrip (rstrip (lstrip s)) = rstrip (lstrip s).
Proof.
  destruct (rstrip_split (lstrip s)) as (z & Hz & _).
  destruct (rstrip (lstrip s)) as [|c r] eqn:Hr; [reflexivity|].
  unfold lstrip at 1. cbn [drop_while].
  assert (Hc : is_space c = false).
  { unfold lstrip in Hz. apply (drop_while_head is_space s c (r ++ z)). exact Hz. }
  now rewrite Hc.
Qed.

Lemma strip_fixed (s : pystr) : strip (strip s) = strip s.
Proof.
  unfold strip. rewrite lstrip_rstrip. apply rstrip_fixed.
Qed.

Lemma nl_to_sp_not_nl (c : N) : nl_to_sp c <> nl.
Proof.
  unfold nl_to_sp, is_nl. destruct (N.eqb_spec c nl) as [_|Hc]; [discriminate|exact Hc].
Qed.

Lemma first_qualifying_cases (content_list : list pystr) (exclude_text : option pystr) :
  first_qualifying content_list exclude_text = sentinel \/
  exists p,
    In p (paragraphs_in_order content_list) /\
    qualifies exclude_text p = true /\
    first_qualifying content_list exclude_text = flatten_text (_clean_text p).
Proof.
  unfold first_qualifying.
  destruct (List.find (qualifies exclude_text) (paragraphs_in_order content_list))
    as [p|] eqn:Hfind; [|now left].
  right. exists p. apply List.find_some in Hfind as [Hin Hq]. now repeat split.
Qed.

(** X1. What [_smart_extract] returns has at least 15 code points, has no
    line feed, and neither begins nor ends with white space, whatever the
    contents and the exclude text are. *)
Theorem smart_extract_one_line (content_list : list pystr) (exclude_text : option pystr) :
  15 <= length (_smart_extract content_list exclude_text) /\
  (forall c, In c (_smart_extract content_list exclude_text) -> c <> nl) /\
  strip (_smart_extract content_list exclude_text) = _smart_extract content_list exclude_text.
Proof.
  rewrite smart_extract_find.
  destruct (first_qualifying_cases content_list exclude_text)
    as [->|(p & _ & Hq & ->)].
  - split; [vm_compute; lia|]. split; [|reflexivity].
    intros c Hc ->. vm_compute in Hc. intuition discriminate.
  - unfold qualifies in Hq. apply andb_prop in Hq as [Hv _].
    rewrite flatten_text_map. split; [|split].
    + rewrite List.length_map. now apply valid_length.
    + intros c Hc. apply in_map_iff in Hc as (x & <- & _). apply nl_to_sp_not_nl.
    + rewrite (strip_map nl_to_sp _ is_space_nl_to_sp). now rewrite strip_fixed.
Qed.

Lemma smart_extract_not_excluded (content_list : list pystr) (e : pystr) :
  _smart_extract content_list (Some e) = e -> e = sentinel.
Proof.
  rewrite smart_extract_find.
  destruct (first_qualifying_cases content_list (Some e)) as [->|(p & _ & Hq & ->)].
  - intros <-. reflexivity.
  - intros He. unfold qualifies in Hq. apply andb_prop in Hq as [_ Hne].
    apply negb_true_iff in Hne. unfold str_eqb in Hne.
    apply bool_decide_eq_false in Hne. contradiction.
Qed.

(** X2. The extraction with an exclude text returns that text only if it
    is the sentinel, so the abstract extracted equals the overview
    extracted only when nothing was found for either.  The abstract
    written equals the overview written only if no overview was found and
    both the title and the extracted abstract are the text "See details
    in Content section.". *)
Theorem abstract_equals_overview_only_by_fallback :
  (forall content_list e, _smart_extract content_list (Some e) = e -> e = sentinel) /\
  (forall files, abstract_text files = overview_text files -> overview_text files = sentinel) /\
  (forall H files hash_id,
      note_abstract H files hash_id = note_overview H files hash_id ->
      overview_text files = sentinel /\
      note_title H files hash_id = details_fallback /\
      abstract_text files = details_fallback).
Proof.
  split; [exact smart_extract_not_excluded|]. split.
  - intros files. unfold abstract_text. apply smart_extract_not_excluded.
  - intros H files hash_id. unfold note_abstract, final_abstract, str_eqb.
    destruct (bool_decide_reflect (abstract_text files = note_overview H files hash_id))
      as [Hab|Hab]; [|intros Heq; contradiction].
    intros Hdet. unfold note_overview, final_overview, str_eqb in Hab, Hdet.
    destruct (bool_decide_reflect (overview_text files = sentinel)) as [Hov|Hov].
    + split; [exact Hov|]. split; [now symmetry|]. now rewrite Hab.
    + exfalso. apply Hov. unfold abstract_text in Hab.
      apply (smart_extract_not_excluded _ _ Hab).
Qed.

(** ** Session Converter: the sanitized title *)

Lemma replace_char_map (a b : N) (t : pystr) :
  str_replace [a] [b] t = List.map (fun c => if N.eqb c a then b else c) t.
Proof.
  unfold str_replace. induction t as [|c t IH]; [reflexivity|].
  cbn [replace_from starts_with length Nat.sub List.map].
  rewrite andb_true_r, (N.eqb_sym c a).
  destruct (N.eqb a c); cbn [app]; now rewrite IH.
Qed.

(** Passing over [x] under a skip count of the length of [x]. *)
Lemma re_sub_from_skip (m : matcher pystr) (bol : bool) (x y : pystr) :
  re_sub_from m bol (length x) (x ++ y) = re_sub_from m (line_start_after bol x) 0 y.
Proof.
  revert bol. induction x as [|c x IH]; intros bol; [reflexivity|].
  cbn [length app re_sub_from]. rewrite IH. now rewrite line_start_after_cons.
Qed.

Lemma re_sub_illegal_filter (bol : bool) (t : pystr) :
  re_sub_from illegal_char bol 0 t = List.filter (fun c => negb (is_illegal c)) t.
Proof.
  revert bol. induction t as [|c t IH]; intros bol; [reflexivity|].
  cbn [re_sub_from illegal_char List.filter].
  destruct (is_illegal c); cbn [negb app Nat.sub]; now rewrite IH.
Qed.

Lemma hyphens_apart_no_pair (s : pystr) :
  hyphens_apart s = true -> str_in (py "--") s = false.
Proof.
  induction s as [|a s IH]; [reflexivity|].
  cbn [hyphens_apart]. intros Hs. apply andb_prop in Hs as [Hab Hs].
  cbn [str_in]. rewrite (IH Hs), orb_false_r.
  change (py "--") with [ch "-"; ch "-"]. cbn [starts_with].
  destruct s as [|b s]; [now rewrite andb_false_r|].
  rewrite andb_true_r. unfold is_ch in Hab.
  rewrite (N.eqb_sym (ch "-") a), (N.eqb_sym (ch "-") b).
  now apply negb_true_iff in Hab.
Qed.

Lemma drop_while_length (p : N -> bool) (s : pystr) : length (drop_while p s) <= length s.
Proof.
  induction s as [|c s IH]; [reflexivity|]. cbn [drop_while].
  destruct (p c); cbn [length]; lia.
Qed.

Lemma drop_while_In (p : N -> bool) (s : pystr) (c : N) : In c (drop_while p s) -> In c s.
Proof.
  induction s as [|x s IH]; [intros []|]. cbn [drop_while].
  destruct (p x); [intros Hc; right; now apply IH|exact id].
Qed.

Lemma re_sub_from_run (m : matcher pystr) (bol : bool) (p : N -> bool) (t : pystr) :
  re_sub_from m bol (length (take_while p t)) t =
  re_sub_from m (line_start_after bol (take_while p t)) 0 (drop_while p t).
Proof. rewrite <- re_sub_from_skip. now rewrite <- take_drop_while. Qed.

Lemma hyphen_run_cons (bol : bool) (c : N) (t : pystr) :
  hyphen_run bol (c :: t) =
  if is_ch "-" c then Some (py "-", S (length (take_while (is_ch "-") t))) else None.
Proof. unfold hyphen_run. cbn [take_while]. now destruct (is_ch "-" c). Qed.

(** Collapsing the runs of hyphens: the result has no two hyphens side by
    side, brings no new code point, and starts with a hyphen only if the
    text does. *)
Lemma re_sub_hyphen_run (n : nat) (bol : bool) (t : pystr) :
  length t <= n ->
  hyphens_apart (re_sub_from hyphen_run bol 0 t) = true /\
  (forall c, In c (re_sub_from hyphen_run bol 0 t) -> In c t) /\
  (forall c r, re_sub_from hyphen_run bol 0 t = c :: r -> exists r', t = c :: r').
Proof.
  revert bol t. induction n as [|n IH]; intros bol t Hlen.
  - destruct t; [|cbn in Hlen; lia]. repeat split; [intros c []|discriminate].
  - destruct t as [|c t]; [repeat split; [intros x []|discriminate]|].
    cbn [length] in Hlen. cbn [re_sub_from]. rewrite hyphen_run_cons.
    destruct (is_ch "-" c) eqn:Hc.
    + replace (S (length (take_while (is_ch "-") t)) - 1)
        with (length (take_while (is_ch "-") t)) by lia.
      rewrite re_sub_from_run.
      set (rest := drop_while (is_ch "-") t).
      set (bol' := line_start_after (is_nl c) (take_while (is_ch "-") t)).
      destruct (IH bol' rest) as (Hap & Hin & Hhead).
      { pose proof (drop_while_length (is_ch "-") t). subst rest. lia. }
      change (py "-" ++ re_sub_from hyphen_run bol' 0 rest)
        with (ch "-" :: re_sub_from hyphen_run bol' 0 rest).
      apply N.eqb_eq in Hc. subst c. split; [|split].
      * cbn [hyphens_apart]. rewrite Hap, andb_true_r.
        destruct (re_sub_from hyphen_run bol' 0 rest) as [|b r] eqn:Hr; [reflexivity|].
        destruct (Hhead b r eq_refl) as [r' Hrest].
        apply drop_while_head in Hrest. now rewrite Hrest, andb_false_r.
      * intros x [<-|Hx]; [now left|]. right. apply Hin in Hx.
        subst rest. now apply drop_while_In in Hx.
      * intros x r [= <- _]. now exists t.
    + destruct (IH (is_nl c) t) as (Hap & Hin & Hhead); [lia|]. split; [|split].
      * cbn [hyphens_apart]. rewrite Hap, Hc, andb_true_r.
        now destruct (re_sub_from hyphen_run (is_nl c) 0 t).
      * intros x [<-|Hx]; [now left|right; now apply Hin].
      * intros x r [= <- _]. now exists t.
Qed.

Lemma replace_from_In (old new : pystr) (skip : nat) (t : pystr) (c : N) :
  In c (replace_from old new skip t) -> In c new \/ In c t.
Proof.
  revert skip. induction t as [|x t IH]; intros skip; [intros []|].
  cbn [replace_from]. destruct skip as [|k].
  - destruct (starts_with old (x :: t)).
    + intros Hc. apply in_app_or in Hc as [Hc|Hc]; [now left|].
      apply IH in Hc as [Hc|Hc]; [now left|right; now right].
    + intros [<-|Hc]; [right; now left|].
      apply IH in Hc as [Hc|Hc]; [now left|right; now right].
  - intros Hc. apply IH in Hc as [Hc|Hc]; [now left|right; now right].
Qed.

(** X3. The sanitized title has none of the characters illegal in file
    names, no space, no underscore and no two hyphens side by side; each
    of its code points is a hyphen or a code point of the title. *)
Theorem safe_title_clean (title : pystr) :
  (forall c, In c (safe_title title) ->
             is_illegal c = false /\ c <> ch " " /\ c <> ch "_" /\
             (c = ch "-" \/ In c title)) /\
  str_in (py "--") (safe_title title) = false.
Proof.
  unfold safe_title.
  change (py "_") with [ch "_"]. change (py " ") with [ch " "]. change (py "-") with [ch "-"].
  rewrite !replace_char_map. unfold re_sub. rewrite re_sub_illegal_filter.
  set (t1 := List.filter _ _).
  destruct (re_sub_hyphen_run (length t1) true t1 (le_n _)) as (Hap & Hin & _).
  split; [|now apply hyphens_apart_no_pair].
  intros c Hc. apply Hin in Hc. subst t1.
  apply filter_In in Hc as [Hc Hill]. apply negb_true_iff in Hill.
  apply in_map_iff in Hc as (x & Hx & Hc).
  apply in_map_iff in Hc as (y & Hy & Hc).
  assert (Hy' : y = ch "-" \/ In y title).
  { apply (replace_from_In (py "_-_") [ch "-"] 0 title y) in Hc as [[<-|[]]|Hc];
      [now left|now right]. }
  split; [exact Hill|]. clear Hill.
  destruct (N.eqb_spec y (ch "_")) as [Hu|Hu].
  - subst x c. repeat split; try discriminate. now left.
  - subst x. destruct (N.eqb_spec y (ch " ")) as [Hs|Hs].
    + subst c. repeat split; try discriminate. now left.
    + subst c. repeat split; assumption.
Qed.

(** ** Session Converter: what a conversion touches *)

Lemma record_timestamp_other (st : gmap pystr Z) (hash_id h : pystr) (timestamp : option Z) :
  h <> hash_id -> record_timestamp st hash_id timestamp !! h = st !! h.
Proof.
  intros Hne. unfold record_timestamp. destruct timestamp as [t|]; [|reflexivity].
  destruct (timestamp_given (Some t)); [|reflexivity].
  unfold update. apply lookup_insert_ne. congruence.
Qed.

(** The four ways a conversion ends. *)
Lemma convert_cases (H : Host) (ignore_strings : list pystr) (w : World)
    (hash_id : pystr) (timestamp : option Z) :
  (lookup_session w hash_id = None /\
   convert_hash_folder H ignore_strings w hash_id timestamp = (false, w)) \/
  exists s,
    lookup_session w hash_id = Some s /\
    let title := note_title H (s_files s) hash_id in
    let body := note_body H (s_files s) hash_id in
    ((is_default_title title = true \/ length (strip body) < 50) /\
     convert_hash_folder H ignore_strings w hash_id timestamp
     = (false, mark_processed w hash_id timestamp)) \/
    (is_default_title title = false /\ 50 <= length (strip body) /\
     can_write H (note_filename title) = false /\
     convert_hash_folder H ignore_strings w hash_id timestamp = (false, w)) \/
    (is_default_title title = false /\ 50 <= length (strip body) /\
     can_write H (note_filename title) = true /\
     convert_hash_folder H ignore_strings w hash_id timestamp
     = (true,
        {| brain := brain w;
           notes := <[note_filename title := final_note H ignore_strings (s_files s) hash_id]>
                      (notes w);
           state := record_timestamp (state w) hash_id timestamp |})).
Proof.
  unfold convert_hash_folder.
  destruct (lookup_session w hash_id) as [s|]; [|left; now split].
  right. exists s. split; [reflexivity|]. cbv zeta.
  destruct (is_default_title (note_title H (s_files s) hash_id)) eqn:Hd.
  { left. split; [now left|reflexivity]. }
  destruct (Nat.ltb_spec (length (strip (note_body H (s_files s) hash_id))) 50) as [Hlen|Hlen].
  { left. split; [now right|reflexivity]. }
  right. destruct (can_write H (note_filename (note_title H (s_files s) hash_id))) eqn:Hw.
  - right. now repeat split.
  - left. now repeat split.
Qed.

(** X4. What a conversion that returns true has done.  It returns true
    only for a session that exists, whose title is not of the default
    pattern and whose stripped content has at least 50 characters; the
    note file named after the sanitized title then holds the rendered
    note, no other note file has changed, and the time is stored when
    one is given.  Whatever the conversion returns, the brain is as
    before, and so is the stored time of every other session. *)
Theorem convert_true_means_written (H : Host) (ignore_strings : list pystr) (w : World)
    (hash_id : pystr) (timestamp : option Z) :
  let result := convert_hash_folder H ignore_strings w hash_id timestamp in
  (fst result = true ->
   exists s,
     lookup_session w hash_id = Some s /\
     is_default_title (note_title H (s_files s) hash_id) = false /\
     50 <= length (strip (note_body H (s_files s) hash_id)) /\
     notes (snd result)
     = <[note_filename (note_title H (s_files s) hash_id)
         := final_note H ignore_strings (s_files s) hash_id]> (notes w) /\
     state (snd result) = record_timestamp (state w) hash_id timestamp) /\
  brain (snd result) = brain w /\
  (forall h, h <> hash_id -> state (snd result) !! h = state w !! h).
Proof.
  cbv zeta.
  destruct (convert_cases H ignore_strings w hash_id timestamp)
    as [[Hnone ->]|(s & Hs & [[Hrej ->]|[(Hd & Hlen & Hw & ->)|(Hd & Hlen & Hw & ->)]])];
    cbn [fst snd brain notes state mark_processed].
  - split; [discriminate|]. now split.
  - split; [discriminate|]. split; [reflexivity|].
    intros h Hh. now apply record_timestamp_other.
  - split; [discriminate|]. now split.
  - split; [|split; [reflexivity|]].
    + intros _. exists s. now repeat split.
    + intros h Hh. now apply record_timestamp_other.
Qed.

Lemma convert_true_means_written_witness :
  let result := convert_hash_folder ex_host [] (ex_world ex_files ∅) ex_hash
                  (Some 1714521600%Z) in
  fst result = true /\
  notes (snd result) !! py "Cache-Layer-Redesign.md"
  = Some (final_note ex_host [] ex_files ex_hash).
Proof.
  cbv zeta.
  assert (Htrue : fst (convert_hash_folder ex_host [] (ex_world ex_files ∅) ex_hash
                         (Some 1714521600%Z)) = true) by (vm_compute; reflexivity).
  split; [exact Htrue|].
  destruct (proj1 (convert_true_means_written ex_host [] (ex_world ex_files ∅) ex_hash
                     (Some 1714521600%Z)) Htrue)
    as (s & Hs & _ & _ & Hnotes & _).
  assert (Hs' : lookup_session (ex_world ex_files ∅) ex_hash
                = Some {| s_name := ex_hash; s_mtime := 1714521000; s_files := ex_files |})
    by reflexivity.
  rewrite Hs' in Hs. injection Hs as <-. rewrite Hnotes.
  cbn [s_files].
  assert (Hname : note_filename (note_title ex_host ex_files ex_hash)
                  = py "Cache-Layer-Redesign.md") by (vm_compute; reflexivity).
  rewrite Hname. apply lookup_insert_eq.
Defined.

(** ** Session Converter: a session without a heading *)

Lemma default_title_pattern (hash_id : pystr) :
  is_default_title (py "Note-" ++ take 8 hash_id) =
  match hash_id with
  | c :: _ => is_hex c
  | [] => false
  end.
Proof. destruct hash_id as [|c r]; reflexivity. Qed.

(** X5. When the assembled content has no level-1 heading, the title is
    "Note-" and the first eight characters of the session identifier, and
    the content is left as assembled; that title has the default pattern
    exactly when the identifier starts with a hexadecimal digit.  So a
    session without a heading whose identifier starts with such a digit
    is never written: the conversion returns false and leaves the notes
    as they are. *)
Theorem session_without_heading (H : Host) (ignore_strings : list pystr) (w : World)
    (hash_id : pystr) (timestamp : option Z) (s : Session)
    (Hs : lookup_session w hash_id = Some s)
    (Hnone : re_search heading_line (full_raw_content H (s_files s)) = None) :
  note_title H (s_files s) hash_id = py "Note-" ++ take 8 hash_id /\
  note_body H (s_files s) hash_id = full_raw_content H (s_files s) /\
  is_default_title (note_title H (s_files s) hash_id) =
    match hash_id with
    | c :: _ => is_hex c
    | [] => false
    end /\
  (forall c r, hash_id = c :: r -> is_hex c = true ->
     fst (convert_hash_folder H ignore_strings w hash_id timestamp) = false /\
     notes (snd (convert_hash_folder H ignore_strings w hash_id timestamp)) = notes w).
Proof.
  assert (Ht : note_title H (s_files s) hash_id = py "Note-" ++ take 8 hash_id)
    by (unfold note_title, extract_title; now rewrite Hnone).
  split; [exact Ht|].
  split; [unfold note_body, extract_title; now rewrite Hnone|].
  split; [rewrite Ht; apply default_title_pattern|].
  intros c r -> Hc.
  rewrite (convert_rejected H ignore_strings w (c :: r) timestamp s Hs).
  - now split.
  - left. rewrite Ht. now rewrite default_title_pattern.
Qed.

Lemma session_without_heading_witness :
  note_title ex_host ex_no_heading ex_hash = py "Note-3f9c2d7e" /\
  fst (convert_hash_folder ex_host [] (ex_world ex_no_heading ∅) ex_hash (Some 1714521600%Z))
  = false.
Proof.
  pose proof (session_without_heading ex_host [] (ex_world ex_no_heading ∅) ex_hash
                (Some 1714521600%Z)
                {| s_name := ex_hash; s_mtime := 1714521000; s_files := ex_no_heading |}
                eq_refl eq_refl) as (Ht & _ & _ & Hrej).
  split; [exact Ht|].
  exact (proj1 (Hrej _ _ eq_refl eq_refl)).
Defined.

(** ** Session Converter: images, links and redaction that find nothing *)

(** A substitution that puts back what it matched, wherever it matches
    in the text, changes nothing. *)
Lemma re_sub_puts_back (m : matcher pystr) :
  forall k bol t,
    length t <= k ->
    (forall a b bol' repl n,
        t = a ++ b -> m bol' b = Some (repl, n) -> 1 <= n <= length b /\ repl = take n b) ->
    re_sub_from m bol 0 t = t.
Proof.
  intros k. induction k as [|k IH]; intros bol t Hlen Hm.
  - destruct t; [reflexivity|cbn in Hlen; lia].
  - destruct t as [|c t]; [reflexivity|]. cbn [length] in Hlen. cbn [re_sub_from].
    destruct (m bol (c :: t)) as [[repl n]|] eqn:Hmatch.
    + destruct (Hm [] _ _ _ _ eq_refl Hmatch) as [[Hn1 Hn2] ->]. cbn [length] in Hn2.
      destruct n as [|n]; [lia|]. cbn [take Nat.sub]. rewrite Nat.sub_0_r.
      cbn [app]. f_equal.
      assert (Hrest : re_sub_from m (is_nl c) n t = drop n t).
      { transitivity (re_sub_from m (is_nl c) (length (take n t)) (take n t ++ drop n t)).
        - rewrite take_drop, length_take. f_equal. lia.
        - rewrite re_sub_from_skip. apply IH; [rewrite length_drop; lia|].
          intros a b bol' repl' n' Hab. apply (Hm (c :: take n t ++ a)).
          cbn [app]. rewrite <- app_assoc, <- Hab. now rewrite take_drop. }
      rewrite Hrest. apply take_drop.
    + f_equal. apply IH; [lia|].
      intros a b bol' repl' n' ->. now apply (Hm (c :: a)).
Qed.

Lemma lazy_until_split (d t g : pystr) :
  lazy_until d t = Some g -> exists r, t = g ++ d ++ r.
Proof. intros Hg. now destruct (lazy_until_spec d t g Hg) as (Hr & _). Qed.

Lemma image_ref_length (H : Host) (session : pystr) (bol : bool) (t repl : pystr) (n : nat) :
  image_ref H session bol t = Some (repl, n) ->
  1 <= n <= length t /\
  exists alt src rest,
    t = py "![" ++ alt ++ py "](" ++ src ++ py ")" ++ rest /\
    repl = replace_img H session alt src (take n t).
Proof.
  unfold image_ref. destruct t as [|a [|b r]]; try discriminate.
  destruct (is_ch "!" a && is_ch "[" b) eqn:Hab; [|discriminate].
  apply andb_prop in Hab as [Ha Hb]. apply N.eqb_eq in Ha, Hb. subst a b.
  destruct (lazy_until (py "](") r) as [alt|] eqn:Halt; [|discriminate].
  destruct (lazy_until (py ")") (drop (length alt + 2) r)) as [src|] eqn:Hsrc; [|discriminate].
  intros [= <- <-].
  apply lazy_until_split in Halt as [r1 Hr1].
  apply lazy_until_split in Hsrc as [r2 Hr2].
  assert (Hr2' : r1 = src ++ py ")" ++ r2).
  { rewrite <- Hr2, Hr1. rewrite app_assoc, drop_app_length'; [reflexivity|].
    rewrite length_app. reflexivity. }
  split; [|exists alt, src, r2; split; [|reflexivity]].
  - pose proof (f_equal (@length N) Hr1) as Hl1.
    pose proof (f_equal (@length N) Hr2') as Hl2.
    rewrite !length_app in Hl1, Hl2.
    change (length (py "](")) with 2 in Hl1. change (length (py ")")) with 1 in Hl2.
    cbn [length]. lia.
  - rewrite Hr1, Hr2'. reflexivity.
Qed.

Lemma starts_with_before (p s r : pystr) (d : N) :
  ~ In d p -> starts_with p (s ++ d :: r) = true -> starts_with p s = true.
Proof.
  revert s. induction p as [|x p IH]; intros s Hd; [reflexivity|].
  destruct s as [|c s]; cbn [app starts_with].
  - intros Hs. apply andb_prop in Hs as [Hx _]. apply N.eqb_eq in Hx.
    exfalso. apply Hd. now left.
  - intros Hs. apply andb_prop in Hs as [-> Hs]. cbn [andb].
    apply IH; [|exact Hs]. intros Hin. apply Hd. now right.
Qed.

Lemma each_after_spec (d : pystr) (p : pystr -> bool) (t : pystr) :
  each_after d p t = true -> forall a b, t = a ++ d ++ b -> p b = true.
Proof.
  induction t as [|c t IH]; intros Hall a b Hab.
  - destruct a; [|discriminate]. cbn [app] in Hab.
    destruct d; [|discriminate]. cbn [app] in Hab. subst b.
    cbn in Hall. now apply andb_prop in Hall as [? _].
  - cbn [each_after] in Hall. apply andb_prop in Hall as [Hhere Hrest].
    destruct a as [|x a].
    + cbn [app] in Hab. rewrite Hab in Hhere.
      rewrite (proj2 (starts_with_app d (d ++ b))) in Hhere by now exists b.
      now rewrite drop_app_length in Hhere.
    + injection Hab as _ Hab. now apply (IH Hrest a b).
Qed.

(** The callback puts the match back when the source is a web address. *)
Lemma image_ref_web (H : Host) (session content : pystr) :
  (forall a b, content = a ++ py "](" ++ b -> starts_with (py "http") b = true) ->
  forall a b bol repl n,
    content = a ++ b -> image_ref H session bol b = Some (repl, n) ->
    1 <= n <= length b /\ repl = take n b.
Proof.
  intros Hweb a b bol repl n Hab Hm.
  destruct (image_ref_length _ _ _ _ _ _ Hm) as (Hn & alt & src & rest & Hb & ->).
  split; [exact Hn|].
  assert (Hsrc : starts_with (py "http") src = true).
  { apply (starts_with_before _ _ rest (ch ")")).
    - intros [Hc|[Hc|[Hc|[Hc|[]]]]]; discriminate Hc.
    - apply (Hweb (a ++ py "![" ++ alt)). rewrite Hab, Hb. now rewrite <- !app_assoc. }
  unfold replace_img. now rewrite Hsrc.
Qed.

(** X6. Web images are left alone, whatever the file system holds: a
    content in which every [](] is followed by [http], so that every
    image reference has a web address as its source, is returned
    unchanged by [_process_images], for every host. *)
Theorem web_images_left_alone (H : Host) (session content : pystr)
    (Hweb : forall a b, content = a ++ py "](" ++ b -> starts_with (py "http") b = true) :
  _process_images H session content = content.
Proof.
  unfold _process_images, re_sub.
  apply (re_sub_puts_back (image_ref H session) (length content)); [lia|].
  now apply image_ref_web.
Qed.

Lemma web_images_left_alone_witness :
  _process_images ex_host_images ex_hash ex_web_image = ex_web_image.
Proof.
  apply (web_images_left_alone ex_host_images ex_hash ex_web_image).
  apply (each_after_spec (py "](") (starts_with (py "http"))).
  vm_compute. reflexivity.
Defined.

Lemma convert_github_links_replace (text : pystr) :
  _convert_github_links text =
  str_replace (py "file://" ++ LOCAL_REPO_PATH)
              (GITHUB_REPO_BASE ++ py "/" ++ GITHUB_BRANCH ++ py "/") text.
Proof.
  unfold _convert_github_links. cbv zeta.
  destruct (str_in (py "file://" ++ LOCAL_REPO_PATH) text) eqn:Hin; [reflexivity|].
  symmetry. apply replace_from_none. intros Ho.
  apply str_in_occurs in Ho; [congruence|discriminate].
Qed.

Lemma sanitize_nothing (ignore_strings : list pystr) (t : pystr) :
  (forall s, In s ignore_strings -> s <> [] -> ~ occurs s t) ->
  _sanitize_content ignore_strings t = t.
Proof.
  unfold _sanitize_content.
  induction ignore_strings as [|s ign IH]; intros Hno; [reflexivity|].
  cbn [fold_left].
  assert (Hs : str_replace s [] t = t).
  { destruct s as [|x s]; [apply str_replace_empty|].
    apply replace_from_none. apply Hno; [now left|discriminate]. }
  rewrite Hs. apply IH. intros s' Hs'. apply Hno. now right.
Qed.

(** X7. Step 6 of the conversion changes a content only where it finds
    something: when every [](] of the content is followed by [http], no
    ignore string occurs in the content and the content has no link into
    the local repository, the content of the note is the content as
    assembled, for every host. *)
Theorem processed_content_unchanged (H : Host) (ignore_strings : list pystr)
    (session raw : pystr)
    (Hweb : forall a b, raw = a ++ py "](" ++ b -> starts_with (py "http") b = true)
    (Hign : forall s, In s ignore_strings -> s <> [] -> ~ occurs s raw)
    (Hlink : ~ occurs (py "file://" ++ LOCAL_REPO_PATH) raw) :
  processed_content H ignore_strings session raw = raw.
Proof.
  unfold processed_content, _process_images, re_sub.
  rewrite (re_sub_puts_back (image_ref H session) (length raw) true raw)
    by (try lia; now apply image_ref_web).
  rewrite (sanitize_nothing ignore_strings raw Hign).
  rewrite convert_github_links_replace. now apply replace_from_none.
Qed.

Lemma processed_content_unchanged_witness :
  processed_content ex_host_images [py "Secret"; []] ex_hash ex_web_image = ex_web_image.
Proof.
  apply (processed_content_unchanged ex_host_images [py "Secret"; []] ex_hash ex_web_image).
  - apply (each_after_spec (py "](") (starts_with (py "http"))). vm_compute. reflexivity.
  - intros s [<-|[<-|[]]] Hne Hocc; [|now apply Hne].
    apply str_in_occurs in Hocc; [|exact Hne]. vm_compute in Hocc. discriminate Hocc.
  - intros Hocc. apply str_in_occurs in Hocc; [|discriminate].
    vm_compute in Hocc. discriminate Hocc.
Defined.

(** ** [str.replace] with a replacement that cannot rebuild the text *)

Lemma compatible_app (u v p q : pystr) : u ++ p = v ++ q -> compatible u v = true.
Proof.
  intros Heq. unfold compatible. apply app_eq_app in Heq as [l [[-> _]|[-> _]]].
  - apply orb_true_iff. right. apply starts_with_app. now exists l.
  - apply orb_true_iff. left. apply starts_with_app. now exists l.
Qed.

Lemma no_overlap_inside (old new l l' : pystr) :
  no_overlap old new = true -> new = l ++ l' -> l' <> [] -> compatible l' old = false.
Proof.
  intros Hno -> Hl'. unfold no_overlap in Hno. apply andb_prop in Hno as [Hno _].
  rewrite forallb_forall in Hno. specialize (Hno (length l)).
  rewrite drop_app_length in Hno. apply negb_true_iff, Hno, in_seq.
  rewrite length_app. destruct l'; [contradiction|cbn [length]; lia].
Qed.

Lemma no_overlap_before (old new l l' : pystr) :
  no_overlap old new = true -> old = l ++ l' -> l <> [] -> l' <> [] ->
  compatible l' new = false.
Proof.
  intros Hno -> Hl Hl'. unfold no_overlap in Hno. apply andb_prop in Hno as [_ Hno].
  rewrite forallb_forall in Hno. specialize (Hno (length l)).
  rewrite drop_app_length in Hno. apply negb_true_iff, Hno, in_seq.
  rewrite length_app. destruct l; [contradiction|]. destruct l'; [contradiction|].
  cbn [length]. lia.
Qed.

Lemma occurs_extend (old a z : pystr) : occurs old a -> occurs old (a ++ z).
Proof.
  intros (x & y & ->). exists x, (y ++ z). now rewrite <- !app_assoc.
Qed.

(** Putting [new] for the leftmost occurrence leaves no occurrence, when
    the rest has none. *)
Lemma no_occurrence_after_one (old new a r : pystr) :
  no_overlap old new = true ->
  ~ occurs old (a ++ removelast old) ->
  ~ occurs old r ->
  ~ occurs old (a ++ new ++ r).
Proof.
  intros Hno Hleft Hr (x & y & Heq).
  apply app_eq_app in Heq as [l [[Ha Hrest]|[Hx Hrest]]].
  - (* the occurrence begins in [a] *)
    destruct l as [|c l].
    + cbn [app] in Hrest. rewrite app_nil_r in Ha. subst x.
      destruct new as [|n new].
      * cbn [app] in Hrest. apply Hr. exists [], y. now rewrite Hrest.
      * pose proof (no_overlap_inside old (n :: new) [] (n :: new) Hno eq_refl) as Hc.
        rewrite (compatible_app (n :: new) old r y) in Hc by (now rewrite Hrest).
        now specialize (Hc ltac:(discriminate)).
    + apply app_eq_app in Hrest as [l' [[Hold Hnew]|[Hl Hy]]].
      * destruct l' as [|c' l'].
        { rewrite app_nil_r in Hold. apply Hleft, occurs_extend.
          exists x, []. now rewrite Ha, Hold, app_nil_r. }
        pose proof (no_overlap_before old new (c :: l) (c' :: l') Hno Hold) as Hc.
        rewrite (compatible_app (c' :: l') new y r) in Hc by (now rewrite Hnew).
        now specialize (Hc ltac:(discriminate) ltac:(discriminate)).
      * apply Hleft, occurs_extend. exists x, l'. now rewrite Ha, Hl.
  - (* the occurrence begins in [new] or after it *)
    apply app_eq_app in Hrest as [l' [[Hnew Hold]|[Hl Hrb]]].
    + destruct l' as [|c' l'].
      * cbn [app] in Hold. apply Hr. exists [], y. now rewrite Hold.
      * pose proof (no_overlap_inside old new l (c' :: l') Hno Hnew) as Hc.
        rewrite (compatible_app (c' :: l') old r y) in Hc by (now rewrite Hold).
        now specialize (Hc ltac:(discriminate)).
    + apply Hr. exists l', y. exact Hrb.
Qed.

Lemma replace_leaves_none (old new t : pystr) :
  old <> [] -> no_overlap old new = true -> ~ occurs old (str_replace old new t).
Proof.
  intros Hold Hno.
  assert (Hrep : str_replace old new t = replace_from old new 0 t)
    by (destruct old; [contradiction|reflexivity]).
  rewrite Hrep. clear Hrep.
  remember (length t) as n eqn:Hn. revert t Hn.
  induction n as [n IH] using lt_wf_ind. intros t Hn.
  destruct (str_in old t) eqn:Hin.
  - apply (str_in_occurs old t Hold) in Hin.
    destruct (leftmost_occurrence old t Hold Hin) as (a & b & -> & Hleft).
    rewrite (replace_from_leftmost old new a b Hold Hleft).
    apply no_occurrence_after_one; [exact Hno|exact Hleft|].
    apply (IH (length b)); [|reflexivity].
    subst n. rewrite !length_app. destruct old; [contradiction|cbn [length]; lia].
  - assert (Hnone : ~ occurs old t).
    { intros Ho. apply (str_in_occurs old t Hold) in Ho. congruence. }
    now rewrite (replace_from_none old new t Hnone).
Qed.

(** X8. After [_convert_github_links] the text has no link into the local
    repository left: the prefix "file://" followed by the local path does
    not occur in it, and a text without that prefix is returned as it
    is. *)
Theorem convert_github_links_complete (text : pystr) :
  str_in (py "file://" ++ LOCAL_REPO_PATH) (_convert_github_links text) = false /\
  (str_in (py "file://" ++ LOCAL_REPO_PATH) text = false -> _convert_github_links text = text).
Proof.
  split.
  - rewrite convert_github_links_replace.
    destruct (str_in _ (str_replace _ _ text)) eqn:Hin; [|reflexivity].
    apply str_in_occurs in Hin; [|discriminate].
    apply replace_leaves_none in Hin; [destruct Hin|discriminate|vm_compute; reflexivity].
  - intros Hin. unfold _convert_github_links. cbv zeta. now rewrite Hin.
Qed.

(** ** Converting and scanning again *)

Lemma record_timestamp_twice (st : gmap pystr Z) (hash_id : pystr) (timestamp : option Z) :
  record_timestamp (record_timestamp st hash_id timestamp) hash_id timestamp
  = record_timestamp st hash_id timestamp.
Proof.
  unfold record_timestamp. destruct timestamp as [t|]; [|reflexivity].
  destruct (timestamp_given (Some t)); [|reflexivity].
  unfold update. apply insert_insert_eq.
Qed.

(** Converting a session again, with the same host, ignore list and
    timestamp, returns the same flag and leaves the world that the first
    conversion left: the note is overwritten by the same text and the
    same time is recorded. *)
Lemma convert_hash_folder_again (H : Host) (ignore_strings : list pystr) (w : World)
    (hash_id : pystr) (timestamp : option Z) :
  let first := convert_hash_folder H ignore_strings w hash_id timestamp in
  convert_hash_folder H ignore_strings (snd first) hash_id timestamp = first.
Proof.
  cbv zeta.
  destruct (convert_cases H ignore_strings w hash_id timestamp)
    as [[Hnone Hc]|(s & Hs & [[Hrej Hc]|[(Hd & Hlen & Hw & Hc)|(Hd & Hlen & Hw & Hc)]])];
    rewrite Hc; cbn [snd]; try exact Hc.
  - rewrite (convert_rejected H ignore_strings _ hash_id timestamp s);
      [|exact Hs|exact Hrej].
    unfold mark_processed. cbn [brain notes state]. now rewrite record_timestamp_twice.
  - match goal with |- convert_hash_folder _ _ ?w1 _ _ = _ =>
      assert (Hs1 : lookup_session w1 hash_id = Some s) by exact Hs
    end.
    unfold convert_hash_folder. rewrite Hs1. cbv zeta.
    rewrite Hd. destruct (Nat.ltb_spec (length (strip (note_body H (s_files s) hash_id))) 50);
      [lia|].
    rewrite Hw. cbn [brain notes state].
    now rewrite insert_insert_eq, record_timestamp_twice.
Qed.

Lemma scan_folder_cases (H : Host) (ignore_strings : list pystr) (w : World) (s : Session) :
  (should_process (state w) (s_name s) (max_file_mtime s) = false /\
   scan_folder H ignore_strings w s = w) \/
  (should_process (state w) (s_name s) (max_file_mtime s) = true /\
   scan_folder H ignore_strings w s
   = snd (convert_hash_folder H ignore_strings w (s_name s) (Some (max_file_mtime s)))).
Proof.
  unfold scan_folder.
  destruct (should_process (state w) (s_name s) (max_file_mtime s)); [right|left]; now split.
Qed.

(** X9. Scanning a folder a second time, with nothing changed on disk,
    leaves the world of the first scan. *)
Theorem scan_folder_again (H : Host) (ignore_strings : list pystr) (w : World) (s : Session) :
  scan_folder H ignore_strings (scan_folder H ignore_strings w s) s
  = scan_folder H ignore_strings w s.
Proof.
  destruct (scan_folder_cases H ignore_strings w s) as [[Hno ->]|[Hyes ->]].
  - unfold scan_folder. now rewrite Hno.
  - set (w1 := snd (convert_hash_folder H ignore_strings w (s_name s)
                      (Some (max_file_mtime s)))).
    destruct (scan_folder_cases H ignore_strings w1 s) as [[_ ->]|[_ ->]]; [reflexivity|].
    subst w1. now rewrite convert_hash_folder_again.
Qed.

Lemma grows_refl (w : World) : grows w w.
Proof.
  split; [reflexivity|]. split; [auto|]. intros h v Hv. exists v. split; [exact Hv|lia].
Qed.

Lemma grows_trans (w1 w2 w3 : World) : grows w1 w2 -> grows w2 w3 -> grows w1 w3.
Proof.
  intros (Hb1 & Hn1 & Hs1) (Hb2 & Hn2 & Hs2). split; [congruence|]. split; [auto|].
  intros h v Hv. destruct (Hs1 h v Hv) as (v' & Hv' & Hle).
  destruct (Hs2 h v' Hv') as (v'' & Hv'' & Hle'). exists v''. split; [exact Hv''|lia].
Qed.

Lemma record_timestamp_later (st : gmap pystr Z) (hash_id : pystr) (t : Z) :
  should_process st hash_id t = true ->
  forall h v, st !! h = Some v ->
              exists v', record_timestamp st hash_id (Some t) !! h = Some v' /\ (v <= v')%Z.
Proof.
  intros Hsp h v Hv. unfold record_timestamp.
  destruct (timestamp_given (Some t)); [|exists v; split; [exact Hv|lia]].
  unfold update. destruct (decide (h = hash_id)) as [->|Hne].
  - exists t. rewrite lookup_insert_eq. split; [reflexivity|].
    apply should_process_lt in Hsp. rewrite Hv in Hsp. cbn in Hsp. lia.
  - exists v. rewrite lookup_insert_ne by congruence. split; [exact Hv|lia].
Qed.

Lemma scan_folder_grows (H : Host) (ignore_strings : list pystr) (w : World) (s : Session) :
  grows w (scan_folder H ignore_strings w s).
Proof.
  destruct (scan_folder_cases H ignore_strings w s) as [[_ ->]|[Hyes ->]];
    [apply grows_refl|].
  destruct (convert_cases H ignore_strings w (s_name s) (Some (max_file_mtime s)))
    as [[_ ->]|(s0 & _ & [[_ ->]|[(_ & _ & _ & ->)|(_ & _ & _ & ->)]])];
    cbn [snd]; try apply grows_refl.
  - split; [reflexivity|]. split; [auto|]. cbn [mark_processed state].
    now apply record_timestamp_later.
  - split; [reflexivity|]. cbn [notes state]. split.
    + intros k Hk. apply lookup_insert_is_Some. destruct (decide (note_filename (note_title H (s_files s0) (s_name s)) = k)); [now left|now right].
    + now apply record_timestamp_later.
Qed.

(** X10. A scan never loses anything: [scan_existing] leaves the brain as
    it is, keeps every note file that was there, and keeps every stored
    time, replacing it only by a later one. *)
Theorem scan_existing_grows (H : Host) (ignore_strings : list pystr) (w : World) :
  grows w (scan_existing H ignore_strings w).
Proof.
  unfold scan_existing. generalize (brain w) as sessions. intros sessions.
  revert w. induction sessions as [|s sessions IH]; intros w; [apply grows_refl|].
  cbn [fold_left]. eapply grows_trans; [apply scan_folder_grows|apply IH].
Qed.

(** ** Change Tracker *)

Lemma to_process_In (tr : Tracker) (now : Z) (h : pystr) :
  In h (to_process tr now) <-> h ∈ pending_hashes tr /\ settled tr now h = true.
Proof.
  unfold to_process. rewrite filter_In, <- list_elem_of_In, elem_of_elements. reflexivity.
Qed.

Lemma to_process_NoDup (tr : Tracker) (now : Z) : List.NoDup (to_process tr now).
Proof. unfold to_process. apply List.NoDup_filter, NoDup_ListNoDup, NoDup_elements. Qed.

Lemma In_or_not (h : pystr) (l : list pystr) : In h l \/ ~ In h l.
Proof.
  destruct (decide (h ∈ l)) as [Hh|Hh]; [left|right]; now rewrite <- list_elem_of_In.
Qed.

Lemma forget_spec (hashes : list pystr) (tr : Tracker) :
  (forall h, h ∈ pending_hashes (forget tr hashes) <->
             h ∈ pending_hashes tr /\ ~ In h hashes) /\
  (forall h, In h hashes -> last_change_time (forget tr hashes) !! h = None) /\
  (forall h, ~ In h hashes ->
             last_change_time (forget tr hashes) !! h = last_change_time tr !! h) /\
  processing_delay (forget tr hashes) = processing_delay tr.
Proof.
  unfold forget. revert tr. induction hashes as [|h0 hashes IH]; intros tr.
  - cbn [fold_left In]. split; [|split; [|split; [|reflexivity]]].
    + intros h. intuition.
    + intros h [].
    + reflexivity.
  - cbn [fold_left].
    destruct (IH {| pending_hashes := pending_hashes tr ∖ {[h0]};
                    last_change_time := delete h0 (last_change_time tr);
                    processing_delay := processing_delay tr |}) as (Hp & Hl1 & Hl2 & Hd).
    cbn [pending_hashes last_change_time processing_delay] in Hp, Hl1, Hl2, Hd.
    split; [|split; [|split; [|exact Hd]]].
    + intros h. rewrite Hp, elem_of_difference, elem_of_singleton. cbn [In].
      split; [intros [[? ?] ?]|intros [? ?]]; intuition congruence.
    + intros h Hin. destruct (In_or_not h hashes) as [Hh|Hh];
        [now apply Hl1|].
      rewrite (Hl2 h Hh). destruct Hin as [->|Hin]; [apply lookup_delete_eq|contradiction].
    + intros h Hnot. rewrite Hl2 by (intros Hh; apply Hnot; now right).
      apply lookup_delete_ne. intros ->. apply Hnot. now left.
Qed.

(** X12. One round of [process_pending] dispatches exactly the pending
    sessions whose last change is older than the delay, each of them
    once; these leave the pending set and lose their entry of last
    change, and the other pending sessions stay as they are. *)
Theorem round_dispatches_settled (tr : Tracker) (now : Z) :
  let hashes := to_process tr now in
  let tr' := forget tr hashes in
  List.NoDup hashes /\
  (forall h, In h hashes <->
             h ∈ pending_hashes tr /\
             (processing_delay tr < now - default 0 (last_change_time tr !! h))%Z) /\
  (forall h, h ∈ pending_hashes tr' <->
             h ∈ pending_hashes tr /\
             (now - default 0 (last_change_time tr !! h) <= processing_delay tr)%Z) /\
  (forall h, In h hashes -> last_change_time tr' !! h = None) /\
  (forall h, ~ In h hashes -> last_change_time tr' !! h = last_change_time tr !! h) /\
  processing_delay tr' = processing_delay tr.
Proof.
  cbv zeta. destruct (forget_spec (to_process tr now) tr) as (Hp & Hl1 & Hl2 & Hd).
  assert (Hin : forall h, In h (to_process tr now) <->
            h ∈ pending_hashes tr /\
            (processing_delay tr < now - default 0 (last_change_time tr !! h))%Z).
  { intros h. rewrite to_process_In. unfold settled. now rewrite Z.ltb_lt. }
  split; [apply to_process_NoDup|]. split; [exact Hin|].
  split; [|split; [|split; [|exact Hd]]].
  - intros h. rewrite Hp, Hin. split.
    + intros [Hh Hnot]. split; [exact Hh|].
      destruct (Z.le_gt_cases (now - default 0%Z (last_change_time tr !! h))
                  (processing_delay tr)) as [Hle|Hgt]; [exact Hle|].
      exfalso. apply Hnot. split; [exact Hh|lia].
    + intros [Hh Hle]. split; [exact Hh|]. intros [_ Hlt]. lia.
  - exact Hl1.
  - exact Hl2.
Qed.

(** X13. In a tracker that starts empty, the pending sessions are at all
    times exactly the sessions that have a time of last change: the
    registration of an event and the round of [process_pending] both keep
    it so.  The default 0 of the lookup in the round is therefore never
    used for a pending session. *)
Theorem tracker_ok_kept :
  (forall delay,
      tracker_ok {| pending_hashes := ∅; last_change_time := ∅; processing_delay := delay |}) /\
  (forall tr event now, tracker_ok tr -> tracker_ok (_register_event tr event now)) /\
  (forall tr now, tracker_ok tr -> tracker_ok (forget tr (to_process tr now))) /\
  (forall tr h, tracker_ok tr -> h ∈ pending_hashes tr ->
                exists t, last_change_time tr !! h = Some t).
Proof.
  split; [|split; [|split]].
  - intros delay h. cbn [pending_hashes last_change_time].
    rewrite lookup_empty. split; [intros Hh; now apply not_elem_of_empty in Hh|].
    intros [x Hx]. discriminate.
  - intros tr event now Hok. unfold _register_event.
    destruct (is_directory event); [exact Hok|].
    destruct (relative_parts event) as [[|hash_id [|x rest]]|]; try exact Hok.
    intros h. cbn [pending_hashes last_change_time].
    rewrite elem_of_union, elem_of_singleton, (Hok h), lookup_insert_is_Some.
    split; [intros [->|Hh]|intros [->|[_ Hh]]]; auto.
    destruct (decide (hash_id = h)); [left; congruence|right; now split].
  - intros tr now Hok h.
    destruct (forget_spec (to_process tr now) tr) as (Hp & Hl1 & Hl2 & _).
    rewrite Hp, (Hok h).
    destruct (In_or_not h (to_process tr now)) as [Hin|Hin].
    + rewrite (Hl1 h Hin). split; [intros [_ Hnot]; contradiction|intros [x Hx]; discriminate].
    + rewrite (Hl2 h Hin). split; [now intros [Hh _]|now intros Hh].
  - intros tr h Hok Hh. now apply Hok in Hh.
Qed.

(** X14. The delay counts from the last event.  After an event on a file
    of session [h] registered at time [t], whatever was registered
    before: a round at a time [now] with [now - t] not above the delay
    does not dispatch [h] and leaves it pending; a round with [now - t]
    above the delay dispatches [h] and takes it off the pending set.
    Events on directories, outside the root or directly under the root
    change nothing. *)
Theorem debounce_from_last_event (tr : Tracker) (event : Event) (t now : Z) :
  (forall h x rest,
      is_directory event = false ->
      relative_parts event = Some (h :: x :: rest) ->
      let tr1 := _register_event tr event t in
      let hashes := to_process tr1 now in
      ((now - t <= processing_delay tr)%Z ->
       ~ In h hashes /\ h ∈ pending_hashes (forget tr1 hashes)) /\
      ((processing_delay tr < now - t)%Z ->
       In h hashes /\ h ∉ pending_hashes (forget tr1 hashes))) /\
  (is_directory event = true \/ relative_parts event = None \/
   (exists h, relative_parts event = Some [h]) \/ relative_parts event = Some [] ->
   _register_event tr event t = tr).
Proof.
  split.
  - intros h x rest Hdir Hparts. cbv zeta.
    unfold _register_event. rewrite Hdir, Hparts.
    set (tr1 := {| pending_hashes := {[h]} ∪ pending_hashes tr;
                   last_change_time := <[h := t]> (last_change_time tr);
                   processing_delay := processing_delay tr |}).
    destruct (forget_spec (to_process tr1 now) tr1) as (Hp & _).
    assert (Hin : In h (to_process tr1 now) <-> (processing_delay tr < now - t)%Z).
    { rewrite to_process_In. unfold settled. subst tr1.
      cbn [pending_hashes last_change_time processing_delay].
      rewrite lookup_insert_eq. cbn [default]. rewrite Z.ltb_lt.
      split; [now intros [_ ?]|]. intros Hlt. split; [|exact Hlt].
      apply elem_of_union. left. now apply elem_of_singleton. }
    assert (Hpend : h ∈ pending_hashes tr1).
    { subst tr1. cbn [pending_hashes]. apply elem_of_union. left.
      now apply elem_of_singleton. }
    split.
    + intros Hle. assert (Hnot : ~ In h (to_process tr1 now)) by (rewrite Hin; lia).
      split; [exact Hnot|]. apply Hp. now split.
    + intros Hlt. assert (Hyes : In h (to_process tr1 now)) by (now apply Hin).
      split; [exact Hyes|]. intros Hh. apply Hp in Hh as [_ Hnot]. contradiction.
  - unfold _register_event. intros [->|[->|[[h ->]| ->]]]; try reflexivity.
    all: now destruct (is_directory event).
Qed.

Lemma convert_brain (H : Host) (ignore_strings : list pystr) (w : World)
    (hash_id : pystr) (timestamp : option Z) :
  brain (snd (convert_hash_folder H ignore_strings w hash_id timestamp)) = brain w.
Proof.
  destruct (convert_cases H ignore_strings w hash_id timestamp)
    as [[_ ->]|(s & _ & [[_ ->]|[(_ & _ & _ & ->)|(_ & _ & _ & ->)]])]; reflexivity.
Qed.

Lemma convert_state_other (H : Host) (ignore_strings : list pystr) (w : World)
    (hash_id h : pystr) (timestamp : option Z) :
  h <> hash_id ->
  state (snd (convert_hash_folder H ignore_strings w hash_id timestamp)) !! h = state w !! h.
Proof.
  intros Hne.
  destruct (convert_cases H ignore_strings w hash_id timestamp)
    as [[_ ->]|(s & _ & [[_ ->]|[(_ & _ & _ & ->)|(_ & _ & _ & ->)]])];
    cbn [snd mark_processed state]; try reflexivity; now apply record_timestamp_other.
Qed.

Lemma convert_all_brain (H : Host) (ignore_strings : list pystr) (hashes : list pystr)
    (w : World) (now : Z) :
  brain (convert_all H ignore_strings w hashes now) = brain w.
Proof.
  unfold convert_all. revert w. induction hashes as [|h0 hashes IH]; intros w; [reflexivity|].
  cbn [fold_left]. rewrite IH. apply convert_brain.
Qed.

Lemma convert_all_other (H : Host) (ignore_strings : list pystr) (hashes : list pystr)
    (w : World) (now : Z) (h : pystr) :
  ~ In h hashes ->
  state (convert_all H ignore_strings w hashes now) !! h = state w !! h.
Proof.
  unfold convert_all. revert w. induction hashes as [|h0 hashes IH]; intros w Hnot;
    [reflexivity|].
  cbn [fold_left]. rewrite IH by (intros Hh; apply Hnot; now right).
  apply convert_state_other. intros ->. apply Hnot. now left.
Qed.

Lemma convert_rejected_state (H : Host) (ignore_strings : list pystr) (w : World)
    (hash_id : pystr) (now : Z) (s : Session) :
  lookup_session w hash_id = Some s ->
  timestamp_given (Some now) = true ->
  is_default_title (note_title H (s_files s) hash_id) = true \/
  length (strip (note_body H (s_files s) hash_id)) < 50 ->
  state (snd (convert_hash_folder H ignore_strings w hash_id (Some now))) !! hash_id
  = Some now.
Proof.
  intros Hs Hgiven Hrej.
  rewrite (convert_rejected H ignore_strings w hash_id (Some now) s Hs Hrej).
  cbn [snd mark_processed state].
  rewrite (record_timestamp_given _ _ _ Hgiven). apply lookup_insert_eq.
Qed.

Lemma convert_all_rejected (H : Host) (ignore_strings : list pystr) (hashes : list pystr)
    (w : World) (now : Z) (h : pystr) (s : Session) :
  List.NoDup hashes -> In h hashes ->
  lookup_session w h = Some s ->
  timestamp_given (Some now) = true ->
  is_default_title (note_title H (s_files s) h) = true \/
  length (strip (note_body H (s_files s) h)) < 50 ->
  state (convert_all H ignore_strings w hashes now) !! h = Some now.
Proof.
  revert w. induction hashes as [|h0 hashes IH]; intros w Hnd Hin Hs Hgiven Hrej;
    [destruct Hin|].
  inversion Hnd as [|? ? Hnotin Hnd']; subst.
  change (convert_all H ignore_strings w (h0 :: hashes) now)
    with (convert_all H ignore_strings
            (snd (convert_hash_folder H ignore_strings w h0 (Some now))) hashes now).
  destruct Hin as [->|Hin].
  - rewrite convert_all_other by exact Hnotin. now apply (convert_rejected_state _ _ _ _ _ s).
  - apply IH; try assumption.
    unfold lookup_session. rewrite convert_brain. exact Hs.
Qed.

Lemma record_timestamp_value (st : gmap pystr Z) (hash_id h : pystr) (t : Z) :
  record_timestamp st hash_id (Some t) !! h = st !! h \/
  record_timestamp st hash_id (Some t) !! h = Some t.
Proof.
  unfold record_timestamp. destruct (timestamp_given (Some t)); [|now left].
  unfold update. destruct (decide (h = hash_id)) as [->|Hne].
  - right. apply lookup_insert_eq.
  - left. apply lookup_insert_ne. congruence.
Qed.

Lemma convert_state_value (H : Host) (ignore_strings : list pystr) (w : World)
    (hash_id h : pystr) (now : Z) :
  state (snd (convert_hash_folder H ignore_strings w hash_id (Some now))) !! h = state w !! h \/
  state (snd (convert_hash_folder H ignore_strings w hash_id (Some now))) !! h = Some now.
Proof.
  destruct (convert_cases H ignore_strings w hash_id (Some now))
    as [[_ ->]|(s & _ & [[_ ->]|[(_ & _ & _ & ->)|(_ & _ & _ & ->)]])];
    cbn [snd mark_processed state]; try (now left); apply record_timestamp_value.
Qed.

Lemma convert_all_value (H : Host) (ignore_strings : list pystr) (hashes : list pystr)
    (w : World) (now : Z) (h : pystr) :
  state (convert_all H ignore_strings w hashes now) !! h = state w !! h \/
  state (convert_all H ignore_strings w hashes now) !! h = Some now.
Proof.
  unfold convert_all. revert w. induction hashes as [|h0 hashes IH]; intros w; [now left|].
  cbn [fold_left].
  destruct (IH (snd (convert_hash_folder H ignore_strings w h0 (Some now)))) as [Hs | Hs]; rewrite Hs;
    [apply convert_state_value|now right].
Qed.

(** X15. The conversions of one round of [process_pending] record the
    time of the round and no other: after the round the stored time of
    every session is the one it had before or the time of the round, not
    the time of its last change.  The stored times of the sessions that
    were not dispatched are as before, and so is the brain.  In a round
    all of whose sessions are rejected for their title or their length,
    every dispatched session that exists has the time of the round as its
    stored time afterwards, when that time is not zero. *)
Theorem round_records_only_its_time (H : Host) (ignore_strings : list pystr)
    (tr : Tracker) (w : World) (now : Z) :
  let w' := snd (process_pending_round H ignore_strings tr w now) in
  brain w' = brain w /\
  (forall h, ~ In h (to_process tr now) -> state w' !! h = state w !! h) /\
  (forall h, state w' !! h = state w !! h \/ state w' !! h = Some now) /\
  (now <> 0%Z ->
   (forall h s, In h (to_process tr now) -> lookup_session w h = Some s ->
                is_default_title (note_title H (s_files s) h) = true \/
                length (strip (note_body H (s_files s) h)) < 50) ->
   forall h s, In h (to_process tr now) -> lookup_session w h = Some s ->
               state w' !! h = Some now).
Proof.
  cbv zeta. unfold process_pending_round. cbn [snd].
  split; [apply convert_all_brain|]. split; [intros h; apply convert_all_other|].
  split; [intros h; apply convert_all_value|].
  intros Hnow Hall h s Hin Hs.
  apply (convert_all_rejected H ignore_strings _ w now h s); try assumption.
  - apply to_process_NoDup.
  - unfold timestamp_given. now apply negb_true_iff, Z.eqb_neq.
  - now apply (Hall h s).
Qed.

(** ** Session Converter: the other artifacts *)

Lemma str_leb_refl (a : pystr) : str_leb a a = true.
Proof.
  induction a as [|x a IH]; [reflexivity|]. cbn [str_leb].
  now rewrite N.eqb_refl, IH, orb_true_r.
Qed.

Lemma str_leb_total (a b : pystr) : str_leb a b = false -> str_leb b a = true.
Proof.
  revert b. induction a as [|x a IH]; intros b; [discriminate|].
  destruct b as [|y b]; [reflexivity|]. cbn [str_leb].
  destruct (N.ltb_spec x y) as [Hxy|Hxy]; [discriminate|]. cbn [orb].
  destruct (N.eqb_spec x y) as [->|Hne]; cbn [andb].
  - intros Hab. rewrite (IH b Hab), N.eqb_refl. apply orb_true_r.
  - intros _. destruct (N.ltb_spec y x) as [_|Hyx]; [reflexivity|lia].
Qed.

Lemma str_leb_trans (a b c : pystr) :
  str_leb a b = true -> str_leb b c = true -> str_leb a c = true.
Proof.
  revert b c. induction a as [|x a IH]; intros b c; [reflexivity|].
  destruct b as [|y b]; [discriminate|]. destruct c as [|z c]; [discriminate|].
  cbn [str_leb].
  destruct (N.ltb_spec x y) as [Hxy|Hxy]; destruct (N.ltb_spec y z) as [Hyz|Hyz];
    destruct (N.ltb_spec x z) as [Hxz|Hxz]; cbn [orb]; try reflexivity; try lia.
  - destruct (N.eqb_spec y z) as [->|]; [lia|discriminate].
  - destruct (N.eqb_spec x y) as [->|]; [lia|discriminate].
  - destruct (N.eqb_spec x y) as [->|]; [|discriminate].
    destruct (N.eqb_spec y z) as [->|]; [|discriminate].
    try rewrite N.eqb_refl. cbn [andb]. apply IH.
Qed.

Lemma sorted_insert_perm (k : pystr) (ks : list pystr) :
  Permutation (sorted_insert k ks) (k :: ks).
Proof.
  induction ks as [|k' ks IH]; [reflexivity|]. cbn [sorted_insert].
  destruct (str_leb k k'); [reflexivity|].
  rewrite IH. apply perm_swap.
Qed.

Lemma sorted_perm (ks : list pystr) : Permutation (sorted ks) ks.
Proof.
  unfold sorted. induction ks as [|k ks IH]; [reflexivity|].
  cbn [foldr]. rewrite sorted_insert_perm. now constructor.
Qed.

Lemma sorted_insert_sorted (k : pystr) (ks : list pystr) :
  StronglySorted str_le ks -> StronglySorted str_le (sorted_insert k ks).
Proof.
  induction ks as [|k' ks IH]; intros Hs.
  - constructor; constructor.
  - cbn [sorted_insert]. apply StronglySorted_inv in Hs as [Hs Hall].
    destruct (str_leb k k') eqn:Hk.
    + constructor; [now constructor|]. constructor; [exact Hk|].
      eapply Forall_impl; [exact Hall|]. intros x Hx. now apply (str_leb_trans k k' x).
    + constructor; [now apply IH|].
      apply (Permutation_Forall (Permutation_sym (sorted_insert_perm k ks))).
      constructor; [now apply str_leb_total|exact Hall].
Qed.

Lemma sorted_sorted (ks : list pystr) : StronglySorted str_le (sorted ks).
Proof.
  unfold sorted. induction ks as [|k ks IH]; [constructor|].
  cbn [foldr]. now apply sorted_insert_sorted.
Qed.

Lemma last_greatest (ks : list pystr) (k : pystr) :
  StronglySorted str_le ks -> last ks = Some k -> forall x, In x ks -> str_le x k.
Proof.
  induction ks as [|k0 ks IH]; [discriminate|]. intros Hs Hlast x Hx.
  apply StronglySorted_inv in Hs as [Hs Hall].
  destruct ks as [|k1 ks].
  - cbn in Hlast. injection Hlast as <-. destruct Hx as [<-|[]]. apply str_leb_refl.
  - rewrite last_cons_cons in Hlast. destruct Hx as [<-|Hx]; [|now apply IH].
    rewrite Forall_forall in Hall. apply (str_leb_trans k0 k1 k).
    + apply Hall. now left.
    + apply IH; [exact Hs|exact Hlast|now left].
Qed.

Lemma dict_keys_get {V} (k : pystr) (d : list (pystr * V)) :
  In k (dict_keys d) <-> is_Some (dict_get k d).
Proof.
  unfold dict_keys. induction d as [|[k' v] d IH]; cbn [List.map fst In dict_get].
  - split; [intros []|intros [x Hx]; discriminate].
  - unfold str_eqb. destruct (bool_decide_reflect (k' = k)) as [->|Hne].
    + split; [intros _; now exists v|now left].
    + rewrite IH. split; [intros [?|?]; [contradiction|assumption]|now right].
Qed.

Lemma contents_keys (files : list FileEntry) :
  dict_keys (contents files) = dict_keys (best_files_map files).
Proof.
  unfold contents, dict_keys. rewrite List.map_map.
  apply List.map_ext. now intros [b f].
Qed.

Lemma best_files_keys_nodup (files : list FileEntry) :
  List.NoDup (dict_keys (best_files_map files)).
Proof.
  rewrite best_files_map_unfold, pick_largest_keys.
  - apply file_groups_invariant; [constructor|]. intros k f d. apply dict_append_keys_nodup.
  - apply file_groups_invariant; [constructor|]. intros k f d. apply dict_append_inhabited.
Qed.

(** X16. The other artifacts of a session are listed once each, in the
    order of their base names by code points: [other_keys] is sorted, has
    no base name twice, and holds exactly the base names of the regular
    files of the session that are not "walkthrough", "implementation_plan"
    or "task".  The content that the abstract falls back on is that of
    the greatest of them. *)
Theorem other_keys_sorted_once (files : list FileEntry) :
  StronglySorted str_le (other_keys files) /\
  List.NoDup (other_keys files) /\
  (forall k, In k (other_keys files) <->
             group_members k files <> [] /\ ~ In k known_keys) /\
  (forall k, last (other_keys files) = Some k ->
             last_other_content files = content_of files k /\
             forall k', In k' (other_keys files) -> str_le k' k).
Proof.
  unfold other_keys. split; [apply sorted_sorted|]. split; [|split].
  - apply (Permutation_NoDup (Permutation_sym (sorted_perm _))).
    apply List.NoDup_filter. rewrite contents_keys. apply best_files_keys_nodup.
  - intros k.
    rewrite (Permutation_in' (eq_refl k) (sorted_perm _)), filter_In.
    rewrite contents_keys, dict_keys_get, best_files_map_get.
    assert (Hknown : negb (existsb (str_eqb k) known_keys) = true <-> ~ In k known_keys).
    { rewrite negb_true_iff, <- not_true_iff_false, existsb_exists. split.
      - intros Hno Hin. apply Hno. exists k. split; [exact Hin|].
        unfold str_eqb. now apply bool_decide_eq_true_2.
      - intros Hno (x & Hx & Heq). unfold str_eqb in Heq.
        apply bool_decide_eq_true in Heq. now subst x. }
    rewrite Hknown. destruct (group_members k files) as [|f paths].
    + split; [intros [[x Hx] _]; discriminate|intros [Hne _]; contradiction].
    + split; [intros [_ Hk]; split; [discriminate|exact Hk]|].
      intros [_ Hk]. split; [now eexists|exact Hk].
  - intros k Hlast. split.
    + unfold last_other_content, other_keys. now rewrite Hlast.
    + apply last_greatest; [apply sorted_sorted|exact Hlast].
Qed.

(** ** Session Converter: the order of the directory *)

Lemma str_leb_antisym (a b : pystr) : str_leb a b = true -> str_leb b a = true -> a = b.
Proof.
  revert b. induction a as [|x a IH]; intros b.
  - destruct b; [reflexivity|discriminate].
  - destruct b as [|y b]; [discriminate|]. cbn [str_leb].
    destruct (N.ltb_spec x y) as [Hxy|Hxy]; destruct (N.ltb_spec y x) as [Hyx|Hyx];
      cbn [orb]; try lia.
    + destruct (N.eqb_spec y x); [lia|discriminate].
    + destruct (N.eqb_spec x y); [lia|discriminate].
    + destruct (N.eqb_spec x y) as [->|]; [|discriminate].
      try rewrite N.eqb_refl. cbn [andb]. intros Hab Hba. f_equal. now apply IH.
Qed.

Lemma sorted_unique (l1 l2 : list pystr) :
  StronglySorted str_le l1 -> StronglySorted str_le l2 -> Permutation l1 l2 -> l1 = l2.
Proof.
  revert l2. induction l1 as [|x l1 IH]; intros l2 Hs1 Hs2 Hp.
  - apply Permutation_nil in Hp. now subst.
  - destruct l2 as [|y l2]; [apply Permutation_sym, Permutation_nil in Hp; discriminate|].
    apply StronglySorted_inv in Hs1 as [Hs1 Hall1].
    apply StronglySorted_inv in Hs2 as [Hs2 Hall2].
    rewrite Forall_forall in Hall1, Hall2.
    assert (Hxy : x = y).
    { assert (Hx : In x (y :: l2)) by (apply (Permutation_in _ Hp); now left).
      assert (Hy : In y (x :: l1))
        by (apply (Permutation_in _ (Permutation_sym Hp)); now left).
      destruct Hx as [<-|Hx]; [reflexivity|]. destruct Hy as [<-|Hy]; [reflexivity|].
      apply str_leb_antisym.
      - apply Hall1. now apply list_elem_of_In.
      - apply Hall2. now apply list_elem_of_In. }
    subst y. f_equal. apply IH; [exact Hs1|exact Hs2|].
    now apply Permutation_cons_inv in Hp.
Qed.

Lemma filter_perm {A} (p : A -> bool) (l l' : list A) :
  Permutation l l' -> Permutation (List.filter p l) (List.filter p l').
Proof.
  induction 1 as [|x l l' _ IH|x y l|l1 l2 l3 _ IH1 _ IH2]; cbn [List.filter].
  - reflexivity.
  - destruct (p x); [now constructor|exact IH].
  - destruct (p x), (p y); try reflexivity. apply perm_swap.
  - now transitivity (List.filter p l2).
Qed.

Lemma best_file_perm (files files' : list FileEntry) (b : pystr) :
  Permutation files files' -> sizes_differ files ->
  dict_get b (best_files_map files) = dict_get b (best_files_map files').
Proof.
  intros Hp Hsize. rewrite !best_files_map_get.
  assert (Hm : Permutation (group_members b files) (group_members b files'))
    by (now apply filter_perm).
  destruct (group_members b files) as [|f paths] eqn:Hg.
  - apply Permutation_nil in Hm. now rewrite Hm.
  - destruct (group_members b files') as [|f' paths'] eqn:Hg';
      [apply Permutation_sym, Permutation_nil in Hm; discriminate|].
    f_equal.
    pose proof (max_by_size_in f paths) as Hin.
    pose proof (max_by_size_in f' paths') as Hin'.
    assert (Hin2 : In (max_by_size f' paths') (f :: paths))
      by (now apply (Permutation_in _ (Permutation_sym Hm))).
    assert (Hin3 : In (max_by_size f paths) (f' :: paths'))
      by (now apply (Permutation_in _ Hm)).
    apply (Hsize b); rewrite ?Hg; try assumption.
    pose proof (max_by_size_ge f paths _ Hin2).
    pose proof (max_by_size_ge f' paths' _ Hin3). lia.
Qed.

Lemma dict_get_contents (files : list FileEntry) (k : pystr) :
  dict_get k (contents files) = option_map f_text (dict_get k (best_files_map files)).
Proof.
  unfold contents. induction (best_files_map files) as [|[b f] d IH]; [reflexivity|].
  cbn [List.map dict_get]. destruct (str_eqb b k); [reflexivity|exact IH].
Qed.

Lemma content_of_perm (files files' : list FileEntry) (k : pystr) :
  Permutation files files' -> sizes_differ files ->
  content_of files k = content_of files' k.
Proof.
  intros Hperm Hsizes. unfold content_of. rewrite !dict_get_contents.
  now rewrite (best_file_perm files files' k Hperm Hsizes).
Qed.

Lemma other_keys_perm (files files' : list FileEntry) :
  Permutation files files' -> sizes_differ files ->
  other_keys files = other_keys files'.
Proof.
  intros Hperm Hsizes.
  unfold other_keys. apply sorted_unique; try apply sorted_sorted.
  rewrite !sorted_perm. apply filter_perm.
  apply Stdlib.Sorting.Permutation.NoDup_Permutation.
  - rewrite contents_keys. apply best_files_keys_nodup.
  - rewrite contents_keys. apply best_files_keys_nodup.
  - intros k. rewrite !contents_keys, !dict_keys_get.
    now rewrite (best_file_perm files files' k Hperm Hsizes).
Qed.

Lemma full_raw_content_perm (H : Host) (files files' : list FileEntry) :
  Permutation files files' -> sizes_differ files ->
  full_raw_content H files = full_raw_content H files'.
Proof.
  intros Hperm Hsizes.
  unfold full_raw_content, content_buffer, impl_content, task_content, walkthrough_content.
  rewrite (other_keys_perm files files' Hperm Hsizes).
  rewrite !(content_of_perm files files' _ Hperm Hsizes). do 4 f_equal.
  apply flat_map_ext. intros k. now rewrite (content_of_perm files files' k Hperm Hsizes).
Qed.

Lemma overview_text_perm (files files' : list FileEntry) :
  Permutation files files' -> sizes_differ files ->
  overview_text files = overview_text files'.
Proof.
  intros Hperm Hsizes.
  unfold overview_text, impl_content, task_content, walkthrough_content.
  now rewrite !(content_of_perm files files' _ Hperm Hsizes).
Qed.

Lemma abstract_text_perm (files files' : list FileEntry) :
  Permutation files files' -> sizes_differ files ->
  abstract_text files = abstract_text files'.
Proof.
  intros Hperm Hsizes.
  unfold abstract_text, last_other_content, impl_content, task_content.
  rewrite (overview_text_perm files files' Hperm Hsizes).
  rewrite (other_keys_perm files files' Hperm Hsizes).
  rewrite !(content_of_perm files files' _ Hperm Hsizes).
  destruct (last (other_keys files'));
    [now rewrite (content_of_perm files files' _ Hperm Hsizes)|reflexivity].
Qed.

Lemma c_date_str_perm (H : Host) (files files' : list FileEntry) :
  Permutation files files' -> sizes_differ files ->
  c_date_str H files = c_date_str H files'.
Proof.
  intros Hperm Hsizes.
  unfold c_date_str. now rewrite !(best_file_perm files files' _ Hperm Hsizes).
Qed.

(** X17. The note does not depend on the order in which the directory
    lists its entries, when no two revisions of one artifact have the
    same size: for two listings of the same entries the title, the
    content, the header fields and the text of the note are the same. *)
Theorem directory_order_irrelevant (H : Host) (ignore_strings : list pystr)
    (files files' : list FileEntry) (hash_id : pystr)
    (Hperm : Permutation files files')
    (Hsizes : sizes_differ files) :
  note_title H files hash_id = note_title H files' hash_id /\
  note_body H files hash_id = note_body H files' hash_id /\
  note_overview H files hash_id = note_overview H files' hash_id /\
  note_abstract H files hash_id = note_abstract H files' hash_id /\
  final_note H ignore_strings files hash_id = final_note H ignore_strings files' hash_id.
Proof.
  assert (Ht : note_title H files hash_id = note_title H files' hash_id)
    by (unfold note_title; now rewrite (full_raw_content_perm H files files' Hperm Hsizes)).
  assert (Hb : note_body H files hash_id = note_body H files' hash_id)
    by (unfold note_body; now rewrite (full_raw_content_perm H files files' Hperm Hsizes)).
  assert (Ho : note_overview H files hash_id = note_overview H files' hash_id)
    by (unfold note_overview;
        now rewrite Ht, (overview_text_perm files files' Hperm Hsizes)).
  assert (Ha : note_abstract H files hash_id = note_abstract H files' hash_id)
    by (unfold note_abstract;
        now rewrite Ho, (abstract_text_perm files files' Hperm Hsizes)).
  repeat split; try assumption.
  unfold final_note.
  now rewrite Ht, Hb, Ho, Ha, (c_date_str_perm H files files' Hperm Hsizes).
Qed.

Lemma directory_order_irrelevant_witness :
  final_note ex_host [] ex_listing ex_hash = final_note ex_host [] ex_listing_reversed ex_hash.
Proof.
  apply (directory_order_irrelevant ex_host [] ex_listing ex_listing_reversed ex_hash).
  - apply Permutation_rev.
  - intros b f f' Hf Hf' Hsz.
    apply filter_In in Hf as [Hf _]. apply filter_In in Hf' as [Hf' _].
    unfold ex_listing, ex_files in Hf, Hf'. cbn [app In] in Hf, Hf'.
    destruct Hf as [<-|[<-|[<-|[<-|[]]]]]; destruct Hf' as [<-|[<-|[<-|[<-|[]]]]];
      try reflexivity; vm_compute in Hsz; discriminate Hsz.
Defined.

(** ** Full Scan Driver: the time of a folder *)

Lemma fold_max_spec (files : list FileEntry) (m0 : Z) :
  let m := fold_left (fun m f => if (m <? f_mtime f)%Z then f_mtime f else m) files m0 in
  (m0 <= m)%Z /\
  (forall f, In f files -> (f_mtime f <= m)%Z) /\
  (m = m0 \/ exists f, In f files /\ m = f_mtime f).
Proof.
  cbv zeta. revert m0. induction files as [|f files IH]; intros m0.
  - cbn [fold_left]. split; [lia|]. split; [intros f []|now left].
  - cbn [fold_left].
    destruct (IH (if (m0 <? f_mtime f)%Z then f_mtime f else m0)) as (Hge & Hall & Hone).
    destruct (Z.ltb_spec m0 (f_mtime f)) as [Hlt|Hle].
    + split; [lia|]. split.
      * intros x [<-|Hx]; [exact Hge|now apply Hall].
      * right. destruct Hone as [->|(x & Hx & ->)]; [exists f|exists x]; split; auto;
          now (left + right).
    + split; [exact Hge|]. split.
      * intros x [<-|Hx]; [lia|now apply Hall].
      * destruct Hone as [->|(x & Hx & ->)]; [now left|].
        right. exists x. split; [now right|reflexivity].
Qed.

(** X18. The time a scan compares with the stored one is the latest
    modification time among the folder and its direct entries: it is not
    earlier than any of them, and it is one of them. *)
Theorem max_file_mtime_latest (s : Session) :
  (s_mtime s <= max_file_mtime s)%Z /\
  (forall f, In f (s_files s) -> (f_mtime f <= max_file_mtime s)%Z) /\
  (max_file_mtime s = s_mtime s \/
   exists f, In f (s_files s) /\ max_file_mtime s = f_mtime f).
Proof. apply (fold_max_spec (s_files s) (s_mtime s)). Qed.

(** ** Text Extractor: a text without markup *)

Lemma re_sub_no_trigger (m : matcher pystr) (trigger : N -> bool) :
  (forall bol c r res, m bol (c :: r) = Some res -> trigger c = true) ->
  forall t bol, (forall c, In c t -> trigger c = false) -> re_sub_from m bol 0 t = t.
Proof.
  intros Hm t. induction t as [|c t IH]; intros bol Hnone; [reflexivity|].
  cbn [re_sub_from]. destruct (m bol (c :: t)) as [[repl n]|] eqn:Hmatch.
  - apply Hm in Hmatch. rewrite (Hnone c (or_introl eq_refl)) in Hmatch. discriminate.
  - f_equal. apply IH. intros x Hx. apply Hnone. now right.
Qed.

Lemma quote_marker_trigger (bol : bool) (c : N) (r : pystr) (res : pystr * nat) :
  quote_marker bol (c :: r) = Some res -> is_ch ">" c = true.
Proof.
  unfold quote_marker. destruct bol; cbn [andb]; [|discriminate].
  now destruct (is_ch ">" c).
Qed.

Lemma bold_span_trigger (bol : bool) (c : N) (r : pystr) (res : pystr * nat) :
  bold_span bol (c :: r) = Some res -> is_ch "*" c = true.
Proof.
  unfold bold_span. destruct r as [|b r]; [discriminate|].
  now destruct (is_ch "*" c).
Qed.

Lemma md_link_trigger (bol : bool) (c : N) (r : pystr) (res : pystr * nat) :
  md_link bol (c :: r) = Some res -> is_ch "[" c = true.
Proof. unfold md_link. now destruct (is_ch "[" c). Qed.

Lemma code_span_trigger (bol : bool) (c : N) (r : pystr) (res : pystr * nat) :
  code_span bol (c :: r) = Some res -> is_ch "`" c = true.
Proof. unfold code_span. now destruct (is_ch "`" c). Qed.

(** X19. Cleaning changes markup only: a text that has none of the
    characters [>], [*], [[] and the backquote, and that does not begin
    with "Summary", "Abstract" or "Overview" in any letter case, is
    returned stripped and otherwise unchanged. *)
Theorem clean_text_plain (text : pystr)
    (Hplain : forall c, In c text ->
        is_ch ">" c = false /\ is_ch "*" c = false /\
        is_ch "[" c = false /\ is_ch "`" c = false)
    (Hlabel : forall word, In word label_words -> ci_starts_with word text = false) :
  _clean_text text = strip text.
Proof.
  unfold _clean_text, re_sub. cbv zeta.
  rewrite (re_sub_no_trigger quote_marker (is_ch ">") quote_marker_trigger)
    by (intros c Hc; now apply Hplain).
  rewrite (re_sub_no_trigger bold_span (is_ch "*") bold_span_trigger)
    by (intros c Hc; now apply Hplain).
  rewrite (re_sub_no_trigger md_link (is_ch "[") md_link_trigger)
    by (intros c Hc; now apply Hplain).
  rewrite (re_sub_no_trigger code_span (is_ch "`") code_span_trigger)
    by (intros c Hc; now apply Hplain).
  unfold strip_label, label_prefix.
  now rewrite (find_none_all _ label_words Hlabel).
Qed.

Lemma clean_text_plain_witness :
  _clean_text ex_plain = md "The cache is rebuilt|on every deployment.".
Proof.
  rewrite (clean_text_plain ex_plain).
  - vm_compute. reflexivity.
  - intros c Hc. vm_compute in Hc.
    repeat (destruct Hc as [<-|Hc]; [vm_compute; repeat split; reflexivity|]).
    destruct Hc.
  - intros word Hw. vm_compute in Hw.
    repeat (destruct Hw as [<-|Hw]; [vm_compute; reflexivity|]).
    destruct Hw.
Defined.

(** ** The assembled content holds every artifact *)

Lemma occurs_whole (x : pystr) : occurs x x.
Proof. exists [], []. now rewrite app_nil_r. Qed.

Lemma occurs_empty (t : pystr) : occurs [] t.
Proof. now exists [], t. Qed.

Lemma occurs_app_l (x a b : pystr) : occurs x a -> occurs x (a ++ b).
Proof. intros (u & v & ->). exists u, (v ++ b). now rewrite <- !app_assoc. Qed.

Lemma occurs_app_r (x a b : pystr) : occurs x b -> occurs x (a ++ b).
Proof. intros (u & v & ->). exists (a ++ u), v. now rewrite <- !app_assoc. Qed.

Lemma str_join_occurs (sep x : pystr) (parts : list pystr) :
  In x parts -> occurs x (str_join sep parts).
Proof.
  induction parts as [|p parts IH]; [intros []|].
  intros [->|Hx].
  - destruct parts as [|q parts]; [apply occurs_whole|].
    cbn [str_join]. apply occurs_app_l, occurs_whole.
  - destruct parts as [|q parts]; [destruct Hx|].
    change (str_join sep (p :: q :: parts)) with (p ++ sep ++ str_join sep (q :: parts)).
    apply occurs_app_r, occurs_app_r, IH, Hx.
Qed.

Lemma fixed_section_In (heading body : pystr) :
  body <> [] -> In body (fixed_section heading body).
Proof. destruct body; [contradiction|]. intros _. right. now left. Qed.

Lemma known_key_test (k : pystr) :
  negb (existsb (str_eqb k) known_keys) = true <-> ~ In k known_keys.
Proof.
  rewrite negb_true_iff. split.
  - intros Hn Hk. apply not_true_iff_false in Hn. apply Hn.
    apply existsb_exists. exists k. split; [exact Hk|].
    unfold str_eqb. now apply bool_decide_eq_true.
  - intros Hn. apply not_true_iff_false. intros He.
    apply existsb_exists in He as (k' & Hk' & Heq). unfold str_eqb in Heq.
    apply bool_decide_eq_true in Heq. now subst.
Qed.

Lemma other_keys_In (files : list FileEntry) (k : pystr) :
  In k (other_keys files) <->
  In k (dict_keys (contents files)) /\ ~ In k known_keys.
Proof.
  unfold other_keys. split.
  - intros Hin. apply (Permutation_in _ (sorted_perm _)) in Hin.
    apply filter_In in Hin as [Hk Hn]. split; [exact Hk|now apply known_key_test].
  - intros [Hk Hn]. apply (Permutation_in _ (Permutation_sym (sorted_perm _))).
    apply filter_In. split; [exact Hk|now apply known_key_test].
Qed.

(** X20. No artifact is left out of the assembled content: the text of the
    file chosen for a base name occurs in [full_raw_content], whatever
    the base name is. *)
Theorem every_artifact_in_content (H : Host) (files : list FileEntry) (b : pystr)
    (f : FileEntry)
    (Hbest : dict_get b (best_files_map files) = Some f) :
  content_of files b = f_text f /\
  occurs (f_text f) (full_raw_content H files).
Proof.
  assert (Hc : content_of files b = f_text f).
  { unfold content_of. now rewrite dict_get_contents, Hbest. }
  split; [exact Hc|].
  destruct (f_text f) as [|x t] eqn:Ht; [apply occurs_empty|].
  rewrite <- Hc. unfold full_raw_content. apply str_join_occurs.
  assert (Hne : content_of files b <> []) by (rewrite Hc; discriminate).
  unfold content_buffer.
  destruct (decide (In b known_keys)) as [Hk|Hk].
  - destruct Hk as [<-|[<-|[<-|[]]]].
    + do 3 (apply in_or_app; right). now apply fixed_section_In.
    + apply in_or_app; left. now apply fixed_section_In.
    + apply in_or_app; right. apply in_or_app; left. now apply fixed_section_In.
  - apply in_or_app; right. apply in_or_app; right. apply in_or_app; left.
    apply in_flat_map. exists b. split; [|right; now left].
    apply other_keys_In. split; [|exact Hk].
    rewrite contents_keys. apply dict_keys_get. rewrite Hbest. now eexists.
Qed.

Lemma every_artifact_in_content_witness :
  occurs ex_plan (full_raw_content ex_host ex_files).
Proof.
  apply (every_artifact_in_content ex_host ex_files (py "implementation_plan")
           (ex_file "implementation_plan.md" 98 ex_plan)).
  vm_compute. reflexivity.
Defined.

(** ** Entries that are not artifacts *)

Lemma file_groups_filter_from (files : list FileEntry) (groups : list (pystr * list FileEntry)) :
  fold_left
    (fun groups f =>
       if f_is_file f then
         match base_name (f_name f) with
         | Some b => dict_append b f groups
         | None => groups
         end
       else groups)
    (List.filter is_artifact files) groups
  = fold_left
    (fun groups f =>
       if f_is_file f then
         match base_name (f_name f) with
         | Some b => dict_append b f groups
         | None => groups
         end
       else groups)
    files groups.
Proof.
  revert groups. induction files as [|f files IH]; intros groups; [reflexivity|].
  cbn [List.filter fold_left]. unfold is_artifact at 1.
  destruct (f_is_file f) eqn:Hf; cbn [andb]; [|apply IH].
  destruct (base_name (f_name f)) as [b|] eqn:Hb.
  - rewrite bool_decide_eq_true_2 by now eexists.
    cbn [fold_left]. rewrite Hf, Hb. apply IH.
  - rewrite bool_decide_eq_false_2 by (intros [x Hx]; discriminate). apply IH.
Qed.

Lemma best_files_map_filter (files : list FileEntry) :
  best_files_map (List.filter is_artifact files) = best_files_map files.
Proof. unfold best_files_map, file_groups. now rewrite file_groups_filter_from. Qed.

Lemma note_from_best_files (H : Host) (files files' : list FileEntry) (hash_id : pystr) :
  best_files_map files = best_files_map files' ->
  note_title H files hash_id = note_title H files' hash_id /\
  note_body H files hash_id = note_body H files' hash_id /\
  note_overview H files hash_id = note_overview H files' hash_id /\
  note_abstract H files hash_id = note_abstract H files' hash_id /\
  c_date_str H files = c_date_str H files'.
Proof.
  intros Heq.
  unfold note_abstract, note_overview, note_title, note_body, c_date_str,
    full_raw_content, content_buffer, abstract_text, overview_text, last_other_content,
    other_keys, walkthrough_content, impl_content, task_content, content_of, contents.
  rewrite Heq. repeat split; reflexivity.
Qed.

(** X21. Only artifacts are read for the text of a note: the directories
    of a session folder and the files whose names have no base name
    before [.md] change neither the title, nor the content as it stands
    before the images are processed, nor the overview, the abstract and
    the creation date.  (Step 6 may still look for such a file as an
    image.) *)
Theorem only_artifacts_count (H : Host) (files : list FileEntry) (hash_id : pystr) :
  let kept := List.filter is_artifact files in
  note_title H kept hash_id = note_title H files hash_id /\
  note_body H kept hash_id = note_body H files hash_id /\
  note_overview H kept hash_id = note_overview H files hash_id /\
  note_abstract H kept hash_id = note_abstract H files hash_id /\
  c_date_str H kept = c_date_str H files.
Proof. cbv zeta. apply note_from_best_files, best_files_map_filter. Qed.

Lemma only_artifacts_count_witness :
  List.filter is_artifact ex_cluttered = ex_files /\
  note_body ex_host ex_files ex_hash = note_body ex_host ex_cluttered ex_hash.
Proof.
  assert (Hkept : List.filter is_artifact ex_cluttered = ex_files) by (vm_compute; reflexivity).
  split; [exact Hkept|].
  rewrite <- Hkept. apply (only_artifacts_count ex_host ex_cluttered ex_hash).
Defined.

(** ** What a full scan stores *)

Lemma scan_folder_state_value (H : Host) (ignore_strings : list pystr) (w : World)
    (s : Session) (h : pystr) :
  state (scan_folder H ignore_strings w s) !! h = state w !! h \/
  (s_name s = h /\ state (scan_folder H ignore_strings w s) !! h = Some (max_file_mtime s)).
Proof.
  destruct (scan_folder_cases H ignore_strings w s) as [[_ ->]|[_ ->]]; [now left|].
  destruct (decide (h = s_name s)) as [->|Hne].
  - destruct (convert_state_value H ignore_strings w (s_name s) (s_name s) (max_file_mtime s))
      as [Hsame|Hnew]; [now left|now right].
  - left. now apply convert_state_other.
Qed.

Lemma scan_fold_state_value (H : Host) (ignore_strings : list pystr) (sessions : list Session)
    (w : World) (h : pystr) :
  state (fold_left (scan_folder H ignore_strings) sessions w) !! h = state w !! h \/
  exists s,
    In s sessions /\ s_name s = h /\
    state (fold_left (scan_folder H ignore_strings) sessions w) !! h = Some (max_file_mtime s).
Proof.
  revert w. induction sessions as [|s sessions IH]; intros w; [now left|].
  cbn [fold_left].
  destruct (IH (scan_folder H ignore_strings w s)) as [Hsame|(s' & Hin & Hname & Hval)].
  - rewrite Hsame. destruct (scan_folder_state_value H ignore_strings w s h) as [Hold|[Hname Hval]].
    + now left.
    + right. exists s. split; [now left|]. now split.
  - right. exists s'. split; [now right|]. now split.
Qed.

(** X22. A full scan stores nothing but the maximum modification times of
    folders, each under the name of its folder: after [scan_existing]
    the stored time of a session is the one it had before, or the
    maximum modification time of a folder of the brain with that name. *)
Theorem scan_stores_only_maxima (H : Host) (ignore_strings : list pystr) (w : World)
    (h : pystr) :
  state (scan_existing H ignore_strings w) !! h = state w !! h \/
  exists s,
    In s (brain w) /\ s_name s = h /\
    state (scan_existing H ignore_strings w) !! h = Some (max_file_mtime s).
Proof. unfold scan_existing. apply scan_fold_state_value. Qed.

(** ** The paragraphs of a content *)

Lemma take_while_app_In (p : N -> bool) (r ctx : pystr) (c : N) :
  In c (take_while p r) -> In c (take_while p (r ++ ctx)).
Proof.
  induction r as [|x r IH]; [intros []|].
  cbn [take_while app]. destruct (p x); [|intros []].
  intros [<-|Hc]; [now left|right; now apply IH].
Qed.

Lemma blank_line_shorter (b ctx : pystr) :
  blank_line true (b ++ ctx) = None -> blank_line true b = None.
Proof.
  destruct b as [|c r]; [reflexivity|].
  cbn [app blank_line]. destruct (is_nl c); [|reflexivity].
  destruct (last_nl_end (take_while is_space (r ++ ctx))) as [n|] eqn:Hlong; [discriminate|].
  intros _.
  assert (Hshort : last_nl_end (take_while is_space r) = None).
  { apply last_nl_end_none. intros x Hx.
    apply (proj1 (last_nl_end_none _) Hlong). now apply take_while_app_In. }
  now rewrite Hshort.
Qed.

Lemma clear_before_nil (ctx : pystr) : clear_before [] ctx.
Proof. intros a b Hab Hb. destruct a; destruct b; try discriminate. contradiction. Qed.

Lemma clear_before_snoc (p : pystr) (c : N) (rest : pystr) :
  clear_before p (c :: rest) ->
  blank_line true (c :: rest) = None ->
  clear_before (p ++ [c]) rest.
Proof.
  intros Hp Hc a b Hab Hb.
  destruct (exists_last Hb) as (b' & x & ->).
  rewrite app_assoc in Hab. apply app_inj_tail in Hab as [-> ->].
  rewrite <- app_assoc. cbn [app].
  destruct b' as [|y b']; [exact Hc|].
  now apply (Hp a (y :: b')).
Qed.

Lemma clear_before_alone (p ctx : pystr) : clear_before p ctx -> clear_before p [].
Proof.
  intros Hp a b Hab Hb. apply (blank_line_shorter _ ctx).
  rewrite <- app_assoc. cbn [app]. now apply (Hp a b).
Qed.

Lemma split_pieces_clear (t : pystr) :
  forall (bol : bool) (skip : nat) (cur : pystr),
    clear_before (rev cur) (drop skip t) ->
    forall q, In q (re_split_from blank_line bol skip cur t) -> clear_before q [].
Proof.
  induction t as [|c rest IH]; intros bol skip cur Hcur q Hq.
  - cbn [re_split_from] in Hq. destruct Hq as [<-|[]].
    rewrite drop_nil in Hcur. exact Hcur.
  - cbn [re_split_from] in Hq. destruct skip as [|k].
    + cbn [drop] in Hcur.
      destruct (blank_line bol (c :: rest)) as [[u n]|] eqn:Hm.
      * destruct Hq as [<-|Hq]; [now apply (clear_before_alone _ (c :: rest))|].
        apply (IH (is_nl c) (n - 1) [] (clear_before_nil _) _ Hq).
      * apply (IH (is_nl c) 0 (c :: cur) (clear_before_snoc _ _ _ Hcur Hm) _ Hq).
    + apply (IH (is_nl c) k cur Hcur _ Hq).
Qed.

Lemma split_pieces_occur (m : matcher unit) (t : pystr) :
  forall (bol : bool) (skip : nat) (cur : pystr) (q : pystr),
    In q (re_split_from m bol skip cur t) ->
    (exists u v, drop skip t = u ++ v /\ q = rev cur ++ u) \/ occurs q t.
Proof.
  induction t as [|c rest IH]; intros bol skip cur q Hq.
  - cbn [re_split_from] in Hq. destruct Hq as [<-|[]].
    left. exists [], []. split; [now rewrite drop_nil|now rewrite app_nil_r].
  - cbn [re_split_from] in Hq. destruct skip as [|k].
    + destruct (m bol (c :: rest)) as [[u n]|].
      * destruct Hq as [<-|Hq].
        -- left. exists [], (c :: rest). split; [reflexivity|now rewrite app_nil_r].
        -- right. apply occurs_cons. right.
           destruct (IH _ _ _ _ Hq) as [(u' & v' & Hd & ->)|Ho]; [|exact Ho].
           cbn [rev app]. exists (take (n - 1) rest), v'.
           rewrite <- Hd. now rewrite take_drop.
      * destruct (IH _ _ _ _ Hq) as [(u' & v' & Hd & ->)|Ho].
        -- left. exists (c :: u'), v'. rewrite drop_0 in Hd. rewrite drop_0.
           split; [now rewrite Hd|]. cbn [rev]. now rewrite <- app_assoc.
        -- right. apply occurs_cons. now right.
    + destruct (IH _ _ _ _ Hq) as [(u' & v' & Hd & ->)|Ho].
      * left. now exists u', v'.
      * right. apply occurs_cons. now right.
Qed.

Lemma split_nonempty (m : matcher unit) (t : pystr) :
  forall bol skip cur, re_split_from m bol skip cur t <> [].
Proof.
  induction t as [|c rest IH]; intros bol skip cur; cbn [re_split_from]; [discriminate|].
  destruct skip; [|apply IH]. destruct (m bol (c :: rest)) as [[u n]|]; [discriminate|apply IH].
Qed.

(** X24. The paragraphs of a content.  [re.split] gives at least one
    paragraph; every paragraph is a part of the content in one piece and
    has no blank line in it: the separator pattern is found nowhere in
    it, and no two line feeds stand side by side.  A content in which
    the pattern is not found is its own only paragraph. *)
Theorem paragraphs_of_content (content : pystr) :
  split_paragraphs content <> [] /\
  (forall p, In p (split_paragraphs content) ->
     occurs p content /\
     re_search blank_line p = None /\
     str_in [nl; nl] p = false) /\
  (re_search blank_line content = None -> split_paragraphs content = [content]).
Proof.
  unfold split_paragraphs, re_split, re_search. split; [apply split_nonempty|]. split.
  - intros p Hp.
    assert (Hclear : clear_before p []).
    { apply (split_pieces_clear content true 0 [] (clear_before_nil _) p Hp). }
    split; [|split].
    + destruct (split_pieces_occur _ _ _ _ _ _ Hp) as [(u & v & Hd & ->)|Ho]; [|exact Ho].
      rewrite drop_0 in Hd. exists [], v. now rewrite Hd.
    + apply search_blank_none. intros a b Hab.
      destruct b as [|x b]; [reflexivity|].
      rewrite <- (app_nil_r (x :: b)). now apply (Hclear a).
    + apply not_true_iff_false. intros Hin.
      apply str_in_occurs in Hin as (a & b & Hab); [|discriminate].
      assert (Hb : blank_line true (([nl; nl] ++ b) ++ []) = None)
        by (apply (Hclear a); [exact Hab|discriminate]).
      rewrite app_nil_r in Hb. cbn [app blank_line] in Hb.
      change (is_nl nl) with true in Hb. cbn [take_while] in Hb.
      change (is_space nl) with true in Hb. cbn [last_nl_end] in Hb.
      destruct (last_nl_end (take_while is_space b)); discriminate Hb.
  - intros Hs. now apply split_without_match.
Qed.

(** ** An image reference that is copied *)

Lemma lazy_until_found (x : N) (d g r : pystr) :
  (forall c, In c g -> c <> nl /\ c <> x) ->
  lazy_until (x :: d) (g ++ (x :: d) ++ r) = Some g.
Proof.
  induction g as [|c g IH]; intros Hg.
  - cbn [app]. destruct d; cbn [lazy_until app];
      rewrite (proj2 (starts_with_app _ _)) by (now eexists); reflexivity.
  - destruct (Hg c (or_introl eq_refl)) as [Hnl Hx].
    change ((c :: g) ++ (x :: d) ++ r) with (c :: (g ++ (x :: d) ++ r)).
    cbn [lazy_until starts_with].
    destruct (N.eqb_spec x c) as [->|_]; [contradiction|]. cbn [andb].
    unfold is_nl. destruct (N.eqb_spec c nl) as [->|_]; [contradiction|].
    rewrite IH; [reflexivity|]. intros c' Hc'. apply Hg. now right.
Qed.

Lemma re_sub_image_ref_bol (H : Host) (session : pystr) (bol bol' : bool) (skip : nat)
    (t : pystr) :
  re_sub_from (image_ref H session) bol skip t = re_sub_from (image_ref H session) bol' skip t.
Proof.
  revert bol bol' skip. induction t as [|c t IH]; intros bol bol' skip; [reflexivity|].
  cbn [re_sub_from]. destruct skip as [|k]; [|reflexivity].
  change (image_ref H session bol (c :: t)) with (image_ref H session bol' (c :: t)).
  reflexivity.
Qed.

Lemma starts_with_https (src : pystr) :
  starts_with (py "https") src = true -> starts_with (py "http") src = true.
Proof.
  intros Hs. apply starts_with_app in Hs as [r ->]. apply starts_with_app.
  now exists (ch "s" :: r).
Qed.

Lemma re_sub_from_match (m : matcher pystr) (bol : bool) (x y repl : pystr) :
  x <> [] ->
  m bol (x ++ y) = Some (repl, length x) ->
  re_sub_from m bol 0 (x ++ y) = repl ++ re_sub_from m (line_start_after bol x) 0 y.
Proof.
  intros Hx Hm. destruct x as [|c x]; [contradiction|].
  change ((c :: x) ++ y) with (c :: (x ++ y)) in *.
  cbn [re_sub_from]. rewrite Hm. cbn [length]. replace (S (length x) - 1) with (length x) by lia.
  now rewrite re_sub_from_skip, line_start_after_cons.
Qed.

Lemma image_ref_at (H : Host) (session alt src post : pystr) (bol : bool) :
  (forall c, In c alt -> c <> nl /\ c <> ch "]") ->
  (forall c, In c src -> c <> nl /\ c <> ch ")") ->
  let ref := py "![" ++ alt ++ py "](" ++ src ++ py ")" in
  image_ref H session bol (ref ++ post)
  = Some (replace_img H session alt src ref, length ref).
Proof.
  intros Halt Hsrc. cbv zeta.
  set (ref := py "![" ++ alt ++ py "](" ++ src ++ py ")").
  set (r := alt ++ py "](" ++ src ++ py ")" ++ post).
  assert (Ht : ref ++ post = ch "!" :: ch "[" :: r).
  { unfold ref, r. rewrite <- !app_assoc. reflexivity. }
  assert (Ha : lazy_until (py "](") r = Some alt).
  { unfold r. apply (lazy_until_found (ch "]") [ch "("]). exact Halt. }
  assert (Hd : drop (length alt + 2) r = src ++ py ")" ++ post).
  { unfold r. rewrite drop_app_add. reflexivity. }
  assert (Hs : lazy_until (py ")") (src ++ py ")" ++ post) = Some src).
  { apply (lazy_until_found (ch ")") []). exact Hsrc. }
  assert (Hn : length alt + length src + 5 = length ref).
  { unfold ref. rewrite !length_app. cbn [py List.map list_ascii_of_string length]. lia. }
  rewrite Ht. unfold image_ref.
  change (is_ch "!" (ch "!") && is_ch "[" (ch "[")) with true. cbv iota.
  rewrite Ha, Hd, Hs. cbv zeta. rewrite <- Ht, Hn.
  now rewrite take_app_length.
Qed.

Lemma image_ref_needs_marker (H : Host) (session : pystr) (bol : bool) (c : N) (t : pystr) :
  c <> ch "!" -> image_ref H session bol (c :: t) = None.
Proof.
  intros Hc. unfold image_ref. destruct t as [|b r]; [reflexivity|].
  unfold is_ch at 1. destruct (N.eqb_spec c (ch "!")) as [->|_]; [contradiction|reflexivity].
Qed.

Lemma re_sub_image_ref_prefix (H : Host) (session pre rest : pystr) :
  (forall c, In c pre -> c <> ch "!") ->
  forall bol,
    re_sub_from (image_ref H session) bol 0 (pre ++ rest)
    = pre ++ re_sub_from (image_ref H session) true 0 rest.
Proof.
  intros Hpre. induction pre as [|c pre IH]; intros bol.
  - apply re_sub_image_ref_bol.
  - cbn [app re_sub_from].
    rewrite image_ref_needs_marker by (apply Hpre; now left).
    f_equal. apply IH. intros x Hx. apply Hpre. now right.
Qed.

(** X25. An image that is copied.  In a content with one image reference,
    standing between texts without exclamation mark, whose alternative
    text has no closing bracket, whose source has no closing
    parenthesis, and both no line feed: when the source begins with
    [http] the content is returned as it is; when it does not and the
    host finds the image and copies it, the reference becomes one to the
    base name of the source under [./src/], with the same alternative
    text, and the texts around it are kept. *)
Theorem process_images_one_reference (H : Host) (session pre alt src post : pystr)
    (Hpre : forall c, In c pre -> c <> ch "!")
    (Hpost : forall c, In c post -> c <> ch "!")
    (Halt : forall c, In c alt -> c <> nl /\ c <> ch "]")
    (Hsrc : forall c, In c src -> c <> nl /\ c <> ch ")")
    (Hok : starts_with (py "http") src = true \/ copy_image H session src = true) :
  let ref := py "![" ++ alt ++ py "](" ++ src ++ py ")" in
  _process_images H session (pre ++ ref ++ post)
  = pre
    ++ (if starts_with (py "http") src then ref
        else py "![" ++ alt ++ py "](./src/" ++ path_name H src ++ py ")")
    ++ post.
Proof.
  cbv zeta. unfold _process_images, re_sub.
  set (ref := py "![" ++ alt ++ py "](" ++ src ++ py ")").
  rewrite (re_sub_image_ref_prefix H session pre _ Hpre). f_equal.
  rewrite (re_sub_from_match (image_ref H session) true ref post
             (replace_img H session alt src ref)).
  - rewrite <- (app_nil_r post) at 1.
    rewrite (re_sub_image_ref_prefix H session post [] Hpost), app_nil_r. f_equal.
    unfold replace_img.
    destruct (starts_with (py "http") src) eqn:Hweb; [reflexivity|].
    destruct (starts_with (py "https") src) eqn:Hwebs;
      [apply starts_with_https in Hwebs; congruence|].
    destruct Hok as [Hok|Hok]; [discriminate Hok|]. now rewrite Hok.
  - discriminate.
  - now apply image_ref_at.
Qed.

Lemma process_images_one_reference_witness :
  _process_images ex_host_images ex_hash ex_one_image
  = md "The flow of a request:|![flow](./src/flow.png)|as drawn by the team.".
Proof.
  change ex_one_image
    with (md "The flow of a request:|"
          ++ (py "![" ++ py "flow" ++ py "](" ++ py "images/flow.png" ++ py ")")
          ++ md "|as drawn by the team.").
  rewrite (process_images_one_reference ex_host_images ex_hash
             (md "The flow of a request:|") (py "flow") (py "images/flow.png")
             (md "|as drawn by the team.")).
  - vm_compute. reflexivity.
  - intros c Hc. vm_compute in Hc.
    repeat (destruct Hc as [<-|Hc]; [discriminate|]). destruct Hc.
  - intros c Hc. vm_compute in Hc.
    repeat (destruct Hc as [<-|Hc]; [discriminate|]). destruct Hc.
  - intros c Hc. vm_compute in Hc.
    repeat (destruct Hc as [<-|Hc]; [split; discriminate|]). destruct Hc.
  - intros c Hc. vm_compute in Hc.
    repeat (destruct Hc as [<-|Hc]; [split; discriminate|]). destruct Hc.
  - right. reflexivity.
Defined.
